(** * express-jobly: the job accessor and the partial-update column mapper

    A shallow embedding of [helpers/sql.js] ([sqlForPartialUpdate]) and of
    [models/job.js] (the static methods of [Job]), together with the parts
    of their environment the two files lean on:

    - the JavaScript values that travel through them (primitive values,
      objects as ordered lists of own properties, the coercions [Number],
      [String], truthiness, property lookup through [Object.prototype]);
    - the [pg] client and the relational store behind [db.query]: the two
      tables, the statements the accessor issues, and the way the store
      reads the text fragments the accessor builds by interpolation;
    - what the sources do not settle about the store (its collation, the
      order of rows that ORDER BY leaves equal, what it makes of a text
      that is none of the accessor's statements) as parameters of the
      state: a property holds whatever the store does there.

    Strings are sequences of ASCII characters. *)

From Stdlib Require Import ZArith String Ascii List Bool Lia.
From Stdlib Require Import Decimal DecimalString DecimalZ.
From Stdlib Require DecimalFacts DecimalPos.
From Stdlib Require Import Sorting.Sorted Sorting.Permutation.
Import ListNotations.

Local Open Scope string_scope.
Local Open Scope Z_scope.

(* ================================================================= *)
(** ** Text helpers *)

Module Text.

Fixpoint zeros (n : nat) : string :=
  match n with
  | O => ""
  | S n' => String "0" (zeros n')
  end.

Fixpoint take (n : nat) (s : string) : string :=
  match n, s with
  | S n', String c r => String c (take n' r)
  | _, _ => ""
  end.

Fixpoint drop (n : nat) (s : string) : string :=
  match n, s with
  | S n', String _ r => drop n' r
  | _, _ => s
  end.

Fixpoint rev_onto (s acc : string) : string :=
  match s with
  | "" => acc
  | String c r => rev_onto r (String c acc)
  end.

Definition rev (s : string) : string := rev_onto s "".

(** [Array.prototype.join]. *)
Fixpoint join (sep : string) (l : list string) : string :=
  match l with
  | [] => ""
  | [x] => x
  | x :: rest => x ++ sep ++ join sep rest
  end.

(** [strip_prefix p s] is [Some r] when [s = p ++ r]. *)
Fixpoint strip_prefix (p s : string) : option string :=
  match p, s with
  | "", _ => Some s
  | String a p', String b s' =>
      if Ascii.eqb a b then strip_prefix p' s' else None
  | String _ _, "" => None
  end.

(** Trailing zeros removed from a digit string. *)
Fixpoint rstrip0 (s : string) : string :=
  match s with
  | "" => ""
  | String c r =>
      let r' := rstrip0 r in
      if Ascii.eqb c "0" && String.eqb r' "" then "" else String c r'
  end.

(** The white space of [StrWhiteSpaceChar] that is ASCII:
    TAB, LF, VT, FF, CR and SP. *)
Definition is_space (c : ascii) : bool :=
  let n := nat_of_ascii c in
  ((9 <=? n)%nat && (n <=? 13)%nat) || (n =? 32)%nat.

Fixpoint ltrim (s : string) : string :=
  match s with
  | String c r => if is_space c then ltrim r else s
  | "" => ""
  end.

Definition trim (s : string) : string := rev (ltrim (rev (ltrim s))).

Definition lower_char (c : ascii) : ascii :=
  let n := nat_of_ascii c in
  if ((65 <=? n)%nat && (n <=? 90)%nat)%bool then ascii_of_nat (n + 32) else c.

(** [String.prototype.toLowerCase] on ASCII text. *)
Fixpoint toLowerCase (s : string) : string :=
  match s with
  | "" => ""
  | String c r => String (lower_char c) (toLowerCase r)
  end.

(** Decimal digits. *)
Definition is_digit (c : ascii) : bool :=
  let n := nat_of_ascii c in (48 <=? n)%nat && (n <=? 57)%nat.

Definition digit_value (c : ascii) : Z := Z.of_nat (nat_of_ascii c) - 48.

Fixpoint all_digits (s : string) : bool :=
  match s with
  | "" => true
  | String c r => is_digit c && all_digits r
  end.

(** The longest prefix of decimal digits, and what follows it. *)
Fixpoint take_digits (s : string) : string * string :=
  match s with
  | "" => ("", "")
  | String c r =>
      if is_digit c
      then let (ds, rest) := take_digits r in (String c ds, rest)
      else ("", s)
  end.

(** The number a string of digits writes, after the digits read so far. *)
Fixpoint value_from (acc : Z) (ds : string) : Z :=
  match ds with
  | "" => acc
  | String c r => value_from (10 * acc + digit_value c) r
  end.

Definition value (ds : string) : Z := value_from 0 ds.

Fixpoint no_space (s : string) : bool :=
  match s with
  | "" => true
  | String c r => negb (is_space c) && no_space r
  end.

(** Nothing more to read as a digit: the end, or another character. *)
Definition stops (r : string) : bool :=
  match r with
  | "" => true
  | String c _ => negb (is_digit c)
  end.

Definition is_empty (s : string) : bool :=
  match s with "" => true | _ => false end.

(** The decimal text of an integer: ["0"], ["42"], ["-7"]. *)
Definition decimal (z : Z) : string := NilZero.string_of_int (Z.to_int z).

(** An optional exponent part [e[+-]digits]; without a well-formed one
    nothing is consumed. *)
Definition scan_exponent (s : string) : Z * string :=
  match s with
  | String c r =>
      if Ascii.eqb c "e" || Ascii.eqb c "E" then
        let '(sg, r') :=
          match r with
          | String "+" r' => (1, r')
          | String "-" r' => (-1, r')
          | _ => (1, r)
          end in
        let (ds, rest) := take_digits r' in
        if is_empty ds then (0, s) else (sg * value ds, rest)
      else (0, s)
  | "" => (0, s)
  end.

(** An unsigned decimal literal at the head of [s]:
    [digits [. digits] [exponent]] or [. digits [exponent]].  The result
    [(m, e, rest)] stands for the number [m * 10^e]. *)
Definition scan_decimal (s : string) : option (Z * Z * string) :=
  let (ip, r1) := take_digits s in
  let (fp, r2) :=
    match r1 with
    | String "." r => take_digits r
    | _ => ("", r1)
    end in
  if is_empty ip && is_empty fp then None
  else
    let (ex, r3) := scan_exponent r2 in
    Some (value (ip ++ fp), ex - Z.of_nat (String.length fp), r3).

(** A minus sign in front of a literal. *)
Definition minus_sign (s : string) : Z * string :=
  match s with
  | String "-" r => (-1, r)
  | _ => (1, s)
  end.

(** Digits of a radix 2, 8 or 16 literal. *)
Definition radix_digit (radix : Z) (c : ascii) : option Z :=
  let n := Z.of_nat (nat_of_ascii c) in
  let v :=
    if (48 <=? n) && (n <=? 57) then n - 48
    else if (97 <=? n) && (n <=? 102) then n - 87
    else if (65 <=? n) && (n <=? 70) then n - 55
    else radix in
  if v <? radix then Some v else None.

Fixpoint radix_value (radix : Z) (acc : Z) (s : string) : option Z :=
  match s with
  | "" => Some acc
  | String c r =>
      match radix_digit radix c with
      | Some v => radix_value radix (acc * radix + v) r
      | None => None
      end
  end.

End Text.

(* ================================================================= *)
(** ** JavaScript values *)

Module JS.

(** Numbers.  A finite number is kept as the decimal [m * 10^e] that its
    text shows: the shortest decimal that names the double.  A literal is
    rounded to the nearest double when it is read ([to_double] below); a
    decimal that names no double is the value of no literal. *)
Inductive jsnum : Type :=
| NaN
| Inf (negative : bool)
| Fin (m e : Z).

Definition int (z : Z) : jsnum := Fin z 0.

(** Primitive values: what a query string, a JSON body or a test passes
    as a property value. *)
Inductive jsval : Type :=
| VUndefined
| VNull
| VBool (b : bool)
| VNum (n : jsnum)
| VStr (s : string).

(** An object: its own enumerable string-keyed properties, in the order
    [Object.keys] iterates them. *)
Definition obj : Type := list (string * jsval).

Definition Object_keys (o : obj) : list string := map fst o.
Definition Object_values (o : obj) : list jsval := map snd o.

(** Own property lookup. *)
Fixpoint own (o : obj) (k : string) : option jsval :=
  match o with
  | [] => None
  | (k', v) :: rest => if String.eqb k' k then Some v else own rest k
  end.

(** [o[k]] where [k] is one of the own keys of [o]. *)
Definition prop (o : obj) (k : string) : jsval :=
  match own o k with
  | Some v => v
  | None => VUndefined
  end.

Definition isNaN (n : jsnum) : bool :=
  match n with NaN => true | _ => false end.

(** [Number::toString] for a positive finite number [m * 10^e]. *)
Definition finite_text (m e : Z) : string :=
  let ds := Text.decimal m in
  let s := Text.rstrip0 ds in
  let k := Z.of_nat (String.length s) in
  let n := Z.of_nat (String.length ds) + e in
  if (k <=? n) && (n <=? 21) then
    s ++ Text.zeros (Z.to_nat (n - k))
  else if (0 <? n) && (n <=? 21) then
    Text.take (Z.to_nat n) s ++ "." ++ Text.drop (Z.to_nat n) s
  else if (-6 <? n) && (n <=? 0) then
    "0." ++ Text.zeros (Z.to_nat (- n)) ++ s
  else
    let x := n - 1 in
    let mant :=
      if k =? 1 then s else Text.take 1 s ++ "." ++ Text.drop 1 s in
    mant ++ "e" ++ (if x <? 0 then "-" else "+") ++ Text.decimal (Z.abs x).

Definition NumberToString (n : jsnum) : string :=
  match n with
  | NaN => "NaN"
  | Inf false => "Infinity"
  | Inf true => "-Infinity"
  | Fin m e =>
      if m =? 0 then "0"
      else if m <? 0 then "-" ++ finite_text (- m) e
      else finite_text m e
  end.

(** [String(v)], the conversion a template literal applies. *)
Definition ToString (v : jsval) : string :=
  match v with
  | VUndefined => "undefined"
  | VNull => "null"
  | VBool true => "true"
  | VBool false => "false"
  | VNum n => NumberToString n
  | VStr s => s
  end.

(** The number of decimal digits of a positive integer. *)
Definition digits_of (z : Z) : Z := Z.of_nat (String.length (Text.decimal z)).

(** The double nearest to the positive rational [p / q], ties to the even
    significand: the significand [f] and the exponent [x] of the value
    [f * 2^x], with [f] below [2^53] and [x] from -1074 on; [None] when
    the rational rounds beyond the largest double. *)
Definition nearest_double (p q : Z) : option (Z * Z) :=
  let k := Z.log2 p - Z.log2 q in
  let lg :=
    if (if 0 <=? k then q * 2 ^ k <=? p else q <=? p * 2 ^ (- k))
    then k else k - 1 in
  let x := Z.max (lg - 52) (-1074) in
  let num := if 0 <=? x then p else p * 2 ^ (- x) in
  let den := if 0 <=? x then q * 2 ^ x else q in
  let (f0, r) := Z.div_eucl num den in
  let f :=
    match 2 * r ?= den with
    | Lt => f0
    | Gt => f0 + 1
    | Eq => if Z.even f0 then f0 else f0 + 1
    end in
  let (f', x') := if f =? 2 ^ 53 then (2 ^ 52, x + 1) else (f, x) in
  if 971 <? x' then None else Some (f', x').

(** The decimal [c * 10^t] names the double [f * 2^x]. *)
Definition names (c t f x : Z) : bool :=
  match nearest_double (c * 10 ^ Z.max t 0) (10 ^ Z.max (- t) 0) with
  | Some (f', x') => (f' =? f) && (x' =? x)
  | None => false
  end.

(** The power of ten at or below the positive rational [p / q]. *)
Definition magnitude (p q : Z) : Z :=
  let g := digits_of p - digits_of q in
  if (if 0 <=? g then q * 10 ^ g <=? p else q <=? p * 10 ^ (- g))
  then g else g - 1.

(** The decimal of [n] digits nearest to the double [f * 2^x], when it
    names that double; the one on the other side of the double when only
    that one does. *)
Definition digits_try (f x n : Z) : option (Z * Z) :=
  let p := if 0 <=? x then f * 2 ^ x else f in
  let q := if 0 <=? x then 1 else 2 ^ (- x) in
  let t := magnitude p q - (n - 1) in
  let num := if 0 <=? t then p else p * 10 ^ (- t) in
  let den := if 0 <=? t then q * 10 ^ t else q in
  let (lo, r) := Z.div_eucl num den in
  let near :=
    match 2 * r ?= den with
    | Lt => lo
    | Gt => lo + 1
    | Eq => if Z.even lo then lo else lo + 1
    end in
  let far := if near =? lo then lo + 1 else lo in
  if names near t f x then Some (near, t)
  else if names far t f x then Some (far, t)
  else None.

(** The shortest decimal that names the double [f * 2^x], as
    [Number::toString] chooses its digits: as few as possible, from [n]
    digits on; the exact decimal of the double when [fuel] runs out. *)
Fixpoint shortest_from (fuel : nat) (n f x : Z) : Z * Z :=
  match fuel with
  | O => if 0 <=? x then (f * 2 ^ x, 0) else (f * 5 ^ (- x), x)
  | S fuel' =>
      match digits_try f x n with
      | Some ct => ct
      | None => shortest_from fuel' (n + 1) f x
      end
  end.

Definition shortest (f x : Z) : Z * Z := shortest_from 17 1 f x.

(** The number a decimal literal [m * 10^e] is read as: the nearest
    double, Infinity beyond the largest one.  The literal keeps its own
    digits when they are the number the double is printed as. *)
Definition to_double (m e : Z) : jsnum :=
  if m =? 0 then Fin m e
  else
    let a := Z.abs m in
    let size := digits_of a + e in
    if 310 <? size then Inf (m <? 0)
    else if size <? -330 then Fin 0 0
    else
      match nearest_double (a * 10 ^ Z.max e 0) (10 ^ Z.max (- e) 0) with
      | None => Inf (m <? 0)
      | Some (f, x) =>
          if f =? 0 then Fin 0 0
          else
            let (c, t) := shortest f x in
            if c * 10 ^ Z.max t 0 * 10 ^ Z.max (- e) 0
               =? a * 10 ^ Z.max e 0 * 10 ^ Z.max (- t) 0
            then Fin m e
            else Fin (if m <? 0 then - c else c) t
      end.

(** [StrUnsignedDecimalLiteral]. *)
Definition unsigned_literal (s : string) : jsnum :=
  if String.eqb s "Infinity" then Inf false
  else
    match Text.scan_decimal s with
    | Some (m, e, "") => to_double m e
    | _ => NaN
    end.

Definition negate (n : jsnum) : jsnum :=
  match n with
  | NaN => NaN
  | Inf b => Inf (negb b)
  | Fin m e => Fin (- m) e
  end.

(** [StringToNumber]: white space trimmed; the empty string is 0; a
    signed decimal literal, or an unsigned literal in radix 16, 8 or 2;
    anything else is NaN. *)
Definition StringToNumber (s : string) : jsnum :=
  match Text.trim s with
  | "" => Fin 0 0
  | String "+" r => unsigned_literal r
  | String "-" r => negate (unsigned_literal r)
  | String "0" (String p (String c r)) as t =>
      let radix :=
        if Ascii.eqb p "x" || Ascii.eqb p "X" then 16
        else if Ascii.eqb p "o" || Ascii.eqb p "O" then 8
        else if Ascii.eqb p "b" || Ascii.eqb p "B" then 2
        else 0 in
      if radix =? 0 then unsigned_literal t
      else
        match Text.radix_value radix 0 (String c r) with
        | Some v => to_double v 0
        | None => NaN
        end
  | t => unsigned_literal t
  end.

(** [Number(v)]. *)
Definition Number (v : jsval) : jsnum :=
  match v with
  | VUndefined => NaN
  | VNull => Fin 0 0
  | VBool true => Fin 1 0
  | VBool false => Fin 0 0
  | VNum n => n
  | VStr s => StringToNumber s
  end.

(** Truthiness, as [||] tests it. *)
Definition truthy (v : jsval) : bool :=
  match v with
  | VUndefined | VNull => false
  | VBool b => b
  | VNum NaN => false
  | VNum (Inf _) => true
  | VNum (Fin m _) => negb (m =? 0)
  | VStr s => negb (String.eqb s "")
  end.

(** What [o[k]] finds on [Object.prototype] when [k] is not an own key of
    a plain object [o]: the member of that name, given here by the text a
    template literal prints for it.  Every one of them is truthy. *)
Definition native (fname : string) : string :=
  "function " ++ fname ++ "() { [native code] }".

Definition Object_prototype : list (string * string) :=
  [ ("constructor", native "Object");
    ("__defineGetter__", native "__defineGetter__");
    ("__defineSetter__", native "__defineSetter__");
    ("hasOwnProperty", native "hasOwnProperty");
    ("__lookupGetter__", native "__lookupGetter__");
    ("__lookupSetter__", native "__lookupSetter__");
    ("isPrototypeOf", native "isPrototypeOf");
    ("propertyIsEnumerable", native "propertyIsEnumerable");
    ("toString", native "toString");
    ("valueOf", native "valueOf");
    ("__proto__", "[object Object]");
    ("toLocaleString", native "toLocaleString") ].

Fixpoint inherited_from (proto : list (string * string)) (k : string)
  : option string :=
  match proto with
  | [] => None
  | (k', text) :: rest =>
      if String.eqb k' k then Some text else inherited_from rest k
  end.

Definition inherited (k : string) : option string :=
  inherited_from Object_prototype k.

(** The text of [`${o[k] || k}`]: the own property when it is truthy, the
    inherited member when there is no own property of that name, and the
    key itself otherwise. *)
Definition or_key (o : obj) (k : string) : string :=
  match own o k with
  | Some v => if truthy v then ToString v else k
  | None =>
      match inherited k with
      | Some text => text
      | None => k
      end
  end.

(** [l.map((x, idx) => f(x, idx))], the index counted from [i]. *)
Fixpoint map_idx {A B : Type} (f : A -> nat -> B) (i : nat) (l : list A)
  : list B :=
  match l with
  | [] => []
  | x :: rest => f x i :: map_idx f (S i) rest
  end.

(** Objects whose properties may hold a nested object: the result
    [Job.get] shapes out of a row. *)
Inductive jsref : Type :=
| Prim (v : jsval)
| Object (o : obj).

Definition record : Type := list (string * jsref).

Definition of_obj (o : obj) : record :=
  map (fun kv => (fst kv, Prim (snd kv))) o.

(** [delete r[k]]. *)
Fixpoint delete (r : record) (k : string) : record :=
  match r with
  | [] => []
  | (k', v) :: rest =>
      if String.eqb k' k then delete rest k else (k', v) :: delete rest k
  end.

(** [r[k] = v]: an own property keeps its place, a new one goes last. *)
Fixpoint assign (r : record) (k : string) (v : jsref) : record :=
  match r with
  | [] => [(k, v)]
  | (k', v') :: rest =>
      if String.eqb k' k then (k', v) :: rest
      else (k', v') :: assign rest k v
  end.

(** The [rows] member of a result as a condition: an array is an object,
    and every object is truthy, the empty array too; a result without the
    member gives [undefined], which is not. *)
Definition truthy_rows (rows : option (list obj)) : bool :=
  match rows with
  | Some _ => true
  | None => false
  end.

Definition has_key (r : record) (k : string) : bool :=
  existsb (fun kv => String.eqb (fst kv) k) r.

End JS.


(* ================================================================= *)
(** ** The store behind [db.query] *)

Module Pg.
Import JS.

(** A decimal of the store: [unscaled * 10^-scale]. *)
Record numeric : Type := { unscaled : Z; scale : nat }.

(** Modelled from the spec: the two tables (sections 3 and 6); the schema
    file is not among the sources.  A job's [title] and [company_handle]
    are never null, its [salary] and [equity] may be. *)
Record job_row : Type := {
  id : Z;
  title : string;
  salary : option Z;
  equity : option numeric;
  company_handle : string
}.

Record company_row : Type := {
  handle : string;
  name : string;
  description : string;
  num_employees : option Z;
  logo_url : option string
}.

(** The statement shapes of [models/job.js].  The fixed text of a
    statement is the constructor; the fragments the accessor interpolates
    travel as text and are read by the store. *)
Inductive statement : Type :=
| InsertJob
    (* INSERT INTO jobs (title, salary, equity, company_handle)
       VALUES ($1, $2, $3, $4) RETURNING id, title, salary, equity,
       company_handle AS "companyHandle" *)
| SelectJobs
    (* SELECT id, title, salary, equity, company_handle AS "companyHandle"
       FROM jobs ORDER BY title *)
| SelectJobsWhere (whereClause : string)
    (* ... FROM jobs WHERE ${whereClause} ORDER BY title *)
| SelectJobById
    (* ... FROM jobs WHERE id = $1 *)
| SelectCompanyByHandle
    (* SELECT handle, name, description, num_employees AS "numEmployees",
       logo_url AS "logoUrl" FROM companies WHERE handle = $1 *)
| UpdateJob (setCols idVarIdx : string)
    (* UPDATE jobs SET ${setCols} WHERE id = ${idVarIdx} RETURNING ... *)
| DeleteJob.
    (* DELETE FROM jobs WHERE id = $1 RETURNING id *)

(** What a statement comes back with: a result with its rows; a reply
    without a [rows] member, which is what the client hands over when the
    text carried several statements; an error of the store; or an end the
    client gives no shape to (the connection is lost, the reply never
    comes). *)
Inductive reply : Type :=
| Rows (rows : list obj)
| NoRows
| Fault
| Beyond.

(** The content of the tables: the jobs, the companies and the next value
    of the sequence behind [jobs.id]. *)
Definition content : Type := list job_row * list company_row * Z.

(** The state of the world: the tables, the sequence behind [jobs.id],
    the statements issued so far, oldest first, and what the sources do
    not settle about the store:
    - [collation]: the sort key of a text, whose order character by
      character is the order of the database's collation;
    - [physical]: where a row lies after the statements issued so far,
      the one that runs included, which decides the order of rows that
      ORDER BY leaves equal;
    - [beyond]: what the store makes of a statement whose text is not
      one of those read below. *)
Record db : Type := {
  jobs : list job_row;
  companies : list company_row;
  next_id : Z;
  issued : list (statement * list jsval);
  collation : string -> string;
  physical : list (statement * list jsval) -> job_row -> Z;
  beyond : statement -> list (option string) -> content -> reply * content
}.

(* --------------------------------------------------------------- *)
(** *** Values in and out *)

(** The text the client sends for a parameter; [None] is NULL. *)
Definition prepareValue (v : jsval) : option string :=
  match v with
  | VUndefined | VNull => None
  | other => Some (ToString other)
  end.

(** Input of an integer column: optional white space, sign and digits. *)
Definition integer_in (s : string) : option Z :=
  let t := Text.trim s in
  let '(sg, r) :=
    match t with
    | String "-" r => (-1, r)
    | String "+" r => (1, r)
    | _ => (1, t)
    end in
  match Text.take_digits r with
  | ("", _) => None
  | (ds, "") => Some (sg * Text.value ds)
  | _ => None
  end.

Definition numeric_of (m e : Z) : numeric :=
  if 0 <=? e then {| unscaled := m * 10 ^ e; scale := 0 |}
  else {| unscaled := m; scale := Z.to_nat (- e) |}.

(** Input of a decimal column. *)
Definition numeric_in (s : string) : option numeric :=
  let t := Text.trim s in
  let '(sg, r) :=
    match t with
    | String "-" r => (-1, r)
    | String "+" r => (1, r)
    | _ => (1, t)
    end in
  match Text.scan_decimal r with
  | Some (m, e, "") => Some (numeric_of (sg * m) e)
  | _ => None
  end.

(** Output of a decimal column: [scale] digits after the point. *)
Definition numeric_out (q : numeric) : string :=
  let ds := Text.decimal (Z.abs (unscaled q)) in
  let padded := Text.zeros (S (scale q) - String.length ds) ++ ds in
  let split := (String.length padded - scale q)%nat in
  (if unscaled q <? 0 then "-" else "")
  ++ Text.take split padded
  ++ (if Nat.eqb (scale q) 0 then "" else "." ++ Text.drop split padded).

Definition of_integer (z : option Z) : jsval :=
  match z with Some v => VNum (int v) | None => VNull end.

Definition of_text (s : option string) : jsval :=
  match s with Some v => VStr v | None => VNull end.

Definition of_numeric (q : option numeric) : jsval :=
  match q with Some v => VStr (numeric_out v) | None => VNull end.

(** A row of [jobs] as the client hands it over, columns in the order of
    the select list. *)
Definition job_obj (r : job_row) : obj :=
  [ ("id", VNum (int (id r)));
    ("title", VStr (title r));
    ("salary", of_integer (salary r));
    ("equity", of_numeric (equity r));
    ("companyHandle", VStr (company_handle r)) ].

Definition company_obj (c : company_row) : obj :=
  [ ("handle", VStr (handle c));
    ("name", VStr (name c));
    ("description", VStr (description c));
    ("numEmployees", of_integer (num_employees c));
    ("logoUrl", of_text (logo_url c)) ].

(* --------------------------------------------------------------- *)
(** *** ORDER BY title *)

(** [a] may stand before [b]: by the collation of the titles; by their
    characters when the collation leaves them equal; by where the rows
    lie when the titles are the same. *)
Definition before (d : db) (a b : job_row) : bool :=
  match String.compare (collation d (title a)) (collation d (title b)) with
  | Lt => true
  | Gt => false
  | Eq =>
      match String.compare (title a) (title b) with
      | Lt => true
      | Gt => false
      | Eq =>
          physical d (issued d) a <=? physical d (issued d) b
      end
  end.

Fixpoint insert_by_title (d : db) (r : job_row) (l : list job_row)
  : list job_row :=
  match l with
  | [] => [r]
  | x :: rest =>
      if before d r x then r :: l
      else x :: insert_by_title d r rest
  end.

(** Rows in ascending order of title, as the store of state [d] hands
    them over. *)
Fixpoint order_by_title (d : db) (l : list job_row) : list job_row :=
  match l with
  | [] => []
  | x :: rest => insert_by_title d x (order_by_title d rest)
  end.

(* --------------------------------------------------------------- *)
(** *** Reading a WHERE clause *)

(** The conjuncts the store reads:
    [salary >= <number>], [equity > 0] and [LOWER(title) LIKE '<pattern>'];
    and [salary >= Infinity], with or without a minus sign, where
    [Infinity] is read as the name of a column. *)
Inductive cond : Type :=
| SalaryGe (m e : Z)
| SalaryGeInfinity
| EquityPos
| TitleLike (pattern : string).

(** Delimited text up to the closing delimiter [q]; a doubled delimiter
    stands for the delimiter itself. *)
Fixpoint until (q : ascii) (s : string) : option (string * string) :=
  match s with
  | "" => None
  | String c r =>
      if Ascii.eqb c q then
        match r with
        | String c' r' =>
            if Ascii.eqb c' q then
              match until q r' with
              | Some (body, rest) => Some (String q body, rest)
              | None => None
              end
            else Some ("", r)
        | "" => Some ("", r)
        end
      else
        match until q r with
        | Some (body, rest) => Some (String c body, rest)
        | None => None
        end
  end.

Definition read_cond (s : string) : option (cond * string) :=
  match Text.strip_prefix "salary >= " s with
  | Some r =>
      let (sg, r1) := Text.minus_sign r in
      match Text.scan_decimal r1 with
      | Some (m, e, rest) => Some (SalaryGe (sg * m) e, rest)
      | None =>
          match Text.strip_prefix "Infinity" r1 with
          | Some rest => Some (SalaryGeInfinity, rest)
          | None => None
          end
      end
  | None =>
      match Text.strip_prefix "equity > 0" s with
      | Some rest => Some (EquityPos, rest)
      | None =>
          match Text.strip_prefix "LOWER(title) LIKE '" s with
          | Some r =>
              match until "'" r with
              | Some (pattern, rest) => Some (TitleLike pattern, rest)
              | None => None
              end
          | None => None
          end
      end
  end.

(** Conjuncts separated by [ AND ]. *)
Fixpoint read_conds (fuel : nat) (s : string) : option (list cond) :=
  match fuel with
  | O => None
  | S fuel' =>
      match read_cond s with
      | None => None
      | Some (c, "") => Some [c]
      | Some (c, rest) =>
          match Text.strip_prefix " AND " rest with
          | Some r => option_map (cons c) (read_conds fuel' r)
          | None => None
          end
      end
  end.

Definition read_where (clause : string) : option (list cond) :=
  read_conds (S (String.length clause)) clause.

Fixpoint mentions (c : ascii) (s : string) : bool :=
  match s with
  | "" => false
  | String c' r => Ascii.eqb c' c || mentions c r
  end.

(** A LIKE pattern must not end in the middle of an escape. *)
Fixpoint pattern_ok (p : string) : bool :=
  match p with
  | "" => true
  | String c p' =>
      if Ascii.eqb c "\" then
        match p' with
        | "" => false
        | String _ p'' => pattern_ok p''
        end
      else pattern_ok p'
  end.

Definition cond_ok (c : cond) : bool :=
  match c with
  | TitleLike p => pattern_ok p
  | _ => true
  end.

(** The jobs table has no column [Infinity]. *)
Definition cond_known (c : cond) : bool :=
  match c with
  | SalaryGeInfinity => false
  | _ => true
  end.

(** [t LIKE p]: [%] stands for any text, [_] for any character, a
    backslash takes the next character literally. *)
Fixpoint like (p t : string) {struct p} : bool :=
  match p with
  | "" => match t with "" => true | _ => false end
  | String c p' =>
      if Ascii.eqb c "%" then
        (fix any (u : string) : bool :=
           like p' u
           || match u with String _ u' => any u' | "" => false end) t
      else if Ascii.eqb c "_" then
        match t with String _ t' => like p' t' | "" => false end
      else if Ascii.eqb c "\" then
        match p' with
        | String e p'' =>
            match t with
            | String d t' => Ascii.eqb e d && like p'' t'
            | "" => false
            end
        | "" => false
        end
      else
        match t with
        | String d t' => Ascii.eqb c d && like p' t'
        | "" => false
        end
  end.

(** [m * 10^e <= s], for an integer [s]. *)
Definition decimal_le (m e s : Z) : bool :=
  m * 10 ^ Z.max e 0 <=? s * 10 ^ Z.max (- e) 0.

(** A conjunct on a row; a comparison with NULL does not hold. *)
Definition holds (c : cond) (r : job_row) : bool :=
  match c with
  | SalaryGe m e =>
      match salary r with
      | Some s => decimal_le m e s
      | None => false
      end
  | SalaryGeInfinity => false
  | EquityPos =>
      match equity r with
      | Some q => 0 <? unscaled q
      | None => false
      end
  | TitleLike p => like p (Text.toLowerCase (title r))
  end.

Definition all_hold (cs : list cond) (r : job_row) : bool :=
  forallb (fun c => holds c r) cs.

(* --------------------------------------------------------------- *)
(** *** Reading a SET clause *)

Definition dquote : ascii := "034"%char.

(** A placeholder [$n]. *)
Definition read_placeholder (s : string) : option (nat * string) :=
  match s with
  | String "$" r =>
      match Text.take_digits r with
      | ("", _) => None
      | (ds, rest) => Some (Z.to_nat (Text.value ds), rest)
      end
  | _ => None
  end.

(** Assignments ["<column>"=$n] separated by a comma and a space. *)
Fixpoint read_set (fuel : nat) (s : string) : option (list (string * nat)) :=
  match fuel with
  | O => None
  | S fuel' =>
      match s with
      | String c r =>
          if Ascii.eqb c dquote then
            match until dquote r with
            | Some (col, String "=" r1) =>
                match read_placeholder r1 with
                | Some (n, "") => Some [(col, n)]
                | Some (n, rest) =>
                    match Text.strip_prefix ", " rest with
                    | Some r2 => option_map (cons (col, n)) (read_set fuel' r2)
                    | None => None
                    end
                | None => None
                end
            | _ => None
            end
          else None
      | "" => None
      end
  end.

Inductive column : Type :=
| Cid | Ctitle | Csalary | Cequity | Ccompany_handle.

Definition column_of (name : string) : option column :=
  if String.eqb name "id" then Some Cid
  else if String.eqb name "title" then Some Ctitle
  else if String.eqb name "salary" then Some Csalary
  else if String.eqb name "equity" then Some Cequity
  else if String.eqb name "company_handle" then Some Ccompany_handle
  else None.

(** A value read for a column. *)
Inductive change : Type :=
| SetId (v : option Z)
| SetTitle (v : option string)
| SetSalary (v : option Z)
| SetEquity (v : option numeric)
| SetCompanyHandle (v : option string).

Definition read_integer (p : option string) : option (option Z) :=
  match p with
  | None => Some None
  | Some s => option_map Some (integer_in s)
  end.

Definition read_numeric (p : option string) : option (option numeric) :=
  match p with
  | None => Some None
  | Some s => option_map Some (numeric_in s)
  end.

(** A parameter read as a value of a column; [None] when its text is not
    of the column's type. *)
Definition read_change (c : column) (p : option string) : option change :=
  match c with
  | Cid => option_map SetId (read_integer p)
  | Ctitle => Some (SetTitle p)
  | Csalary => option_map SetSalary (read_integer p)
  | Cequity => option_map SetEquity (read_numeric p)
  | Ccompany_handle => Some (SetCompanyHandle p)
  end.

(** A row with one column changed; [None] when the column refuses NULL. *)
Definition apply_change (r : job_row) (ch : change) : option job_row :=
  match ch with
  | SetId (Some v) =>
      Some {| id := v; title := title r; salary := salary r;
              equity := equity r; company_handle := company_handle r |}
  | SetTitle (Some v) =>
      Some {| id := id r; title := v; salary := salary r;
              equity := equity r; company_handle := company_handle r |}
  | SetSalary v =>
      Some {| id := id r; title := title r; salary := v;
              equity := equity r; company_handle := company_handle r |}
  | SetEquity v =>
      Some {| id := id r; title := title r; salary := salary r;
              equity := v; company_handle := company_handle r |}
  | SetCompanyHandle (Some v) =>
      Some {| id := id r; title := title r; salary := salary r;
              equity := equity r; company_handle := v |}
  | SetId None | SetTitle None | SetCompanyHandle None => None
  end.

Fixpoint apply_changes (r : job_row) (chs : list change) : option job_row :=
  match chs with
  | [] => Some r
  | ch :: rest =>
      match apply_change r ch with
      | Some r' => apply_changes r' rest
      | None => None
      end
  end.

(* --------------------------------------------------------------- *)
(** *** Running a statement *)

Definition column_eqb (a b : column) : bool :=
  match a, b with
  | Cid, Cid | Ctitle, Ctitle | Csalary, Csalary
  | Cequity, Cequity | Ccompany_handle, Ccompany_handle => true
  | _, _ => false
  end.

Fixpoint distinct {A : Type} (eqb : A -> A -> bool) (l : list A) : bool :=
  match l with
  | [] => true
  | x :: rest => negb (existsb (eqb x) rest) && distinct eqb rest
  end.

Fixpoint all_some {A : Type} (l : list (option A)) : option (list A) :=
  match l with
  | [] => Some []
  | Some x :: rest => option_map (cons x) (all_some rest)
  | None :: _ => None
  end.

(** The parameter a placeholder [$n] stands for. *)
Definition param (params : list (option string)) (n : nat) : option string :=
  nth (pred n) params None.

(** The placeholders of a statement are [$1] to [$n] for the [n]
    parameters sent with it, each of them in use: the type of a
    parameter is taken from the place where it stands. *)
Definition params_fit (placeholders : list nat) (n : nat) : bool :=
  forallb (fun i => (1 <=? i)%nat) placeholders
  && Nat.eqb (list_max placeholders) n
  && forallb (fun i => existsb (Nat.eqb i) placeholders) (seq 1 n).

(** The kinds of type a parameter can take from its place: an integer
    ([id], [salary]), a decimal ([equity]), a text ([title],
    [company_handle]). *)
Inductive kind : Type :=
| KInteger
| KDecimal
| KText.

Definition kind_of (c : column) : kind :=
  match c with
  | Cid | Csalary => KInteger
  | Cequity => KDecimal
  | Ctitle | Ccompany_handle => KText
  end.

Definition kind_eqb (a b : kind) : bool :=
  match a, b with
  | KInteger, KInteger | KDecimal, KDecimal | KText, KText => true
  | _, _ => false
  end.

(** A placeholder that stands in several places.  [Some true]: no
    placeholder does, or only at integers, which are of one type.
    [Some false]: one stands at places of different kinds, which the
    store refuses.  [None]: one stands at two texts, whose types the
    sources do not give. *)
Fixpoint shared (uses : list (nat * kind)) : option bool :=
  match uses with
  | [] => Some true
  | (n, k) :: rest =>
      let same := filter (fun u => Nat.eqb (fst u) n) rest in
      if negb (forallb (fun u => kind_eqb (snd u) k) same) then Some false
      else
        match shared rest with
        | Some true =>
            match k, same with
            | KInteger, _ | _, [] => Some true
            | _, _ :: _ => None
            end
        | other => other
        end
  end.

Definition has_company (d : db) (h : string) : bool :=
  existsb (fun c => String.eqb (handle c) h) (companies d).

Definition with_content (d : db) (c : content) : db :=
  {| jobs := fst (fst c); companies := snd (fst c); next_id := snd c;
     issued := issued d; collation := collation d; physical := physical d;
     beyond := beyond d |}.

Definition with_jobs (d : db) (l : list job_row) : db :=
  {| jobs := l; companies := companies d; next_id := next_id d;
     issued := issued d; collation := collation d; physical := physical d;
     beyond := beyond d |}.

(** The store is left to itself with a statement that is none of those
    read here. *)
Definition consult (st : statement) (params : list (option string)) (d : db)
  : reply * db :=
  let (r, after) := beyond d st params (jobs d, companies d, next_id d) in
  (r, with_content d after).

Definition select_by_id (v : Z) (d : db) : list job_row :=
  filter (fun r => id r =? v) (jobs d).

Definition select_company (h : string) (d : db) : list company_row :=
  filter (fun c => String.eqb (handle c) h) (companies d).

(** What the store makes of the text and the parameters of an UPDATE
    before it touches a row: the assignments and the key; a refusal; or
    a text that is not read here. *)
Inductive plan : Type :=
| Planned (cols : list column) (changes : list change) (key : option Z)
| Refused
| Unreadable.

Definition plan_update (setCols idVarIdx : string)
           (params : list (option string)) : plan :=
  match read_set (S (String.length setCols)) setCols,
        read_placeholder idVarIdx with
  | Some sets, Some (n, "") =>
      match all_some (map (fun cn => column_of (fst cn)) sets) with
      | None => Refused
      | Some cols =>
          if negb (distinct column_eqb cols) then Refused
          else if negb (params_fit (map snd sets ++ [n]) (length params))
          then Refused
          else
            match shared (combine (map snd sets) (map kind_of cols)
                            ++ [(n, KInteger)]) with
            | None => Unreadable
            | Some false => Refused
            | Some true =>
            match all_some
                    (map (fun ci => read_change (fst ci) (param params (snd ci)))
                         (combine cols (map snd sets))),
                  read_integer (param params n) with
            | Some changes, Some key => Planned cols changes key
            | _, _ => Refused
            end
            end
      end
  | _, _ => Unreadable
  end.

Definition hit (key : option Z) (r : job_row) : bool :=
  match key with
  | Some v => id r =? v
  | None => false
  end.

(** The rows the key selects are changed; the primary key and the
    reference to [companies] are checked when their columns are set. *)
Definition exec_update (cols : list column) (changes : list change)
           (key : option Z) (d : db) : reply * db :=
  match all_some
          (map (fun r => if hit key r then apply_changes r changes else Some r)
               (jobs d)),
        all_some
          (map (fun r => apply_changes r changes) (filter (hit key) (jobs d)))
  with
  | Some table, Some updated =>
      let keys_ok :=
        negb (existsb (column_eqb Cid) cols)
        || distinct Z.eqb (map id table) in
      let refs_ok :=
        negb (existsb (column_eqb Ccompany_handle) cols)
        || forallb (fun r => has_company d (company_handle r)) updated in
      if keys_ok && refs_ok
      then (Rows (map job_obj updated), with_jobs d table)
      else (Fault, d)
  | _, _ => (Fault, d)
  end.

Definition run_update (setCols idVarIdx : string)
           (params : list (option string)) (d : db) : reply * db :=
  match plan_update setCols idVarIdx params with
  | Planned cols changes key => exec_update cols changes key d
  | Refused => (Fault, d)
  | Unreadable => consult (UpdateJob setCols idVarIdx) params d
  end.

(** The INSERT of [create].  Parameters that are not of their columns'
    types are refused before the statement runs.  Once it runs the next
    id is drawn from the sequence, and stays drawn when the row is then
    refused: for a missing title or company handle, a company that is
    not there, or an id that is taken. *)
Definition run_insert (params : list (option string)) (d : db) : reply * db :=
  match params with
  | [t; s; e; c] =>
      match read_integer s, read_numeric e with
      | Some s', Some e' =>
          let drawn := with_content d (jobs d, companies d, next_id d + 1) in
          match t, c with
          | Some t', Some c' =>
              let r := {| id := next_id d; title := t'; salary := s';
                          equity := e'; company_handle := c' |} in
              if has_company d c'
                 && forallb (fun x => negb (id x =? next_id d)) (jobs d)
              then (Rows [job_obj r],
                    with_content d ((jobs d ++ [r])%list, companies d, next_id d + 1))
              else (Fault, drawn)
          | _, _ => (Fault, drawn)
          end
      | _, _ => (Fault, d)
      end
  | _ => (Fault, d)
  end.

(** The SELECT of [findFiltered].  A clause of conjuncts is answered
    from the jobs; one that names [Infinity] is refused; any other text
    is left to the store. *)
Definition run_where (clause : string) (d : db) : reply * db :=
  match read_where clause with
  | Some cs =>
      if negb (forallb cond_known cs) then (Fault, d)
      else if forallb cond_ok cs
      then (Rows (map job_obj
                    (order_by_title d (filter (all_hold cs) (jobs d)))), d)
      else consult (SelectJobsWhere clause) [] d
  | None => consult (SelectJobsWhere clause) [] d
  end.

Definition run (st : statement) (params : list (option string)) (d : db)
  : reply * db :=
  match st, params with
  | InsertJob, _ => run_insert params d
  | SelectJobs, [] => (Rows (map job_obj (order_by_title d (jobs d))), d)
  | SelectJobsWhere clause, [] => run_where clause d
  | SelectJobById, [p] =>
      match read_integer p with
      | Some (Some v) => (Rows (map job_obj (select_by_id v d)), d)
      | Some None => (Rows [], d)
      | None => (Fault, d)
      end
  | SelectCompanyByHandle, [p] =>
      match p with
      | Some h =>
          (Rows (map company_obj (select_company h d)), d)
      | None => (Rows [], d)
      end
  | UpdateJob setCols idVarIdx, _ => run_update setCols idVarIdx params d
  | DeleteJob, [p] =>
      match read_integer p with
      | Some (Some v) =>
          (Rows (map (fun r => [("id", VNum (int (id r)))]) (select_by_id v d)),
           with_jobs d (filter (fun r => negb (id r =? v)) (jobs d)))
      | Some None => (Rows [], d)
      | None => (Fault, d)
      end
  | _, _ => (Fault, d)
  end.

Definition record_query (st : statement) (args : list jsval) (d : db) : db :=
  {| jobs := jobs d; companies := companies d; next_id := next_id d;
     issued := issued d ++ [(st, args)]; collation := collation d;
     physical := physical d; beyond := beyond d |}.

End Pg.

(* ================================================================= *)
(** ** expressError.js, and the way a call ends *)

Module Express.
Import JS.

(** The two error classes of [expressError.js] the accessor throws, the
    [TypeError] of the language, and an error the store reports. *)
Inductive error : Type :=
| BadRequestError (message : string)
| NotFoundError (message : string)
| TypeError
| DbError.

(** How a call ends: it returns, it throws, or it ends in a way the model
    gives no shape to. *)
Inductive outcome (A : Type) : Type :=
| Return (a : A)
| Throw (e : error)
| Unknown.

Arguments Return {A} a.
Arguments Throw {A} e.
Arguments Unknown {A}.

(** [l.map(f)] for a callback that may throw: left to right, the first
    throw ends the call. *)
Fixpoint map_throw {A B : Type} (f : A -> outcome B) (l : list A)
  : outcome (list B) :=
  match l with
  | [] => Return []
  | x :: rest =>
      match f x with
      | Return y =>
          match map_throw f rest with
          | Return ys => Return (y :: ys)
          | Throw e => Throw e
          | Unknown => Unknown
          end
      | Throw e => Throw e
      | Unknown => Unknown
      end
  end.

(** An [async] method: a computation over the state of the store. *)
Definition M (A : Type) : Type := Pg.db -> outcome A * Pg.db.

Definition ret {A : Type} (a : A) : M A := fun d => (Return a, d).

Definition throw {A : Type} (e : error) : M A := fun d => (Throw e, d).

Definition bind {A B : Type} (m : M A) (k : A -> M B) : M B :=
  fun d =>
    match m d with
    | (Return a, d') => k a d'
    | (Throw e, d') => (Throw e, d')
    | (Unknown, d') => (Unknown, d')
    end.

Definition lift {A : Type} (o : outcome A) : M A := fun d => (o, d).

(** [await db.query(statement, args)]: the statement is issued, and an
    error of the store is thrown on.  The value is the [rows] member of
    the result, [None] when the result has none. *)
Definition query_result (st : Pg.statement) (args : list jsval)
  : M (option (list obj)) :=
  fun d =>
    let issued := Pg.record_query st args d in
    match Pg.run st (map Pg.prepareValue args) issued with
    | (Pg.Rows rows, d') => (Return (Some rows), d')
    | (Pg.NoRows, d') => (Return None, d')
    | (Pg.Fault, d') => (Throw DbError, d')
    | (Pg.Beyond, d') => (Unknown, d')
    end.

(** [result.rows[0]] and the like: reading into a [rows] member that is
    not there is a TypeError. *)
Definition rows_of (result : option (list obj)) : outcome (list obj) :=
  match result with
  | Some rows => Return rows
  | None => Throw TypeError
  end.

(** A query whose rows are read with [result.rows[0]]. *)
Definition query (st : Pg.statement) (args : list jsval) : M (list obj) :=
  fun d =>
    match query_result st args d with
    | (Return result, d') => (rows_of result, d')
    | (Throw e, d') => (Throw e, d')
    | (Unknown, d') => (Unknown, d')
    end.

End Express.

Notation "x <- m ;; k" := (Express.bind m (fun x => k))
  (at level 61, m at next level, right associativity).

(* ================================================================= *)
(** ** helpers/sql.js *)

Module Sql.
Import JS Express.

Record update_sql : Type := { setCols : string; values : list jsval }.

Definition quote : string := String Pg.dquote "".

Definition sqlForPartialUpdate (dataToUpdate jsToSql : obj)
  : outcome update_sql :=
  let keys := Object_keys dataToUpdate in
  if Nat.eqb (List.length keys) 0 then Throw (BadRequestError "No data")
  else
    let cols :=
      map_idx
        (fun colName idx =>
           quote ++ or_key jsToSql colName ++ quote ++ "=$"
           ++ Text.decimal (Z.of_nat idx + 1))
        0 keys in
    Return {| setCols := Text.join ", " cols;
              values := Object_values dataToUpdate |}.

End Sql.

(* ================================================================= *)
(** ** models/job.js *)

Module Job.
Import JS Express.

Definition create (data : obj) : M (option obj) :=
  result <- query Pg.InsertJob
              [prop data "title"; prop data "salary";
               prop data "equity"; prop data "companyHandle"] ;;
  ret (hd_error result).

(** [return jobsRes.rows]: without the member the value would be
    [undefined], which is no list. *)
Definition findAll : M (list obj) :=
  jobsRes <- query_result Pg.SelectJobs [] ;;
  match jobsRes with
  | Some rows => ret rows
  | None => lift Unknown
  end.

(** The body of [case 'title'], which [case 'hasEquity'] runs into. *)
Definition case_title (filterBy : obj) (condition : string) : outcome string :=
  match prop filterBy condition with
  | VStr s => Return ("LOWER(title) LIKE '%" ++ Text.toLowerCase s ++ "%'")
  | _ => Throw TypeError
  end.

(** The callback of [keys.map] in [findFiltered]. *)
Definition where_of (filterBy : obj) (condition : string) : outcome string :=
  if String.eqb condition "minSalary" then
    let minSalary := Number (prop filterBy condition) in
    if isNaN minSalary
    then Throw (BadRequestError "minSalary must be a number.")
    else Return ("salary >= " ++ NumberToString minSalary)
  else if String.eqb condition "hasEquity" then
    let hasEquity := prop filterBy condition in
    match hasEquity with
    | VBool true => Return "equity > 0"
    | _ => case_title filterBy condition
    end
  else if String.eqb condition "title" then case_title filterBy condition
  else Throw (BadRequestError ("Invalid filter key: " ++ condition)).

Definition filtering_error : string :=
  "Filtering error, please double check that all filters are populated.".

Definition findFiltered (filterBy : obj) : M (list obj) :=
  let keys := Object_keys filterBy in
  if Nat.eqb (List.length keys) 0
  then throw (BadRequestError "No data to filter by")
  else
    whereQuery <- lift (map_throw (where_of filterBy) keys) ;;
    let whereClause := Text.join " AND " whereQuery in
    jobsRes <- query_result (Pg.SelectJobsWhere whereClause) [] ;;
    if negb (truthy_rows jobsRes)
    then throw (BadRequestError filtering_error)
    else
      match jobsRes with
      | Some rows => ret rows
      | None => lift Unknown
      end.

Definition get (id : jsval) : M record :=
  jobRes <- query Pg.SelectJobById [id] ;;
  match jobRes with
  | [] => throw (NotFoundError ("No job with id: " ++ ToString id))
  | job :: _ =>
      companiesRes <- query Pg.SelectCompanyByHandle [prop job "companyHandle"] ;;
      let job1 := delete (of_obj job) "companyHandle" in
      let company :=
        match companiesRes with
        | [] => Prim VUndefined
        | c :: _ => Object c
        end in
      ret (assign job1 "company" company)
  end.

Definition update (id : jsval) (data : obj) : M obj :=
  sql <- lift (Sql.sqlForPartialUpdate data []) ;;
  let idVarIdx :=
    "$" ++ Text.decimal (Z.of_nat (List.length (Sql.values sql)) + 1) in
  result <- query (Pg.UpdateJob (Sql.setCols sql) idVarIdx)
              (Sql.values sql ++ [id]) ;;
  match result with
  | [] => throw (NotFoundError ("No job with id: " ++ ToString id))
  | job :: _ => ret job
  end.

Definition remove (id : jsval) : M unit :=
  result <- query Pg.DeleteJob [id] ;;
  match result with
  | [] => throw (NotFoundError ("No job with id: " ++ ToString id))
  | _ :: _ => ret tt
  end.

End Job.

(* ================================================================= *)
(** ** The words of the specification *)

Module Spec.
Import JS.

(** Section 4.1: the column of a field is its alias when the field is
    mapped, the field name otherwise. *)
Definition column (m : obj) (k : string) : string :=
  match own m k with
  | Some v => ToString v
  | None => k
  end.

(** The column the code writes when no inherited member answers for the
    field: the alias when it is truthy, the field name otherwise. *)
Definition column_or_name (m : obj) (k : string) : string :=
  match own m k with
  | Some v => if truthy v then ToString v else k
  | None => k
  end.

(** Section 4.1: one fragment ["<column>"=$i] per field, in order, [i]
    counting from [i0]. *)
Fixpoint fragments (col : string -> string) (i0 : Z) (d : obj)
  : list string :=
  match d with
  | [] => []
  | (k, _) :: rest =>
      (Sql.quote ++ col k ++ Sql.quote ++ "=$" ++ Text.decimal i0)
        :: fragments col (i0 + 1) rest
  end.

Definition set_clause (col : string -> string) (d : obj) : string :=
  Text.join ", " (fragments col 1 d).


(** The salary is at least the number [m * 10^e]. *)
Definition salary_at_least (m e : Z) (r : Pg.job_row) : bool :=
  match Pg.salary r with
  | Some s => m * 10 ^ Z.max e 0 <=? s * 10 ^ Z.max (- e) 0
  | None => false
  end.

Definition equity_positive (r : Pg.job_row) : bool :=
  match Pg.equity r with
  | Some q => 0 <? Pg.unscaled q
  | None => false
  end.

(** Section 3: what the store takes for the fields an update may name: a
    text for [title], an integer or null for [salary], a decimal or null
    for [equity]. *)
Definition accepts (k : string) (v : jsval) : bool :=
  if String.eqb k "title" then
    match Pg.prepareValue v with Some _ => true | None => false end
  else if String.eqb k "salary" then
    match Pg.read_integer (Pg.prepareValue v) with
    | Some _ => true
    | None => false
    end
  else if String.eqb k "equity" then
    match Pg.read_numeric (Pg.prepareValue v) with
    | Some _ => true
    | None => false
    end
  else false.

(** Update data over title, salary and equity: each field at most once,
    each with a value the store takes. *)
Definition update_data (data : obj) : bool :=
  Pg.distinct String.eqb (Object_keys data)
  && forallb (fun kv => accepts (fst kv) (snd kv)) data.

Definition stored_title (v : jsval) (old : string) : string :=
  match Pg.prepareValue v with
  | Some s => s
  | None => old
  end.

Definition stored_salary (v : jsval) : option Z :=
  match Pg.read_integer (Pg.prepareValue v) with
  | Some z => z
  | None => None
  end.

Definition stored_equity (v : jsval) : option Pg.numeric :=
  match Pg.read_numeric (Pg.prepareValue v) with
  | Some q => q
  | None => None
  end.

(** Glossary, partial update: the supplied fields take their new values,
    every other field keeps its own. *)
Definition patched (data : obj) (r : Pg.job_row) : Pg.job_row :=
  {| Pg.id := Pg.id r;
     Pg.title :=
       match own data "title" with
       | Some v => stored_title v (Pg.title r)
       | None => Pg.title r
       end;
     Pg.salary :=
       match own data "salary" with
       | Some v => stored_salary v
       | None => Pg.salary r
       end;
     Pg.equity :=
       match own data "equity" with
       | Some v => stored_equity v
       | None => Pg.equity r
       end;
     Pg.company_handle := Pg.company_handle r |}.

(** Section 8: what [get] returns for a job [j] owned by the company
    [c]. *)
Definition job_with_company (j : Pg.job_row) (c : Pg.company_row) : record :=
  [ ("id", Prim (VNum (int (Pg.id j))));
    ("title", Prim (VStr (Pg.title j)));
    ("salary", Prim (Pg.of_integer (Pg.salary j)));
    ("equity", Prim (Pg.of_numeric (Pg.equity j)));
    ("company",
     Object
       [ ("handle", VStr (Pg.handle c));
         ("name", VStr (Pg.name c));
         ("description", VStr (Pg.description c));
         ("numEmployees", Pg.of_integer (Pg.num_employees c));
         ("logoUrl", Pg.of_text (Pg.logo_url c)) ]) ].

(** Section 4.2, [update]: the statement built over the supplied fields,
    the id bound after their values. *)
Definition set_clause_of (data : obj) : string :=
  set_clause (or_key []) data.

Definition update_statement (data : obj) : Pg.statement :=
  Pg.UpdateJob (set_clause_of data)
               ("$" ++ Text.decimal (Z.of_nat (List.length data) + 1)).

Definition update_args (id : jsval) (data : obj) : list jsval :=
  (Object_values data ++ [id])%list.

(** Ascending order of title, in the collation of the store. *)
Definition title_le (d : Pg.db) (a b : Pg.job_row) : Prop :=
  String.leb (Pg.collation d (Pg.title a)) (Pg.collation d (Pg.title b))
  = true.

(** The WHERE clause is left to the store: it is not a conjunction of
    the conjuncts read here, or has a LIKE pattern that ends within an
    escape. *)
Definition unread (clause : string) : bool :=
  match Pg.read_where clause with
  | Some cs => forallb Pg.cond_known cs && negb (forallb Pg.cond_ok cs)
  | None => true
  end.

(** The state in which the SELECT of a filtered search runs. *)
Definition asked (clause : string) (d : Pg.db) : Pg.db :=
  Pg.record_query (Pg.SelectJobsWhere clause) [] d.

(** The row [a] may stand before the row [b] in what the store of state
    [d] hands over. *)
Definition precedes (d : Pg.db) (a b : Pg.job_row) : Prop :=
  Pg.before d a b = true.

(** [m' * 10^e'] and [m * 10^e] are the same number. *)
Definition same_number (m' e' m e : Z) : Prop :=
  m' * 10 ^ Z.max e' 0 * 10 ^ Z.max (- e) 0
  = m * 10 ^ Z.max e 0 * 10 ^ Z.max (- e') 0.

(** The store reads [id] as the integer [v]. *)
Definition denotes (id : jsval) (v : Z) : Prop :=
  Pg.read_integer (Pg.prepareValue id) = Some (Some v).

(** The tables of two states are the same. *)
Definition same_tables (a b : Pg.db) : Prop :=
  Pg.jobs a = Pg.jobs b
  /\ Pg.companies a = Pg.companies b
  /\ Pg.next_id a = Pg.next_id b.

End Spec.

(* ================================================================= *)
(** ** The fixture of models/job.test.js *)

Module Fixture.
Import JS.

Definition c1 : Pg.company_row :=
  {| Pg.handle := "c1"; Pg.name := "C1"; Pg.description := "Desc1";
     Pg.num_employees := Some 1; Pg.logo_url := Some "http://c1.img" |}.

Definition c2 : Pg.company_row :=
  {| Pg.handle := "c2"; Pg.name := "C2"; Pg.description := "Desc2";
     Pg.num_employees := Some 2; Pg.logo_url := Some "http://c2.img" |}.

Definition job1 : Pg.job_row :=
  {| Pg.id := 1; Pg.title := "job1"; Pg.salary := Some 100;
     Pg.equity := Some {| Pg.unscaled := 1; Pg.scale := 1 |};
     Pg.company_handle := "c1" |}.

Definition job2 : Pg.job_row :=
  {| Pg.id := 2; Pg.title := "job2"; Pg.salary := Some 300;
     Pg.equity := Some {| Pg.unscaled := 0; Pg.scale := 0 |};
     Pg.company_handle := "c2" |}.

(** The tables of the test, in a store that orders texts character by
    character, hands rows of one title over by id and refuses what it
    does not read. *)
Definition store : Pg.db :=
  {| Pg.jobs := [job1; job2]; Pg.companies := [c1; c2];
     Pg.next_id := 3; Pg.issued := [];
     Pg.collation := fun text => text;
     Pg.physical := fun _ r => Pg.id r;
     Pg.beyond := fun _ _ c => (Pg.Fault, c) |}.

(** The same tables in a store that runs every statement of a text it
    is left with: the text is taken to go on with a DELETE of all jobs,
    and the reply to several statements has no [rows] member. *)
Definition injectable : Pg.db :=
  {| Pg.jobs := [job1; job2]; Pg.companies := [c1; c2];
     Pg.next_id := 3; Pg.issued := [];
     Pg.collation := fun text => text;
     Pg.physical := fun _ r => Pg.id r;
     Pg.beyond := fun _ _ c => (Pg.NoRows, ([], snd (fst c), snd c)) |}.

Definition zoo : Pg.job_row :=
  {| Pg.id := 3; Pg.title := "Zoo keeper"; Pg.salary := None;
     Pg.equity := None; Pg.company_handle := "c1" |}.

(** Three jobs in a store whose collation ignores case. *)
Definition folding : Pg.db :=
  {| Pg.jobs := [zoo; job2; job1]; Pg.companies := [c1; c2];
     Pg.next_id := 4; Pg.issued := [];
     Pg.collation := Text.toLowerCase;
     Pg.physical := fun _ r => Pg.id r;
     Pg.beyond := fun _ _ c => (Pg.Fault, c) |}.

Definition job1_again : Pg.job_row :=
  {| Pg.id := 3; Pg.title := "job1"; Pg.salary := None;
     Pg.equity := None; Pg.company_handle := "c2" |}.

(** Two jobs of one title in a store that hands them over by id after
    an even number of statements and against it after an odd one. *)
Definition shifting : Pg.db :=
  {| Pg.jobs := [job1; job1_again]; Pg.companies := [c1; c2];
     Pg.next_id := 4; Pg.issued := [];
     Pg.collation := fun text => text;
     Pg.physical :=
       fun issued r =>
         if Nat.even (List.length issued) then Pg.id r else - Pg.id r;
     Pg.beyond := fun _ _ c => (Pg.Fault, c) |}.

End Fixture.

(* ================================================================= *)
(** ** Notions for the properties of the accessor as a whole *)

Module Laws.
Import JS.

(** [s] occurs in [t]. *)
Fixpoint contains (s t : string) : bool :=
  match Text.strip_prefix s t with
  | Some _ => true
  | None =>
      match t with
      | "" => false
      | String _ t' => contains s t'
      end
  end.

(** A character that stands for itself in a quoted LIKE pattern: not the
    quote, not a wildcard, not the escape. *)
Definition plain_char (c : ascii) : bool :=
  negb (Ascii.eqb c "'" || Ascii.eqb c "%" || Ascii.eqb c "_"
        || Ascii.eqb c "\").

Fixpoint plain (s : string) : bool :=
  match s with
  | "" => true
  | String c r => plain_char c && plain r
  end.

(** A text that stays inside the quotes of a LIKE pattern: it holds
    neither the quote nor the escape. *)
Definition quotable (s : string) : bool :=
  negb (Pg.mentions "'" s) && negb (Pg.mentions "\" s).

(** The value brings no text that leaves its quotes. *)
Definition stays_quoted (v : jsval) : bool :=
  match v with
  | VStr text => quotable text
  | _ => true
  end.

(** No text under title or hasEquity leaves its quotes. *)
Definition all_quoted (filterBy : obj) : bool :=
  forallb (fun k => String.eqb k "minSalary" || stays_quoted (prop filterBy k))
          (Object_keys filterBy).

(** The title has the text in it, upper and lower case alike. *)
Definition title_contains (text : string) (r : Pg.job_row) : bool :=
  contains (Text.toLowerCase text) (Text.toLowerCase (Pg.title r)).

(** A filter value the code and the store both take: a finite number for
    minSalary, [true] for hasEquity, a plain text for title. *)
Definition filter_value (k : string) (v : jsval) : bool :=
  if String.eqb k "minSalary" then
    match Number v with Fin _ _ => true | _ => false end
  else if String.eqb k "hasEquity" then
    match v with VBool true => true | _ => false end
  else if String.eqb k "title" then
    match v with VStr text => plain text | _ => false end
  else false.

Definition filter_data (filterBy : obj) : bool :=
  negb (Nat.eqb (List.length filterBy) 0)
  && forallb (fun k => filter_value k (prop filterBy k)) (Object_keys filterBy).

(** What a key of such a filter asks of a job. *)
Definition asks (filterBy : obj) (k : string) (r : Pg.job_row) : bool :=
  if String.eqb k "minSalary" then
    match Number (prop filterBy k) with
    | Fin m e => Spec.salary_at_least m e r
    | _ => false
    end
  else if String.eqb k "hasEquity" then Spec.equity_positive r
  else
    match prop filterBy k with
    | VStr text => title_contains text r
    | _ => false
    end.

(** The job meets every key of the filter. *)
Definition meets (filterBy : obj) (r : Pg.job_row) : bool :=
  forallb (fun k => asks filterBy k r) (Object_keys filterBy).

(** What may follow a conjunct in a WHERE clause: nothing, or a space. *)
Definition after_conjunct (rest : string) : bool :=
  match rest with
  | "" => true
  | String c _ => Ascii.eqb c " "
  end.

(** No double quote in the text. *)
Definition no_dquote (s : string) : bool := negb (Pg.mentions Pg.dquote s).

(** The columns with the placeholders [$i], [$i+1], ... *)
Fixpoint numbered (i : nat) (cols : list string) : list (string * nat) :=
  match cols with
  | [] => []
  | c :: rest => (c, i) :: numbered (S i) rest
  end.

(** The column the SET clause names for a key of [update]. *)
Definition column_text (k : string) : string := or_key [] k.

(** No job has the id the sequence gives out next. *)
Definition fresh (d : Pg.db) : bool :=
  forallb (fun r => negb (Pg.id r =? Pg.next_id d)) (Pg.jobs d).

(** Data [create] stores as the row [r] under the id [n]. *)
Definition created (data : obj) (n : Z) (r : Pg.job_row) : Prop :=
  Pg.prepareValue (prop data "title") = Some (Pg.title r)
  /\ Pg.read_integer (Pg.prepareValue (prop data "salary"))
     = Some (Pg.salary r)
  /\ Pg.read_numeric (Pg.prepareValue (prop data "equity"))
     = Some (Pg.equity r)
  /\ Pg.prepareValue (prop data "companyHandle") = Some (Pg.company_handle r)
  /\ Pg.id r = n.

(** The statements that read and whose text is fixed. *)
Definition selects (st : Pg.statement) : bool :=
  match st with
  | Pg.SelectJobs | Pg.SelectJobById | Pg.SelectCompanyByHandle => true
  | _ => false
  end.

(** The call came back with a value. *)
Definition returned {A : Type} (o : Express.outcome A) : bool :=
  match o with
  | Express.Return _ => true
  | _ => false
  end.

(** The arguments [create] sends with its INSERT. *)
Definition create_args (data : obj) : list jsval :=
  [prop data "title"; prop data "salary";
   prop data "equity"; prop data "companyHandle"].

(** The conjunct [findFiltered] writes for a text. *)
Definition title_clause (text : string) : string :=
  "LOWER(title) LIKE '%" ++ Text.toLowerCase text ++ "%'".

(** No two of the rows share a title. *)
Definition titles_differ (l : list Pg.job_row) : bool :=
  Pg.distinct String.eqb (map Pg.title l).

(** The store with the row [r] added and the next id given out. *)
Definition inserted (d : Pg.db) (r : Pg.job_row) : Pg.db :=
  Pg.with_content d ((Pg.jobs d ++ [r])%list, Pg.companies d, Pg.next_id d + 1).

(** The store after an INSERT that ran and was refused: the id is
    drawn, no row is added. *)
Definition drawn (d : Pg.db) : Pg.db :=
  Pg.with_content d (Pg.jobs d, Pg.companies d, Pg.next_id d + 1).

(** The jobs and the companies of two states are the same. *)
Definition same_rows (a b : Pg.db) : Prop :=
  Pg.jobs a = Pg.jobs b /\ Pg.companies a = Pg.companies b.

(** A store in order: no two jobs share an id, every id has been given
    out by the sequence, and every job's company is there. *)
Definition sound (d : Pg.db) : bool :=
  Pg.distinct Z.eqb (map Pg.id (Pg.jobs d))
  && forallb (fun r => Pg.id r <? Pg.next_id d) (Pg.jobs d)
  && forallb (fun r => Pg.has_company d (Pg.company_handle r)) (Pg.jobs d).

(** The row [r] moved to the company [h]. *)
Definition moved (h : string) (r : Pg.job_row) : Pg.job_row :=
  {| Pg.id := Pg.id r; Pg.title := Pg.title r; Pg.salary := Pg.salary r;
     Pg.equity := Pg.equity r; Pg.company_handle := h |}.

(** A value the key cannot search with: for title anything but a text,
    for hasEquity anything but a text and [true]. *)
Definition unsearchable (k : string) (v : jsval) : bool :=
  match v with
  | VStr _ => false
  | VBool true => negb (String.eqb k "hasEquity")
  | _ => true
  end.

End Laws.

(* ================================================================= *)
(** * Properties *)

Import JS Express.

(* ----------------------------------------------------------------- *)
(** ** Decimal text *)

Lemma value_from_of_uint_acc (u : uint) (acc : positive) :
  Text.value_from (Z.pos acc) (NilEmpty.string_of_uint u)
  = Z.pos (Pos.of_uint_acc u acc).
Proof.
  revert acc. induction u; intros acc; cbn [NilEmpty.string_of_uint
    Text.value_from Pos.of_uint_acc]; try reflexivity;
    rewrite <- IHu; f_equal;
    match goal with
    | |- context [Text.digit_value ?c] =>
        let v := eval vm_compute in (Text.digit_value c) in
        change (Text.digit_value c) with v
    end; lia.
Qed.

Lemma value_of_uint (u : uint) :
  Text.value (NilEmpty.string_of_uint u) = Z.of_uint u.
Proof.
  unfold Text.value, Z.of_uint.
  induction u; cbn [NilEmpty.string_of_uint Text.value_from Pos.of_uint];
    try reflexivity; try exact IHu;
    match goal with
    | |- context [10 * 0 + Text.digit_value ?c] =>
        let v := eval vm_compute in (10 * 0 + Text.digit_value c) in
        change (10 * 0 + Text.digit_value c) with v
    end;
    now rewrite value_from_of_uint_acc.
Qed.

Lemma all_digits_of_uint (u : uint) :
  Text.all_digits (NilEmpty.string_of_uint u) = true.
Proof. induction u; cbn; auto. Qed.

(** The decimal text of a natural number: digits, at least one, that
    write it. *)
Lemma decimal_digits (z : Z) :
  0 <= z ->
  Text.all_digits (Text.decimal z) = true
  /\ Text.value (Text.decimal z) = z
  /\ Text.is_empty (Text.decimal z) = false.
Proof.
  intros Hz. destruct z as [|p|p]; [| |lia].
  - repeat split.
  - pose proof (DecimalPos.Unsigned.to_uint_nonnil p) as Hnil.
    assert (E : Text.decimal (Z.pos p)
                = NilEmpty.string_of_uint (Pos.to_uint p)).
    { unfold Text.decimal. cbn [Z.to_int NilZero.string_of_int].
      unfold NilZero.string_of_uint.
      destruct (Pos.to_uint p); [contradiction|reflexivity..]. }
    rewrite E. split; [apply all_digits_of_uint|]. split.
    + rewrite value_of_uint. unfold Z.of_uint.
      now rewrite DecimalPos.Unsigned.of_to.
    + destruct (Pos.to_uint p); [contradiction|reflexivity..].
Qed.

Lemma decimal_negative (p : positive) :
  Text.decimal (Z.neg p) = String "-" (Text.decimal (Z.pos p)).
Proof. reflexivity. Qed.

Lemma take_digits_stop (s r : string) :
  Text.all_digits s = true -> Text.stops r = true ->
  Text.take_digits (s ++ r) = (s, r).
Proof.
  intros Hs Hr. induction s as [|c s IH]; cbn [append].
  - destruct r as [|c r]; [reflexivity|].
    cbn [Text.stops] in Hr. apply negb_true_iff in Hr.
    cbn [Text.take_digits]. now rewrite Hr.
  - cbn [Text.all_digits] in Hs. apply andb_true_iff in Hs.
    destruct Hs as [Hc Hs]. cbn [Text.take_digits].
    now rewrite Hc, (IH Hs).
Qed.

Lemma take_digits_all (s : string) :
  Text.all_digits s = true -> Text.take_digits s = (s, "").
Proof.
  intros Hs. rewrite <- (take_digits_stop s "" Hs eq_refl).
  f_equal. induction s as [|c s IH]; cbn [append]; [reflexivity|].
  cbn [Text.all_digits] in Hs. apply andb_true_iff in Hs.
  now rewrite <- IH.
Qed.

Lemma append_empty (s : string) : s ++ "" = s.
Proof. induction s as [|c s IH]; cbn [append]; [reflexivity|now rewrite IH]. Qed.

Lemma append_assoc (a b c : string) : (a ++ b) ++ c = a ++ b ++ c.
Proof. induction a as [|x a IH]; cbn [append]; [reflexivity|now rewrite IH]. Qed.

Lemma length_append (a b : string) :
  String.length (a ++ b) = (String.length a + String.length b)%nat.
Proof. induction a as [|x a IH]; cbn [append String.length]; [reflexivity|now rewrite IH]. Qed.

Lemma value_from_shift (acc : Z) (s : string) :
  Text.value_from acc s
  = acc * 10 ^ Z.of_nat (String.length s) + Text.value s.
Proof.
  unfold Text.value. revert acc.
  induction s as [|c s IH]; intros acc; cbn [Text.value_from String.length].
  - cbn. lia.
  - rewrite (IH (10 * acc + Text.digit_value c)).
    rewrite (IH (10 * 0 + Text.digit_value c)).
    rewrite Nat2Z.inj_succ, Z.pow_succ_r by lia. ring.
Qed.

Lemma value_from_append (acc : Z) (a b : string) :
  Text.value_from acc (a ++ b) = Text.value_from (Text.value_from acc a) b.
Proof.
  revert acc. induction a as [|c a IH]; intros acc; cbn [append Text.value_from];
    [reflexivity|apply IH].
Qed.

Lemma value_append (a b : string) :
  Text.value (a ++ b)
  = Text.value a * 10 ^ Z.of_nat (String.length b) + Text.value b.
Proof.
  unfold Text.value at 1. rewrite value_from_append.
  now rewrite value_from_shift.
Qed.

Lemma value_zeros (n : nat) : Text.value (Text.zeros n) = 0.
Proof.
  unfold Text.value. induction n as [|n IH]; cbn [Text.zeros Text.value_from];
    [reflexivity|exact IH].
Qed.

Lemma length_zeros (n : nat) : String.length (Text.zeros n) = n.
Proof. induction n as [|n IH]; cbn [Text.zeros String.length]; auto. Qed.

Lemma all_digits_zeros (n : nat) : Text.all_digits (Text.zeros n) = true.
Proof. induction n as [|n IH]; cbn [Text.zeros Text.all_digits]; auto. Qed.

Lemma all_digits_append (a b : string) :
  Text.all_digits (a ++ b) = Text.all_digits a && Text.all_digits b.
Proof.
  induction a as [|c a IH]; cbn [append Text.all_digits]; [reflexivity|].
  now rewrite IH, andb_assoc.
Qed.

Lemma take_drop (n : nat) (s : string) : Text.take n s ++ Text.drop n s = s.
Proof.
  revert s. induction n as [|n IH]; intros [|c s]; cbn [Text.take Text.drop append];
    try reflexivity. now rewrite IH.
Qed.

Lemma length_take (n : nat) (s : string) :
  (n <= String.length s)%nat -> String.length (Text.take n s) = n.
Proof.
  revert s. induction n as [|n IH]; intros [|c s]; cbn [Text.take String.length];
    intros H; try reflexivity; try lia.
  rewrite IH; lia.
Qed.

Lemma length_drop (n : nat) (s : string) :
  String.length (Text.drop n s) = (String.length s - n)%nat.
Proof.
  revert s. induction n as [|n IH]; intros [|c s]; cbn [Text.drop String.length];
    try reflexivity; try lia. apply IH.
Qed.

Lemma all_digits_take_drop (n : nat) (s : string) :
  Text.all_digits s = true ->
  Text.all_digits (Text.take n s) = true
  /\ Text.all_digits (Text.drop n s) = true.
Proof.
  intros H. rewrite <- (take_drop n s), all_digits_append in H.
  now apply andb_true_iff in H.
Qed.

Lemma rstrip0_length (s : string) :
  (String.length (Text.rstrip0 s) <= String.length s)%nat.
Proof.
  induction s as [|c s IH]; simpl; [lia|].
  destruct (Ascii.eqb c "0" && String.eqb (Text.rstrip0 s) ""); simpl; lia.
Qed.

Lemma rstrip0_zeros (s : string) :
  Text.rstrip0 s
  ++ Text.zeros (String.length s - String.length (Text.rstrip0 s))
  = s.
Proof.
  induction s as [|c s IH]; simpl; [reflexivity|].
  destruct (Ascii.eqb_spec c "0") as [->|Hc];
    destruct (String.eqb_spec (Text.rstrip0 s) "") as [E|E]; simpl.
  - rewrite E in IH. simpl in IH. rewrite Nat.sub_0_r in IH.
    now rewrite IH.
  - now rewrite IH.
  - now rewrite IH.
  - now rewrite IH.
Qed.

Lemma all_digits_rstrip0 (s : string) :
  Text.all_digits s = true -> Text.all_digits (Text.rstrip0 s) = true.
Proof.
  intros H. rewrite <- (rstrip0_zeros s), all_digits_append in H.
  now apply andb_true_iff in H.
Qed.

(** What is left of the digits of a number without its trailing zeros
    writes the number up to a power of ten. *)
Lemma rstrip0_value (s : string) :
  Text.value s
  = Text.value (Text.rstrip0 s)
    * 10 ^ Z.of_nat (String.length s - String.length (Text.rstrip0 s)).
Proof.
  rewrite <- (rstrip0_zeros s) at 1.
  rewrite value_append, value_zeros, length_zeros. lia.
Qed.

Lemma scan_exponent_text (x : Z) :
  Text.scan_exponent
    ("e" ++ (if x <? 0 then "-" else "+") ++ Text.decimal (Z.abs x))
  = (x, "").
Proof.
  destruct (decimal_digits (Z.abs x)) as (Hd & Hv & Hne); [lia|].
  unfold Text.scan_exponent.
  destruct (x <? 0) eqn:Hx; cbn [append Ascii.eqb Bool.eqb orb];
    rewrite (take_digits_all _ Hd), Hne, Hv.
  - apply Z.ltb_lt in Hx. f_equal. lia.
  - apply Z.ltb_ge in Hx. f_equal. lia.
Qed.

Lemma exponent_text_stops (x : Z) :
  Text.stops ("e" ++ (if x <? 0 then "-" else "+") ++ Text.decimal (Z.abs x))
  = true.
Proof. reflexivity. Qed.

Lemma is_empty_append (a b : string) :
  Text.is_empty a = false -> Text.is_empty (a ++ b) = false.
Proof. now destruct a. Qed.

(** Digits, a point, digits, and an exponent or nothing. *)
Lemma scan_decimal_point (ip fp tail : string) (x : Z) :
  Text.all_digits ip = true -> Text.all_digits fp = true ->
  Text.is_empty ip = false ->
  Text.stops tail = true -> Text.scan_exponent tail = (x, "") ->
  Text.scan_decimal (ip ++ "." ++ fp ++ tail)
  = Some (Text.value (ip ++ fp), x - Z.of_nat (String.length fp), "").
Proof.
  intros Hip Hfp Hne Hstop Hexp. unfold Text.scan_decimal.
  rewrite (take_digits_stop ip ("." ++ fp ++ tail) Hip eq_refl).
  cbn [append]. rewrite (take_digits_stop fp tail Hfp Hstop).
  rewrite Hne. cbn [andb]. now rewrite Hexp.
Qed.

(** Digits and an exponent. *)
Lemma scan_decimal_exponent (ip rest : string) (x : Z) :
  Text.all_digits ip = true -> Text.is_empty ip = false ->
  Text.scan_exponent (String "e" rest) = (x, "") ->
  Text.scan_decimal (ip ++ String "e" rest) = Some (Text.value ip, x, "").
Proof.
  intros Hip Hne Hexp. unfold Text.scan_decimal.
  rewrite (take_digits_stop ip (String "e" rest) Hip eq_refl).
  cbv iota beta. rewrite Hne. cbn [andb]. rewrite Hexp.
  rewrite append_empty. cbn [String.length]. do 3 f_equal. lia.
Qed.

(** Digits alone. *)
Lemma scan_decimal_digits (ip : string) :
  Text.all_digits ip = true -> Text.is_empty ip = false ->
  Text.scan_decimal ip = Some (Text.value ip, 0, "").
Proof.
  intros Hip Hne. unfold Text.scan_decimal.
  rewrite (take_digits_all ip Hip). cbv iota beta. rewrite Hne.
  cbn [andb Text.scan_exponent]. now rewrite append_empty.
Qed.

Lemma minus_sign_digit (c : ascii) (r : string) :
  Text.is_digit c = true ->
  Text.minus_sign (String c r) = (1, String c r).
Proof.
  destruct c as [[|] [|] [|] [|] [|] [|] [|] [|]]; intros H;
    try discriminate H; reflexivity.
Qed.

(* ----------------------------------------------------------------- *)
(** ** The text of a number, read back *)

Lemma same_number_le (m' e' m e s : Z) :
  Spec.same_number m' e' m e ->
  Pg.decimal_le m' e' s = Pg.decimal_le m e s.
Proof.
  unfold Spec.same_number, Pg.decimal_le. intros H.
  assert (P1 : 0 < 10 ^ Z.max e' 0) by (apply Z.pow_pos_nonneg; lia).
  assert (P2 : 0 < 10 ^ Z.max (- e') 0) by (apply Z.pow_pos_nonneg; lia).
  assert (P3 : 0 < 10 ^ Z.max e 0) by (apply Z.pow_pos_nonneg; lia).
  assert (P4 : 0 < 10 ^ Z.max (- e) 0) by (apply Z.pow_pos_nonneg; lia).
  apply eq_true_iff_eq. rewrite !Z.leb_le. split; intros L.
  - apply (Z.mul_le_mono_pos_r _ _ (10 ^ Z.max (- e') 0) P2).
    rewrite <- H.
    apply (Z.mul_le_mono_pos_r _ _ (10 ^ Z.max (- e) 0) P4) in L. nia.
  - apply (Z.mul_le_mono_pos_r _ _ (10 ^ Z.max (- e) 0) P4).
    rewrite H.
    apply (Z.mul_le_mono_pos_r _ _ (10 ^ Z.max (- e') 0) P2) in L. nia.
Qed.

Lemma pow10_split (a b c d : Z) :
  0 <= a -> 0 <= b -> 0 <= c -> 0 <= d -> a + b = c + d ->
  10 ^ a * 10 ^ b = 10 ^ c * 10 ^ d.
Proof.
  intros Ha Hb Hc Hd H. rewrite <- !Z.pow_add_r by lia. now rewrite H.
Qed.

(** [V * 10^x] is the number [(V * 10^t) * 10^e] when [x = t + e]. *)
Lemma same_number_scaled (V t e x : Z) :
  0 <= t -> x = t + e -> Spec.same_number V x (V * 10 ^ t) e.
Proof.
  intros Ht ->. unfold Spec.same_number.
  rewrite <- !Z.mul_assoc. f_equal.
  rewrite (Z.mul_assoc (10 ^ t)).
  rewrite <- (Z.pow_add_r 10 t) by lia.
  apply pow10_split; lia.
Qed.

Lemma same_number_whole (V t e j : Z) :
  0 <= t -> 0 <= j -> j = t + e ->
  Spec.same_number (V * 10 ^ j) 0 (V * 10 ^ t) e.
Proof.
  intros Ht Hj E. unfold Spec.same_number.
  rewrite <- !Z.mul_assoc. f_equal.
  rewrite !Z.mul_assoc.
  rewrite <- (Z.pow_add_r 10 j), <- (Z.pow_add_r 10 t) by lia.
  apply pow10_split; lia.
Qed.

Lemma same_number_opp (m' e' m e : Z) :
  Spec.same_number m' e' m e -> Spec.same_number (- m') e' (- m) e.
Proof. unfold Spec.same_number. intros H. nia. Qed.

Lemma first_digit (s : string) :
  Text.all_digits s = true -> Text.is_empty s = false ->
  exists c r, s = String c r /\ Text.is_digit c = true.
Proof.
  destruct s as [|c r]; [discriminate|]. cbn [Text.all_digits].
  intros H _. apply andb_true_iff in H. exists c, r. tauto.
Qed.

Lemma take_first (n : nat) (c : ascii) (r : string) :
  (0 < n)%nat -> exists r', Text.take n (String c r) = String c r'.
Proof. destruct n; [lia|]. intros _. cbn [Text.take]. now eexists. Qed.

(** The text of a positive number is read back as that number, and it
    does not start with a minus sign. *)
Lemma finite_text_scans (m e : Z) :
  0 < m ->
  exists m' e',
    Text.scan_decimal (finite_text m e) = Some (m', e', "")
    /\ Spec.same_number m' e' m e
    /\ Text.minus_sign (finite_text m e) = (1, finite_text m e).
Proof.
  intros Hm.
  destruct (decimal_digits m) as (Hd & Hv & Hne); [lia|].
  unfold finite_text.
  set (ds := Text.decimal m) in *. set (sg := Text.rstrip0 ds).
  pose proof (rstrip0_length ds) as Hlen. fold sg in Hlen.
  pose proof (all_digits_rstrip0 ds Hd) as Hsd. fold sg in Hsd.
  pose proof (rstrip0_value ds) as Hval. fold sg in Hval. rewrite Hv in Hval.
  set (k := String.length sg) in *. set (L := String.length ds) in *.
  assert (Hsne : Text.is_empty sg = false).
  { destruct sg; [|reflexivity]. cbn in Hval. lia. }
  destruct (first_digit sg Hsd Hsne) as (c & r & Esg & Hc).
  assert (Hk : (1 <= k)%nat) by (unfold k; rewrite Esg; cbn; lia).
  set (V := Text.value sg) in *.
  set (t := Z.of_nat (L - k)) in *.
  assert (Ht : 0 <= t) by (unfold t; lia).
  assert (Htk : t = Z.of_nat L - Z.of_nat k) by (unfold t; lia).
  destruct ((Z.of_nat k <=? Z.of_nat L + e) && (Z.of_nat L + e <=? 21)) eqn:Ca.
  { (* digits, then zeros *)
    apply andb_true_iff in Ca. destruct Ca as [Ca _]. apply Z.leb_le in Ca.
    set (j := Z.to_nat (Z.of_nat L + e - Z.of_nat k)).
    exists (V * 10 ^ Z.of_nat j), 0. split; [|split].
    - rewrite scan_decimal_digits.
      + now rewrite value_append, value_zeros, length_zeros, Z.add_0_r.
      + now rewrite all_digits_append, Hsd, all_digits_zeros.
      + now apply is_empty_append.
    - rewrite Hval. apply same_number_whole; unfold j; lia.
    - rewrite Esg. cbn [append]. now apply minus_sign_digit. }
  destruct ((0 <? Z.of_nat L + e) && (Z.of_nat L + e <=? 21)) eqn:Cb.
  { (* digits, a point, digits *)
    apply andb_true_iff in Cb. destruct Cb as [Cb Cb'].
    apply Z.ltb_lt in Cb. apply Z.leb_le in Cb'.
    assert (Hn : (Z.to_nat (Z.of_nat L + e) < k)%nat).
    { apply andb_false_iff in Ca.
      destruct Ca as [Ca|Ca]; [apply Z.leb_gt in Ca; lia|].
      apply Z.leb_gt in Ca. lia. }
    set (n := Z.to_nat (Z.of_nat L + e)) in *.
    assert (Hn0 : (0 < n)%nat) by (unfold n; lia).
    destruct (all_digits_take_drop n sg Hsd) as [Htk' Hdr].
    exists V, (0 - Z.of_nat (String.length (Text.drop n sg))).
    split; [|split].
    - rewrite <- (append_empty (Text.drop n sg)) at 1.
      rewrite (scan_decimal_point (Text.take n sg) (Text.drop n sg) "" 0);
        auto.
      + now rewrite take_drop.
      + rewrite Esg. destruct (take_first n c r Hn0) as (r' & ->).
        reflexivity.
    - rewrite Hval, length_drop. fold k.
      apply same_number_scaled; [exact Ht|]. unfold n. lia.
    - rewrite Esg. destruct (take_first n c r Hn0) as (r' & ->).
      cbn [append]. now apply minus_sign_digit. }
  destruct ((-6 <? Z.of_nat L + e) && (Z.of_nat L + e <=? 0)) eqn:Cc.
  { (* zero, a point, zeros, digits *)
    apply andb_true_iff in Cc. destruct Cc as [_ Cc]. apply Z.leb_le in Cc.
    set (j := Z.to_nat (- (Z.of_nat L + e))).
    exists V, (0 - Z.of_nat (String.length (Text.zeros j ++ sg))).
    split; [|split].
    - rewrite <- (append_empty sg) at 1.
      change ("0." ++ Text.zeros j ++ sg ++ "")
        with ("0" ++ "." ++ Text.zeros j ++ sg ++ "").
      rewrite <- (append_assoc (Text.zeros j) sg "").
      rewrite (scan_decimal_point "0" (Text.zeros j ++ sg) "" 0); auto.
      + change ("0" ++ Text.zeros j ++ sg) with (Text.zeros (S j) ++ sg).
        rewrite value_append, value_zeros. reflexivity.
      + now rewrite all_digits_append, all_digits_zeros.
    - rewrite Hval, length_append, length_zeros. fold k.
      apply same_number_scaled; [exact Ht|]. unfold j. lia.
    - reflexivity. }
  (* exponent notation *)
  set (x := Z.of_nat L + e - 1).
  destruct (Z.of_nat k =? 1) eqn:Ck.
  - apply Z.eqb_eq in Ck. exists V, x. split; [|split].
    + apply scan_decimal_exponent; auto. apply scan_exponent_text.
    + rewrite Hval. apply same_number_scaled; [exact Ht|]. unfold x. lia.
    + rewrite Esg. cbn [append]. now apply minus_sign_digit.
  - apply Z.eqb_neq in Ck.
    destruct (all_digits_take_drop 1 sg Hsd) as [Htk' Hdr].
    exists V, (x - Z.of_nat (String.length (Text.drop 1 sg))).
    split; [|split].
    + rewrite !append_assoc.
      rewrite (scan_decimal_point (Text.take 1 sg) (Text.drop 1 sg) _ x);
        auto.
      * now rewrite take_drop.
      * rewrite Esg. reflexivity.
      * apply scan_exponent_text.
    + rewrite Hval, length_drop. fold k.
      apply same_number_scaled; [exact Ht|]. unfold x. lia.
    + rewrite Esg. cbn [Text.take append]. now apply minus_sign_digit.
Qed.

(* ----------------------------------------------------------------- *)
(** ** Ids *)

Lemma ltrim_no_space (s : string) : Text.no_space s = true -> Text.ltrim s = s.
Proof.
  destruct s as [|c r]; [reflexivity|]. cbn [Text.no_space Text.ltrim].
  intros H. apply andb_true_iff in H. destruct H as [H _].
  apply negb_true_iff in H. now rewrite H.
Qed.

Lemma no_space_rev_onto (s acc : string) :
  Text.no_space (Text.rev_onto s acc) = Text.no_space s && Text.no_space acc.
Proof.
  revert acc. induction s as [|c s IH]; intros acc;
    cbn [Text.rev_onto Text.no_space]; [reflexivity|].
  rewrite IH. cbn [Text.no_space].
  destruct (Text.is_space c), (Text.no_space s), (Text.no_space acc);
    reflexivity.
Qed.

Lemma rev_onto_rev_onto (s acc tail : string) :
  Text.rev_onto (Text.rev_onto s acc) tail
  = Text.rev_onto acc (s ++ tail).
Proof.
  revert acc tail. induction s as [|c s IH]; intros acc tail;
    cbn [Text.rev_onto append]; [reflexivity|].
  now rewrite IH.
Qed.

Lemma trim_no_space (s : string) : Text.no_space s = true -> Text.trim s = s.
Proof.
  intros H. unfold Text.trim, Text.rev.
  rewrite (ltrim_no_space s H).
  rewrite ltrim_no_space by (now rewrite no_space_rev_onto, H).
  rewrite rev_onto_rev_onto. cbn [Text.rev_onto]. apply append_empty.
Qed.

Lemma digits_no_space (s : string) :
  Text.all_digits s = true -> Text.no_space s = true.
Proof.
  induction s as [|c s IH]; cbn [Text.all_digits Text.no_space];
    [reflexivity|].
  intros H. apply andb_true_iff in H. destruct H as [Hc Hs].
  rewrite (IH Hs), andb_true_r.
  destruct c as [[|] [|] [|] [|] [|] [|] [|] [|]];
    try discriminate Hc; reflexivity.
Qed.

(** The store reads the decimal text of an integer as that integer. *)
Lemma integer_in_decimal (z : Z) : Pg.integer_in (Text.decimal z) = Some z.
Proof.
  assert (Hpos : forall v, 0 <= v ->
             Text.take_digits (Text.decimal v) = (Text.decimal v, "")
             /\ Text.value (Text.decimal v) = v
             /\ exists c r, Text.decimal v = String c r
                            /\ Text.is_digit c = true).
  { intros v Hv. destruct (decimal_digits v Hv) as (Hd & Hval & Hne).
    split; [now apply take_digits_all|]. split; [exact Hval|].
    now apply first_digit. }
  unfold Pg.integer_in. destruct z as [|p|p].
  - reflexivity.
  - destruct (Hpos (Z.pos p)) as (Ht & Hv & c & r & E & Hc); [lia|].
    destruct (decimal_digits (Z.pos p)) as (Hd & _ & _); [lia|].
    rewrite (trim_no_space _ (digits_no_space _ Hd)).
    rewrite E in *.
    assert (Hsign : match String c r with
                    | String "-" r0 => (-1, r0)
                    | String "+" r0 => (1, r0)
                    | _ => (1, String c r)
                    end = (1, String c r)).
    { destruct c as [[|] [|] [|] [|] [|] [|] [|] [|]];
        try discriminate Hc; reflexivity. }
    rewrite Hsign, Ht, Hv. reflexivity.
  - destruct (Hpos (Z.pos p)) as (Ht & Hv & c & r & E & Hc); [lia|].
    destruct (decimal_digits (Z.pos p)) as (Hd & _ & _); [lia|].
    rewrite decimal_negative.
    rewrite trim_no_space
      by (cbn [Text.no_space]; now rewrite (digits_no_space _ Hd)).
    rewrite Ht, Hv, E. reflexivity.
Qed.

(** An integer of at most 21 digits prints as its decimal text. *)
Lemma NumberToString_integer (z : Z) :
  (String.length (Text.decimal (Z.abs z)) <= 21)%nat ->
  NumberToString (Fin z 0) = Text.decimal z.
Proof.
  intros Hlen.
  assert (Hpos : forall p,
             (String.length (Text.decimal (Z.pos p)) <= 21)%nat ->
             finite_text (Z.pos p) 0 = Text.decimal (Z.pos p)).
  { intros p Hp. unfold finite_text.
    set (ds := Text.decimal (Z.pos p)) in *.
    pose proof (rstrip0_length ds) as Hk.
    replace ((Z.of_nat (String.length (Text.rstrip0 ds))
              <=? Z.of_nat (String.length ds) + 0)
             && (Z.of_nat (String.length ds) + 0 <=? 21)) with true.
    - replace (Z.to_nat (Z.of_nat (String.length ds) + 0
                         - Z.of_nat (String.length (Text.rstrip0 ds))))
        with (String.length ds - String.length (Text.rstrip0 ds))%nat by lia.
      apply rstrip0_zeros.
    - symmetry. apply andb_true_iff. split; apply Z.leb_le; lia. }
  destruct z as [|p|p]; cbn [NumberToString Z.eqb Z.ltb Z.compare Z.opp].
  - reflexivity.
  - now apply Hpos.
  - rewrite decimal_negative. cbn [Z.abs] in Hlen.
    now rewrite (Hpos p Hlen).
Qed.

(** An id may be passed as the decimal text of an integer, as a route
    does, or as a number of at most 21 digits, as the tests do: the store
    reads either as that integer. *)
Lemma denotes_text_or_number (z : Z) :
  Spec.denotes (VStr (Text.decimal z)) z
  /\ ((String.length (Text.decimal (Z.abs z)) <= 21)%nat ->
      Spec.denotes (VNum (int z)) z).
Proof.
  unfold Spec.denotes. cbn [Pg.prepareValue ToString Pg.read_integer int].
  split.
  - now rewrite integer_in_decimal.
  - intros Hlen. unfold int. rewrite (NumberToString_integer z Hlen).
    now rewrite integer_in_decimal.
Qed.

(* ----------------------------------------------------------------- *)
(** ** The order of titles *)

Lemma ascii_compare_refl (c : ascii) : Ascii.compare c c = Eq.
Proof. unfold Ascii.compare. apply N.compare_refl. Qed.

Lemma ascii_compare_chain (x y z : ascii) :
  Ascii.compare x y <> Gt -> Ascii.compare y z <> Gt ->
  Ascii.compare x z <> Gt
  /\ (Ascii.compare x z = Eq ->
      Ascii.compare x y = Eq /\ Ascii.compare y z = Eq).
Proof.
  unfold Ascii.compare.
  destruct (N.compare_spec (N_of_ascii x) (N_of_ascii y));
    destruct (N.compare_spec (N_of_ascii y) (N_of_ascii z));
    destruct (N.compare_spec (N_of_ascii x) (N_of_ascii z));
    intros; split; intros; try congruence; try lia; split; congruence.
Qed.

Lemma string_compare_chain (a b c : string) :
  String.compare a b <> Gt -> String.compare b c <> Gt ->
  String.compare a c <> Gt.
Proof.
  revert b c.
  induction a as [|x a IH]; intros [|y b] [|z c]; simpl; try congruence.
  intros Hxy Hyz.
  assert (Hy : Ascii.compare x y <> Gt)
    by (destruct (Ascii.compare x y); congruence).
  assert (Hz : Ascii.compare y z <> Gt)
    by (destruct (Ascii.compare y z); congruence).
  destruct (ascii_compare_chain x y z Hy Hz) as [Hgt Heq].
  destruct (Ascii.compare x z) eqn:Exz; try congruence.
  destruct (Heq eq_refl) as [E1 E2].
  rewrite E1 in Hxy. rewrite E2 in Hyz.
  now apply (IH b c).
Qed.

Lemma string_leb_trans (a b c : string) :
  String.leb a b = true -> String.leb b c = true -> String.leb a c = true.
Proof.
  unfold String.leb. intros Hab Hbc.
  assert (H : String.compare a c <> Gt).
  { apply (string_compare_chain a b c).
    - destruct (String.compare a b); congruence.
    - destruct (String.compare b c); congruence. }
  destruct (String.compare a c); congruence.
Qed.


Lemma string_compare_both (a b : string) :
  String.compare a b <> Gt -> String.compare b a <> Gt ->
  String.compare a b = Eq.
Proof.
  intros Hab Hba. rewrite String.compare_antisym in Hba.
  destruct (String.compare a b); simpl in Hba; congruence.
Qed.

(** Two steps that do not go down go down nowhere, and stay level only
    when both do. *)
Lemma string_compare_steps (a b c : string) :
  String.compare a b <> Gt -> String.compare b c <> Gt ->
  String.compare a c <> Gt
  /\ (String.compare a c = Eq ->
      String.compare a b = Eq /\ String.compare b c = Eq).
Proof.
  intros Hab Hbc. split; [now apply (string_compare_chain a b c)|].
  intros Hac. apply String.compare_eq_iff in Hac. subst c.
  pose proof (string_compare_both a b Hab Hbc) as E. split; [exact E|].
  pose proof E as E'. apply String.compare_eq_iff in E'. subst b. exact E.
Qed.

Lemma before_total (d : Pg.db) (a b : Pg.job_row) :
  Pg.before d a b = true \/ Pg.before d b a = true.
Proof.
  unfold Pg.before.
  rewrite (String.compare_antisym (Pg.collation d (Pg.title a))).
  rewrite (String.compare_antisym (Pg.title a)).
  destruct (String.compare (Pg.collation d (Pg.title b)) _); simpl; auto.
  destruct (String.compare (Pg.title b) _); simpl; auto.
  destruct (Z.leb_spec (Pg.physical d (Pg.issued d) a)
                       (Pg.physical d (Pg.issued d) b));
    [now left|right; apply Z.leb_le; lia].
Qed.

Lemma before_trans (d : Pg.db) (a b c : Pg.job_row) :
  Pg.before d a b = true -> Pg.before d b c = true -> Pg.before d a c = true.
Proof.
  unfold Pg.before. intros Hab Hbc.
  set (ka := Pg.collation d (Pg.title a)) in *.
  set (kb := Pg.collation d (Pg.title b)) in *.
  set (kc := Pg.collation d (Pg.title c)) in *.
  assert (K1 : String.compare ka kb <> Gt)
    by (destruct (String.compare ka kb); congruence).
  assert (K2 : String.compare kb kc <> Gt)
    by (destruct (String.compare kb kc); congruence).
  destruct (string_compare_steps ka kb kc K1 K2) as [K3 K4].
  destruct (String.compare ka kc); [|reflexivity|congruence].
  destruct (K4 eq_refl) as [E1 E2]. rewrite E1 in Hab. rewrite E2 in Hbc.
  assert (T1 : String.compare (Pg.title a) (Pg.title b) <> Gt)
    by (destruct (String.compare (Pg.title a) (Pg.title b)); congruence).
  assert (T2 : String.compare (Pg.title b) (Pg.title c) <> Gt)
    by (destruct (String.compare (Pg.title b) (Pg.title c)); congruence).
  destruct (string_compare_steps _ _ _ T1 T2) as [T3 T4].
  destruct (String.compare (Pg.title a) (Pg.title c));
    [|reflexivity|congruence].
  destruct (T4 eq_refl) as [F1 F2]. rewrite F1 in Hab. rewrite F2 in Hbc.
  apply Z.leb_le in Hab. apply Z.leb_le in Hbc. apply Z.leb_le. lia.
Qed.

(** Rows in the order of the store are in the order of the collation. *)
Lemma precedes_title_le (d : Pg.db) (a b : Pg.job_row) :
  Spec.precedes d a b -> Spec.title_le d a b.
Proof.
  unfold Spec.precedes, Spec.title_le, Pg.before, String.leb.
  destruct (String.compare (Pg.collation d (Pg.title a)) _); congruence.
Qed.

(** Rows of different titles stand as the collation and the characters
    of the titles have it: where they lie plays no part. *)
Lemma before_by_title (d d' : Pg.db) (a b : Pg.job_row) :
  Pg.collation d' = Pg.collation d -> Pg.title a <> Pg.title b ->
  Pg.before d' a b = Pg.before d a b.
Proof.
  intros Hc Ht. unfold Pg.before. rewrite Hc.
  destruct (String.compare (Pg.collation d (Pg.title a)) _); try reflexivity.
  destruct (String.compare (Pg.title a) (Pg.title b)) eqn:E; try reflexivity.
  apply String.compare_eq_iff in E. contradiction.
Qed.

Lemma insert_by_title_perm (d : Pg.db) (r : Pg.job_row)
      (l : list Pg.job_row) :
  Permutation (r :: l) (Pg.insert_by_title d r l).
Proof.
  induction l as [|x l IH]; simpl.
  - apply Permutation_refl.
  - destruct (Pg.before d r x).
    + apply Permutation_refl.
    + apply perm_trans with (x :: r :: l).
      * apply perm_swap.
      * now apply perm_skip.
Qed.

Lemma order_by_title_perm (d : Pg.db) (l : list Pg.job_row) :
  Permutation (Pg.order_by_title d l) l.
Proof.
  induction l as [|x l IH]; simpl.
  - apply perm_nil.
  - apply perm_trans with (x :: Pg.order_by_title d l).
    + apply Permutation_sym, insert_by_title_perm.
    + now apply perm_skip.
Qed.

Lemma insert_by_title_sorted (d : Pg.db) (r : Pg.job_row)
      (l : list Pg.job_row) :
  StronglySorted (Spec.precedes d) l ->
  StronglySorted (Spec.precedes d) (Pg.insert_by_title d r l).
Proof.
  induction 1 as [|x l Hs IH Hall]; simpl.
  - constructor; constructor.
  - destruct (Pg.before d r x) eqn:E.
    + constructor.
      * now constructor.
      * constructor; [exact E|].
        eapply Forall_impl; [|exact Hall].
        intros y Hy. now apply (before_trans d r x y).
    + assert (Hxr : Spec.precedes d x r).
      { destruct (before_total d r x) as [H|H]; [congruence|exact H]. }
      constructor; [exact IH|].
      apply (Permutation_Forall (insert_by_title_perm d r l)).
      now constructor.
Qed.

Lemma order_by_title_sorted (d : Pg.db) (l : list Pg.job_row) :
  StronglySorted (Spec.precedes d) (Pg.order_by_title d l).
Proof.
  induction l as [|x l IH]; simpl.
  - constructor.
  - now apply insert_by_title_sorted.
Qed.

Lemma sorted_weaken {A : Type} (R S : A -> A -> Prop) (l : list A) :
  (forall a b, R a b -> S a b) -> StronglySorted R l -> StronglySorted S l.
Proof.
  intros HRS. induction 1 as [|x l Hs IH Hall]; constructor; [exact IH|].
  eapply Forall_impl; [|exact Hall]. intros y. apply HRS.
Qed.

Lemma order_by_title_ascending (d : Pg.db) (l : list Pg.job_row) :
  StronglySorted (Spec.title_le d) (Pg.order_by_title d l).
Proof.
  apply (sorted_weaken (Spec.precedes d)); [apply precedes_title_le|].
  apply order_by_title_sorted.
Qed.

Lemma sorted_left_of {A : Type} (R : A -> A -> Prop) (l1 l2 : list A)
      (a : A) :
  StronglySorted R (l1 ++ a :: l2)%list -> Forall (fun x => R x a) l1.
Proof.
  induction l1 as [|x l1 IH]; simpl; intros H.
  - constructor.
  - apply StronglySorted_inv in H. destruct H as [Hs Hall].
    constructor.
    + rewrite Forall_forall in Hall. apply Hall.
      apply in_or_app. right. now left.
    + now apply IH.
Qed.

(** In a list in ascending order of title, under a collation that has
    "job1" before "job2", a row titled "job1" stands before every row
    titled "job2". *)
Lemma job1_before_job2 (d : Pg.db) (rows : list Pg.job_row)
      (a b : Pg.job_row) :
  String.leb (Pg.collation d "job2") (Pg.collation d "job1") = false ->
  StronglySorted (Spec.title_le d) rows ->
  In a rows -> In b rows ->
  Pg.title a = "job1" -> Pg.title b = "job2" ->
  exists l1 l2 l3, rows = (l1 ++ a :: l2 ++ b :: l3)%list.
Proof.
  intros Hcoll Hs Ha Hb Ta Tb.
  destruct (in_split b rows Hb) as (m1 & m2 & ->).
  apply in_app_or in Ha. destruct Ha as [Ha|Ha].
  - destruct (in_split a m1 Ha) as (l1 & l2 & ->).
    exists l1, l2, m2. now rewrite <- app_assoc.
  - exfalso. destruct Ha as [Ha|Ha].
    + subst a. rewrite Ta in Tb. discriminate.
    + replace (m1 ++ b :: m2)%list with ((m1 ++ [b]) ++ m2)%list in Hs
        by (now rewrite <- app_assoc).
      destruct (in_split a m2 Ha) as (n1 & n2 & ->).
      replace ((m1 ++ [b]) ++ n1 ++ a :: n2)%list
        with ((m1 ++ [b] ++ n1) ++ a :: n2)%list in Hs
        by (now rewrite <- !app_assoc).
      apply sorted_left_of in Hs.
      rewrite Forall_forall in Hs.
      assert (Hba : Spec.title_le d b a).
      { apply Hs. apply in_or_app. right. now left. }
      unfold Spec.title_le in Hba. rewrite Ta, Tb in Hba. congruence.
Qed.

(* ----------------------------------------------------------------- *)
(** ** Job.findAll *)

Lemma findAll_eq (d : Pg.db) :
  Job.findAll d
  = (Return (map Pg.job_obj
               (Pg.order_by_title (Pg.record_query Pg.SelectJobs [] d)
                  (Pg.jobs d))),
     Pg.record_query Pg.SelectJobs [] d).
Proof. reflexivity. Qed.

Lemma job_obj_keys (r : Pg.job_row) :
  Object_keys (Pg.job_obj r)
  = ["id"; "title"; "salary"; "equity"; "companyHandle"].
Proof. reflexivity. Qed.

(** C7.  [Job.findAll()] returns every persisted job and no other, each
    as an object that carries the job's id, title, salary (null when the
    job has none), equity (its decimal text, or null) and companyHandle
    under exactly these keys, so companyHandle is present and there is
    no company key.  The list is in ascending order of title as the
    collation of the store orders texts; when that collation has "job1"
    before "job2", two jobs so titled, wherever they sit in the table,
    come out with "job1" before "job2".  Nothing is written. *)
Theorem findAll_every_job_by_title (d : Pg.db) :
  exists rows : list Pg.job_row,
    fst (Job.findAll d) = Return (map Pg.job_obj rows)
    /\ Permutation rows (Pg.jobs d)
    /\ StronglySorted (Spec.title_le d) rows
    /\ (forall r,
          Pg.job_obj r
          = [ ("id", VNum (Fin (Pg.id r) 0));
              ("title", VStr (Pg.title r));
              ("salary",
               match Pg.salary r with
               | Some v => VNum (Fin v 0)
               | None => VNull
               end);
              ("equity",
               match Pg.equity r with
               | Some q => VStr (Pg.numeric_out q)
               | None => VNull
               end);
              ("companyHandle", VStr (Pg.company_handle r)) ])
    /\ (forall o, In o (map Pg.job_obj rows) ->
          Object_keys o = ["id"; "title"; "salary"; "equity"; "companyHandle"]
          /\ own o "companyHandle" <> None
          /\ own o "company" = None)
    /\ (String.leb (Pg.collation d "job2") (Pg.collation d "job1") = false ->
        forall a b,
          In a (Pg.jobs d) -> In b (Pg.jobs d) ->
          Pg.title a = "job1" -> Pg.title b = "job2" ->
          exists l1 l2 l3, rows = (l1 ++ a :: l2 ++ b :: l3)%list)
    /\ Spec.same_tables (snd (Job.findAll d)) d.
Proof.
  set (dq := Pg.record_query Pg.SelectJobs [] d).
  exists (Pg.order_by_title dq (Pg.jobs d)).
  rewrite findAll_eq. fold dq. cbn [fst snd].
  split; [reflexivity|].
  split; [apply order_by_title_perm|].
  split; [exact (order_by_title_ascending dq (Pg.jobs d))|].
  split; [intros r; now destruct r as [i t [s|] [q|] c]|].
  split.
  - intros o Ho. apply in_map_iff in Ho. destruct Ho as (r & <- & _).
    repeat split. discriminate.
  - split.
    + intros Hcoll a b Ha Hb Ta Tb.
      apply (job1_before_job2 dq _ a b); auto.
      * exact (order_by_title_ascending dq (Pg.jobs d)).
      * apply (Permutation_in a (Permutation_sym (order_by_title_perm _ _)) Ha).
      * apply (Permutation_in b (Permutation_sym (order_by_title_perm _ _)) Hb).
    + repeat split.
Qed.

(** The fixture holds job1 and job2; with job2 first in the table the
    result still starts with job1, and the objects carry the data of the
    two jobs. *)
Lemma findAll_every_job_by_title_witness :
  (exists rows l1 l2 l3,
      fst (Job.findAll
             (Pg.with_jobs Fixture.store [Fixture.job2; Fixture.job1]))
      = Return (map Pg.job_obj rows)
      /\ rows = (l1 ++ Fixture.job1 :: l2 ++ Fixture.job2 :: l3)%list)
  /\ fst (Job.findAll
            (Pg.with_jobs Fixture.store [Fixture.job2; Fixture.job1]))
     = Return
         [ [ ("id", VNum (Fin 1 0)); ("title", VStr "job1");
             ("salary", VNum (Fin 100 0)); ("equity", VStr "0.1");
             ("companyHandle", VStr "c1") ];
           [ ("id", VNum (Fin 2 0)); ("title", VStr "job2");
             ("salary", VNum (Fin 300 0)); ("equity", VStr "0");
             ("companyHandle", VStr "c2") ] ].
Proof.
  split; [|reflexivity].
  destruct (findAll_every_job_by_title
              (Pg.with_jobs Fixture.store [Fixture.job2; Fixture.job1]))
    as (rows & Hres & _ & _ & _ & _ & Horder & _).
  destruct (Horder eq_refl Fixture.job1 Fixture.job2)
    as (l1 & l2 & l3 & E).
  - simpl. right. left. reflexivity.
  - simpl. left. reflexivity.
  - reflexivity.
  - reflexivity.
  - exists rows, l1, l2, l3. split; [exact Hres | exact E].
Defined.

(** The order is that of the store's collation: character by character
    "Zoo keeper" comes first, under a collation that ignores case it
    comes last.  And jobs of one title come as the store hands them
    over, which need not be the same from one call to the next. *)
Lemma findAll_order_examples :
  fst (Job.findAll
         (Pg.with_jobs Fixture.store
            [Fixture.zoo; Fixture.job2; Fixture.job1]))
  = Return (map Pg.job_obj [Fixture.zoo; Fixture.job1; Fixture.job2])
  /\ fst (Job.findAll Fixture.folding)
     = Return (map Pg.job_obj [Fixture.job1; Fixture.job2; Fixture.zoo])
  /\ fst (Job.findAll Fixture.shifting)
     = Return (map Pg.job_obj [Fixture.job1_again; Fixture.job1])
  /\ fst (Job.findAll (snd (Job.findAll Fixture.shifting)))
     = Return (map Pg.job_obj [Fixture.job1; Fixture.job1_again]).
Proof. repeat split. Qed.

(** The two jobs of the fixture created in either order, into a store
    without jobs, come out of [findAll] with job1 first. *)
Example findAll_after_create_in_either_order :
  let empty := Pg.with_jobs Fixture.store [] in
  let data1 := [ ("title", VStr "job1"); ("salary", VNum (int 100));
                 ("equity", VStr "0.1"); ("companyHandle", VStr "c1") ] in
  let data2 := [ ("title", VStr "job2"); ("salary", VNum (int 300));
                 ("equity", VStr "0"); ("companyHandle", VStr "c2") ] in
  let titles (m : M (list obj)) (d : Pg.db) :=
    match fst (m d) with
    | Return rows => map (fun o => prop o "title") rows
    | _ => []
    end in
  titles Job.findAll (snd (Job.create data2 (snd (Job.create data1 empty))))
  = [VStr "job1"; VStr "job2"]
  /\ titles Job.findAll (snd (Job.create data1 (snd (Job.create data2 empty))))
     = [VStr "job1"; VStr "job2"].
Proof. split; reflexivity. Qed.

(* ----------------------------------------------------------------- *)
(** ** Job.remove *)

Lemma filter_none_keeps_all {A : Type} (f : A -> bool) (l : list A) :
  filter f l = [] -> filter (fun x => negb (f x)) l = l.
Proof.
  induction l as [|x l IH]; simpl; [reflexivity|].
  destruct (f x); simpl; [discriminate|].
  intros H. now rewrite IH.
Qed.

Lemma filter_twice_none {A : Type} (f : A -> bool) (l : list A) :
  filter f (filter (fun x => negb (f x)) l) = [].
Proof.
  induction l as [|x l IH]; simpl; [reflexivity|].
  destruct (f x) eqn:E; simpl; [exact IH|].
  now rewrite E.
Qed.

Lemma remove_eq (d : Pg.db) (id : jsval) (v : Z) :
  Spec.denotes id v ->
  Job.remove id d
  = (match Pg.select_by_id v d with
     | [] => Throw (NotFoundError ("No job with id: " ++ ToString id))
     | _ :: _ => Return tt
     end,
     Pg.with_jobs (Pg.record_query Pg.DeleteJob [id] d)
       (filter (fun r => negb (Pg.id r =? v)) (Pg.jobs d))).
Proof.
  intros H. unfold Job.remove, bind, query, query_result. simpl.
  unfold Spec.denotes in H. rewrite H.
  unfold Pg.select_by_id. simpl.
  destruct (filter (fun r => Pg.id r =? v) (Pg.jobs d)); reflexivity.
Qed.

Lemma select_by_id_eq (d : Pg.db) (id : jsval) (v : Z) :
  Spec.denotes id v ->
  query Pg.SelectJobById [id] d
  = (Return (map Pg.job_obj (Pg.select_by_id v d)),
     Pg.record_query Pg.SelectJobById [id] d).
Proof.
  intros H. unfold query, query_result. simpl.
  unfold Spec.denotes in H. rewrite H. reflexivity.
Qed.

(** C8.  For an id the store reads as the integer [v]: when a job has that
    id, [Job.remove(id)] returns nothing, the rows of that id are gone and
    every other row stays, and a later lookup by that id finds no row; when
    no job has it, the call throws not-found and the tables are as they
    were. *)
Theorem remove_deletes_or_not_found (d : Pg.db) (id : jsval) (v : Z) :
  Spec.denotes id v ->
  (Pg.select_by_id v d <> [] ->
     fst (Job.remove id d) = Return tt
     /\ Pg.jobs (snd (Job.remove id d))
        = filter (fun r => negb (Pg.id r =? v)) (Pg.jobs d)
     /\ Pg.companies (snd (Job.remove id d)) = Pg.companies d
     /\ fst (query Pg.SelectJobById [id] (snd (Job.remove id d))) = Return [])
  /\ (Pg.select_by_id v d = [] ->
     fst (Job.remove id d)
     = Throw (NotFoundError ("No job with id: " ++ ToString id))
     /\ Spec.same_tables (snd (Job.remove id d)) d).
Proof.
  intros H. rewrite (remove_eq d id v H). simpl. split.
  - intros Hex. split.
    + destruct (Pg.select_by_id v d); [contradiction|reflexivity].
    + split; [reflexivity|]. split; [reflexivity|].
      rewrite (select_by_id_eq _ id v H). simpl.
      unfold Pg.select_by_id. simpl.
      now rewrite (filter_twice_none (fun r => Pg.id r =? v)).
  - intros Hno. rewrite Hno. split; [reflexivity|].
    unfold Spec.same_tables. simpl.
    split; [|split; reflexivity].
    now apply (filter_none_keeps_all (fun r => Pg.id r =? v)).
Qed.

(** Job 1 of the fixture is removed; there is no job 0 to remove. *)
Lemma remove_deletes_or_not_found_witness :
  (fst (Job.remove (VNum (int 1)) Fixture.store) = Return tt
   /\ Pg.jobs (snd (Job.remove (VNum (int 1)) Fixture.store)) = [Fixture.job2])
  /\ fst (Job.remove (VNum (int 0)) Fixture.store)
     = Throw (NotFoundError "No job with id: 0").
Proof.
  split.
  - destruct (remove_deletes_or_not_found Fixture.store (VNum (int 1)) 1
                eq_refl) as [Hdel _].
    destruct Hdel as (Hret & Hjobs & _).
    + discriminate.
    + split; [exact Hret | exact Hjobs].
  - destruct (remove_deletes_or_not_found Fixture.store (VNum (int 0)) 0
                eq_refl) as [_ Hnone].
    destruct Hnone as (Hthrow & _).
    + reflexivity.
    + exact Hthrow.
Defined.

(** C8 as it is written fails for an id that is no integer: no job of
    the fixture has the id "abc", no row is deleted, and [remove] throws
    the store's error, not not-found. *)
Lemma remove_deletes_or_not_found_counterexample :
  Forall (fun r => prop (Pg.job_obj r) "id" <> VStr "abc")
         (Pg.jobs Fixture.store)
  /\ Job.remove (VStr "abc") Fixture.store
     = (Throw DbError,
        Pg.record_query Pg.DeleteJob [VStr "abc"] Fixture.store)
  /\ forall m,
      fst (Job.remove (VStr "abc") Fixture.store) <> Throw (NotFoundError m).
Proof.
  split; [repeat constructor; discriminate|].
  split; [reflexivity|discriminate].
Qed.

(* ----------------------------------------------------------------- *)
(** ** Job.get *)

Lemma filter_head {A : Type} (f : A -> bool) (l : list A) (x : A) (xs : list A) :
  filter f l = x :: xs -> f x = true /\ In x l.
Proof.
  intros H.
  assert (Hin : In x (filter f l)) by (rewrite H; now left).
  apply filter_In in Hin. tauto.
Qed.

Lemma get_eq (d : Pg.db) (id : jsval) (v : Z) :
  Spec.denotes id v ->
  Job.get id d
  = match Pg.select_by_id v d with
    | [] =>
        (Throw (NotFoundError ("No job with id: " ++ ToString id)),
         Pg.record_query Pg.SelectJobById [id] d)
    | j :: _ =>
        (Return
           (assign (delete (of_obj (Pg.job_obj j)) "companyHandle") "company"
                   match Pg.select_company (Pg.company_handle j) d with
                   | [] => Prim VUndefined
                   | c :: _ => Object (Pg.company_obj c)
                   end),
         Pg.record_query Pg.SelectCompanyByHandle [VStr (Pg.company_handle j)]
           (Pg.record_query Pg.SelectJobById [id] d))
    end.
Proof.
  intros H. unfold Job.get, bind. rewrite (select_by_id_eq d id v H).
  destruct (Pg.select_by_id v d) as [|j js]; [reflexivity|].
  cbn [map]. unfold query, query_result. simpl. unfold Pg.select_company. simpl.
  destruct (filter _ (Pg.companies d)); reflexivity.
Qed.

(** C5.  For an id the store reads as the integer [v]: when a job has that
    id and its company is in the store, [Job.get(id)] returns the job's id,
    title, salary and equity and, under the key company, the handle, name,
    description, numEmployees and logoUrl of the company whose handle the
    job carries; the result has no key companyHandle, and nothing is
    written.  When no job has that id the call throws not-found after the
    one lookup of the job: no company is looked up. *)
Theorem get_job_with_company (d : Pg.db) (id : jsval) (v : Z) :
  Spec.denotes id v ->
  (forall j js c cs,
      Pg.select_by_id v d = j :: js ->
      Pg.select_company (Pg.company_handle j) d = c :: cs ->
      fst (Job.get id d) = Return (Spec.job_with_company j c)
      /\ Pg.id j = v
      /\ Pg.handle c = Pg.company_handle j
      /\ map fst (Spec.job_with_company j c)
         = ["id"; "title"; "salary"; "equity"; "company"]
      /\ has_key (Spec.job_with_company j c) "companyHandle" = false
      /\ Spec.same_tables (snd (Job.get id d)) d)
  /\ (Pg.select_by_id v d = [] ->
      Job.get id d
      = (Throw (NotFoundError ("No job with id: " ++ ToString id)),
         Pg.record_query Pg.SelectJobById [id] d)).
Proof.
  intros H. rewrite (get_eq d id v H). split.
  - intros j js c cs Hj Hc. rewrite Hj, Hc. simpl.
    split; [reflexivity|].
    apply filter_head in Hj. apply filter_head in Hc.
    destruct Hj as [Hj _]. destruct Hc as [Hc _].
    split; [now apply Z.eqb_eq|].
    split; [now apply String.eqb_eq|].
    repeat split.
  - intros Hno. now rewrite Hno.
Qed.

(** Job 1 of the fixture with its company c1, as the test of [get] expects
    it; job 0 is not found. *)
Lemma get_job_with_company_witness :
  fst (Job.get (VNum (int 1)) Fixture.store)
  = Return
      [ ("id", Prim (VNum (int 1)));
        ("title", Prim (VStr "job1"));
        ("salary", Prim (VNum (int 100)));
        ("equity", Prim (VStr "0.1"));
        ("company",
         Object
           [ ("handle", VStr "c1"); ("name", VStr "C1");
             ("description", VStr "Desc1"); ("numEmployees", VNum (int 1));
             ("logoUrl", VStr "http://c1.img") ]) ]
  /\ fst (Job.get (VNum (int 0)) Fixture.store)
     = Throw (NotFoundError "No job with id: 0").
Proof.
  split.
  - destruct (get_job_with_company Fixture.store (VNum (int 1)) 1 eq_refl)
      as [Hfound _].
    destruct (Hfound Fixture.job1 [] Fixture.c1 [] eq_refl eq_refl)
      as [Hret _].
    exact Hret.
  - destruct (get_job_with_company Fixture.store (VNum (int 0)) 0 eq_refl)
      as [_ Hnone].
    rewrite (Hnone eq_refl). reflexivity.
Defined.

(** C5 as it is written fails for an id that is no integer: no job of
    the fixture has the id "abc", and [get] throws the store's error,
    not not-found. *)
Lemma get_job_with_company_counterexample :
  Forall (fun r => prop (Pg.job_obj r) "id" <> VStr "abc")
         (Pg.jobs Fixture.store)
  /\ Job.get (VStr "abc") Fixture.store
     = (Throw DbError,
        Pg.record_query Pg.SelectJobById [VStr "abc"] Fixture.store)
  /\ forall m,
      fst (Job.get (VStr "abc") Fixture.store) <> Throw (NotFoundError m).
Proof.
  split; [repeat constructor; discriminate|].
  split; [reflexivity|discriminate].
Qed.

(* ----------------------------------------------------------------- *)
(** ** sqlForPartialUpdate *)

Lemma map_idx_fragments (m : obj) (col : string -> string) (d : obj) (i : nat) :
  (forall k, In k (Object_keys d) -> or_key m k = col k) ->
  map_idx
    (fun colName idx =>
       Sql.quote ++ or_key m colName ++ Sql.quote ++ "=$"
       ++ Text.decimal (Z.of_nat idx + 1))
    i (Object_keys d)
  = Spec.fragments col (Z.of_nat i + 1) d.
Proof.
  revert i. induction d as [|[k x] d IH]; intros i Hcol; simpl.
  - reflexivity.
  - rewrite (Hcol k) by (now left). f_equal.
    replace (Z.of_nat i + 1 + 1) with (Z.of_nat (S i) + 1) by lia.
    apply IH. intros k' Hk'. apply Hcol. now right.
Qed.

Lemma sqlForPartialUpdate_eq (d m : obj) (col : string -> string) :
  d <> [] ->
  (forall k, In k (Object_keys d) -> or_key m k = col k) ->
  Sql.sqlForPartialUpdate d m
  = Return {| Sql.setCols := Spec.set_clause col d;
              Sql.values := Object_values d |}.
Proof.
  intros Hd Hcol. unfold Sql.sqlForPartialUpdate.
  destruct d as [|kv d]; [contradiction|].
  cbn [Object_keys map List.length Nat.eqb].
  unfold Spec.set_clause. f_equal. f_equal.
  f_equal. now apply (map_idx_fragments m col (kv :: d) 0).
Qed.

Lemma or_key_column_or_name (m : obj) (k : string) :
  (own m k = None -> inherited k = None) ->
  or_key m k = Spec.column_or_name m k.
Proof.
  unfold or_key, Spec.column_or_name. intros H.
  destruct (own m k); [reflexivity|]. now rewrite H.
Qed.

Lemma column_or_name_column (m : obj) (k : string) :
  (forall v, own m k = Some v -> truthy v = true) ->
  Spec.column_or_name m k = Spec.column m k.
Proof.
  unfold Spec.column_or_name, Spec.column. intros H.
  destruct (own m k) as [v|]; [|reflexivity]. now rewrite (H v).
Qed.

(** C2, as the code has it.  When no field of [d] that [m] leaves unmapped
    bears the name of a member every object inherits:
    for a non-empty [d], [sqlForPartialUpdate(d, m)] returns setCols equal
    to the fragments ["<column>"=$i], one per key of [d], in the order of
    [d], [i] counting from 1, joined by a comma and a space, where the
    column is [m[k]] when that is truthy and [k] itself otherwise, together
    with the values of [d] in the same order; when moreover every alias in
    [m] is truthy, the column is [m[k]] when [k] is mapped and [k]
    otherwise; and for the empty [d] the call throws the bad request
    "No data". *)
Theorem sqlForPartialUpdate_fragments (d m : obj) :
  (forall k, In k (Object_keys d) -> own m k = None -> inherited k = None) ->
  (d <> [] ->
     Sql.sqlForPartialUpdate d m
     = Return {| Sql.setCols := Spec.set_clause (Spec.column_or_name m) d;
                 Sql.values := map snd d |})
  /\ (d <> [] ->
      (forall k v, In k (Object_keys d) -> own m k = Some v -> truthy v = true) ->
      Sql.sqlForPartialUpdate d m
      = Return {| Sql.setCols := Spec.set_clause (Spec.column m) d;
                  Sql.values := map snd d |})
  /\ (d = [] -> Sql.sqlForPartialUpdate d m = Throw (BadRequestError "No data")).
Proof.
  intros Hproto. split; [|split].
  - intros Hd. apply sqlForPartialUpdate_eq; [exact Hd|].
    intros k Hk. apply or_key_column_or_name. now apply Hproto.
  - intros Hd Htruthy. apply sqlForPartialUpdate_eq; [exact Hd|].
    intros k Hk. rewrite or_key_column_or_name by (now apply Hproto).
    apply column_or_name_column. intros v. now apply Htruthy.
  - intros ->. reflexivity.
Qed.

(** The example of section 8:
    [sqlForPartialUpdate({firstName: "a", age: 32}, {firstName: "first_name"})]. *)
Lemma sqlForPartialUpdate_fragments_witness :
  Sql.sqlForPartialUpdate
    [("firstName", VStr "a"); ("age", VNum (int 32))]
    [("firstName", VStr "first_name")]
  = Return
      {| Sql.setCols :=
           Sql.quote ++ "first_name" ++ Sql.quote ++ "=$1, "
           ++ Sql.quote ++ "age" ++ Sql.quote ++ "=$2";
         Sql.values := [VStr "a"; VNum (int 32)] |}.
Proof.
  destruct (sqlForPartialUpdate_fragments
              [("firstName", VStr "a"); ("age", VNum (int 32))]
              [("firstName", VStr "first_name")]) as (_ & Halias & _).
  - intros k [<-|[<-|[]]] _; reflexivity.
  - rewrite Halias.
    + reflexivity.
    + discriminate.
    + intros k v [<-|[<-|[]]]; simpl; intros E; inversion E; reflexivity.
Defined.

(** C2 as it is written fails for an alias that is falsy: the empty alias
    of [a] is passed over and the column is the field name [a], not the
    alias. *)
Lemma sqlForPartialUpdate_empty_alias_counterexample :
  Sql.sqlForPartialUpdate [("a", VNum (int 1))] [("a", VStr "")]
  = Return {| Sql.setCols := Sql.quote ++ "a" ++ Sql.quote ++ "=$1";
              Sql.values := [VNum (int 1)] |}
  /\ Spec.set_clause (Spec.column [("a", VStr "")]) [("a", VNum (int 1))]
     = Sql.quote ++ "" ++ Sql.quote ++ "=$1"
  /\ Sql.sqlForPartialUpdate [("a", VNum (int 1))] [("a", VStr "")]
     <> Return
          {| Sql.setCols :=
               Spec.set_clause (Spec.column [("a", VStr "")])
                 [("a", VNum (int 1))];
             Sql.values := [VNum (int 1)] |}.
Proof.
  split; [reflexivity|]. split; [reflexivity|]. discriminate.
Qed.

(* ----------------------------------------------------------------- *)
(** ** Job.update *)

(** For data that is not empty, [update] issues one statement, whatever the
    keys of the data are, and shapes what the store answers. *)
Lemma update_eq (d : Pg.db) (id : jsval) (data : obj) :
  data <> [] ->
  Job.update id data d
  = match Pg.run (Spec.update_statement data)
                 (map Pg.prepareValue (Spec.update_args id data))
                 (Pg.record_query (Spec.update_statement data)
                                  (Spec.update_args id data) d) with
    | (Pg.Rows [], d') =>
        (Throw (NotFoundError ("No job with id: " ++ ToString id)), d')
    | (Pg.Rows (job :: _), d') => (Return job, d')
    | (Pg.NoRows, d') => (Throw TypeError, d')
    | (Pg.Fault, d') => (Throw DbError, d')
    | (Pg.Beyond, d') => (Unknown, d')
    end.
Proof.
  intros Hd. unfold Job.update.
  rewrite (sqlForPartialUpdate_eq data [] (or_key [])) by auto.
  unfold bind, lift, query, query_result.
  cbn [Sql.values Sql.setCols].
  unfold Object_values. rewrite length_map.
  fold (Object_values data). fold (Spec.update_args id data).
  fold (Spec.update_statement data).
  destruct (Pg.run _ _ _) as [[rows| | |] d']; try reflexivity.
  destruct rows; reflexivity.
Qed.

Lemma update_empty (d : Pg.db) (id : jsval) :
  Job.update id [] d = (Throw (BadRequestError "No data"), d).
Proof. reflexivity. Qed.

Lemma all_some_map_some {A B : Type} (f : A -> option B) (g : A -> B)
      (l : list A) :
  (forall x, In x l -> f x = Some (g x)) ->
  Pg.all_some (map f l) = Some (map g l).
Proof.
  induction l as [|x l IH]; intros H; simpl; [reflexivity|].
  rewrite (H x) by (now left).
  rewrite IH by (intros y Hy; apply H; now right).
  reflexivity.
Qed.

(** Changes that leave the key and the reference alone, and that no row
    refuses, go through: the rows of the key are changed, the others stay. *)
Lemma exec_update_total (cols : list Pg.column) (changes : list Pg.change)
      (key : option Z) (g : Pg.job_row -> Pg.job_row) (d : Pg.db) :
  existsb (Pg.column_eqb Pg.Cid) cols = false ->
  existsb (Pg.column_eqb Pg.Ccompany_handle) cols = false ->
  (forall r, Pg.apply_changes r changes = Some (g r)) ->
  Pg.exec_update cols changes key d
  = (Pg.Rows (map Pg.job_obj (map g (filter (Pg.hit key) (Pg.jobs d)))),
     Pg.with_jobs d (map (fun r => if Pg.hit key r then g r else r) (Pg.jobs d))).
Proof.
  intros Hid Hch Hg. unfold Pg.exec_update.
  rewrite (all_some_map_some _
             (fun r => if Pg.hit key r then g r else r)).
  2:{ intros r _. destruct (Pg.hit key r); [apply Hg|reflexivity]. }
  rewrite (all_some_map_some _ g) by (intros r _; apply Hg).
  rewrite Hid, Hch. reflexivity.
Qed.

Lemma accepts_cases (k : string) (x : jsval) :
  Spec.accepts k x = true ->
  (k = "title" /\ exists s, Pg.prepareValue x = Some s)
  \/ (k = "salary" /\ exists z, Pg.read_integer (Pg.prepareValue x) = Some z)
  \/ (k = "equity" /\ exists q, Pg.read_numeric (Pg.prepareValue x) = Some q).
Proof.
  unfold Spec.accepts.
  destruct (String.eqb_spec k "title") as [->|_].
  { destruct (Pg.prepareValue x) as [s|]; [|discriminate].
    intros _. left. split; [reflexivity|]. now exists s. }
  destruct (String.eqb_spec k "salary") as [->|_].
  { destruct (Pg.read_integer (Pg.prepareValue x)) as [z|]; [|discriminate].
    intros _. right. left. split; [reflexivity|]. now exists z. }
  destruct (String.eqb_spec k "equity") as [->|_]; [|discriminate].
  destruct (Pg.read_numeric (Pg.prepareValue x)) as [q|]; [|discriminate].
  intros _. right. right. split; [reflexivity|]. now exists q.
Qed.

Ltac field_cases H :=
  apply accepts_cases in H;
  destruct H as [[-> [? H]]|[[-> [? H]]|[-> [? H]]]].



Ltac known_values :=
  repeat match goal with
         | H : Pg.prepareValue _ = _ |- _ => rewrite H
         | H : Pg.read_integer _ = _ |- _ => rewrite H
         | H : Pg.read_numeric _ = _ |- _ => rewrite H
         end.

Ltac plan_case :=
  unfold Pg.plan_update, Spec.update_args;
  lazy -[Pg.read_integer Pg.read_numeric Pg.prepareValue Pg.apply_changes
         Spec.patched];
  known_values;
  lazy -[Pg.read_integer Pg.read_numeric Pg.prepareValue Pg.apply_changes
         Spec.patched];
  eexists; eexists;
  split; [reflexivity|]; split; [reflexivity|]; split; [reflexivity|];
  intros r;
  unfold Spec.patched, Spec.stored_title, Spec.stored_salary,
    Spec.stored_equity;
  lazy -[Pg.read_integer Pg.read_numeric Pg.prepareValue];
  known_values; reflexivity.


Lemma distinct_cons {A : Type} (eqb : A -> A -> bool) (x : A) (l : list A) :
  Pg.distinct eqb (x :: l) = true ->
  existsb (eqb x) l = false /\ Pg.distinct eqb l = true.
Proof.
  cbn [Pg.distinct]. intros H. apply andb_true_iff in H.
  destruct H as [H1 H2]. apply negb_true_iff in H1. now split.
Qed.

Lemma existsb_cons_false {A : Type} (f : A -> bool) (y : A) (l : list A) :
  existsb f (y :: l) = false -> f y = false /\ existsb f l = false.
Proof. cbn [existsb]. intros H. now apply orb_false_iff in H. Qed.

Lemma distinct_four {A : Type} (eqb : A -> A -> bool) (a b c e : A)
      (l : list A) :
  Pg.distinct eqb (a :: b :: c :: e :: l) = true ->
  eqb a b = false /\ eqb a c = false /\ eqb a e = false
  /\ eqb b c = false /\ eqb b e = false /\ eqb c e = false.
Proof.
  intros H.
  apply distinct_cons in H. destruct H as [Ha H].
  apply distinct_cons in H. destruct H as [Hb H].
  apply distinct_cons in H. destruct H as [Hc _].
  apply existsb_cons_false in Ha. destruct Ha as [Hab Ha].
  apply existsb_cons_false in Ha. destruct Ha as [Hac Ha].
  apply existsb_cons_false in Ha. destruct Ha as [Hae _].
  apply existsb_cons_false in Hb. destruct Hb as [Hbc Hb].
  apply existsb_cons_false in Hb. destruct Hb as [Hbe _].
  apply existsb_cons_false in Hc. destruct Hc as [Hce _].
  repeat split; assumption.
Qed.

Lemma plan_update_valid (data : obj) (id : jsval) (v : Z) :
  Spec.denotes id v -> data <> [] -> Spec.update_data data = true ->
  exists cols changes,
    Pg.plan_update (Spec.set_clause_of data)
      ("$" ++ Text.decimal (Z.of_nat (List.length data) + 1))
      (map Pg.prepareValue (Spec.update_args id data))
    = Pg.Planned cols changes (Some v)
    /\ existsb (Pg.column_eqb Pg.Cid) cols = false
    /\ existsb (Pg.column_eqb Pg.Ccompany_handle) cols = false
    /\ forall r, Pg.apply_changes r changes = Some (Spec.patched data r).
Proof.
  intros Hid Hne Hdata. unfold Spec.denotes in Hid.
  unfold Spec.update_data in Hdata. apply andb_true_iff in Hdata.
  destruct Hdata as [Hdist Hacc].
  destruct data as [|[key1 val1] data]; [contradiction|]. clear Hne.
  cbn [forallb fst snd] in Hacc. apply andb_true_iff in Hacc.
  destruct Hacc as [A1 Hacc]. field_cases A1.
  all: destruct data as [|[key2 val2] data]; [plan_case|].
  all: cbn [forallb fst snd] in Hacc; apply andb_true_iff in Hacc;
    destruct Hacc as [A2 Hacc]; field_cases A2.
  all: destruct data as [|[key3 val3] data];
    [first [lazy in Hdist; discriminate Hdist | plan_case]|].
  all: cbn [forallb fst snd] in Hacc; apply andb_true_iff in Hacc;
    destruct Hacc as [A3 Hacc]; field_cases A3.
  all: destruct data as [|[key4 val4] data];
    [first [lazy in Hdist; discriminate Hdist | plan_case]|].
  all: cbn [forallb fst snd] in Hacc; apply andb_true_iff in Hacc;
    destruct Hacc as [A4 Hacc]; field_cases A4.
  all: apply distinct_four in Hdist; lazy in Hdist;
    destruct Hdist as (D1 & D2 & D3 & D4 & D5 & D6); discriminate.
Qed.

Lemma map_unless_hit {A : Type} (f : A -> bool) (g : A -> A) (l : list A) :
  filter f l = [] -> map (fun r => if f r then g r else r) l = l.
Proof.
  induction l as [|x l IH]; simpl; [reflexivity|].
  destruct (f x); [discriminate|].
  intros H. now rewrite IH.
Qed.

Lemma patched_nothing (r : Pg.job_row) : Spec.patched [] r = r.
Proof. now destruct r. Qed.

(** What the store does with the statement of [update] for data over
    title, salary and equity. *)
Lemma run_update_valid (d : Pg.db) (id : jsval) (v : Z) (data : obj) :
  Spec.denotes id v -> data <> [] -> Spec.update_data data = true ->
  Pg.run (Spec.update_statement data)
         (map Pg.prepareValue (Spec.update_args id data)) d
  = (Pg.Rows (map Pg.job_obj (map (Spec.patched data) (Pg.select_by_id v d))),
     Pg.with_jobs d
       (map (fun r => if Pg.id r =? v then Spec.patched data r else r)
            (Pg.jobs d))).
Proof.
  intros Hid Hne Hdata.
  destruct (plan_update_valid data id v Hid Hne Hdata)
    as (cols & changes & Hplan & Hcid & Hch & Hrows).
  unfold Spec.update_statement. cbn [Pg.run]. unfold Pg.run_update.
  rewrite Hplan.
  now rewrite (exec_update_total cols changes (Some v) (Spec.patched data)).
Qed.

Lemma update_valid (d : Pg.db) (id : jsval) (v : Z) (data : obj) :
  Spec.denotes id v -> data <> [] -> Spec.update_data data = true ->
  Job.update id data d
  = (match Pg.select_by_id v d with
     | [] => Throw (NotFoundError ("No job with id: " ++ ToString id))
     | j :: _ => Return (Pg.job_obj (Spec.patched data j))
     end,
     Pg.with_jobs
       (Pg.record_query (Spec.update_statement data)
                        (Spec.update_args id data) d)
       (map (fun r => if Pg.id r =? v then Spec.patched data r else r)
            (Pg.jobs d))).
Proof.
  intros Hid Hne Hdata. rewrite (update_eq d id data Hne).
  rewrite (run_update_valid _ id v data Hid Hne Hdata).
  unfold Pg.select_by_id. cbn [Pg.record_query Pg.jobs].
  destruct (filter (fun r => Pg.id r =? v) (Pg.jobs d)); reflexivity.
Qed.

(** C4, as the code has it.  [Job.update(id, {})] throws the bad request
    "No data" for every id, before any statement is issued, and leaves the
    state as it was.  For an id the store reads as the integer [v] and
    non-empty data over title, salary and equity with values the store
    takes: one UPDATE is issued, the id bound after the values as its last
    parameter and named by the last placeholder; when a job has that id the
    call returns the updated row, and when none has it the call throws
    not-found and the tables are as they were. *)
Theorem update_outcomes (d : Pg.db) (id : jsval) (data : obj) :
  Job.update id [] d = (Throw (BadRequestError "No data"), d)
  /\ forall v,
      Spec.denotes id v -> data <> [] -> Spec.update_data data = true ->
      Pg.issued (snd (Job.update id data d))
      = (Pg.issued d
         ++ [(Pg.UpdateJob
                (Spec.set_clause_of data)
                ("$" ++ Text.decimal
                          (Z.of_nat (List.length (Object_values data ++ [id])))),
              Object_values data ++ [id])])%list
      /\ (forall j js,
            Pg.select_by_id v d = j :: js ->
            fst (Job.update id data d)
            = Return (Pg.job_obj (Spec.patched data j)))
      /\ (Pg.select_by_id v d = [] ->
            fst (Job.update id data d)
            = Throw (NotFoundError ("No job with id: " ++ ToString id))
            /\ Spec.same_tables (snd (Job.update id data d)) d).
Proof.
  split; [reflexivity|].
  intros v Hid Hne Hdata. rewrite (update_valid d id v data Hid Hne Hdata).
  cbn [fst snd]. split; [|split].
  - cbn [Pg.with_jobs Pg.record_query Pg.issued].
    unfold Spec.update_statement, Spec.update_args, Object_values.
    rewrite length_app, length_map. cbn [List.length].
    now rewrite Nat2Z.inj_add.
  - intros j js Hj. now rewrite Hj.
  - intros Hno. rewrite Hno. split; [reflexivity|].
    unfold Spec.same_tables. cbn [Pg.with_jobs Pg.record_query Pg.jobs
                                    Pg.companies Pg.next_id].
    split; [|split; reflexivity].
    now apply (map_unless_hit (fun r => Pg.id r =? v)).
Qed.

(** The three tests of [update]: the fields of job 1 are set, job 0 is not
    found, and no data is a bad request. *)
Lemma update_outcomes_witness :
  fst (Job.update (VNum (int 1))
         [("title", VStr "Updated"); ("salary", VNum (int 200));
          ("equity", VStr "0.2")] Fixture.store)
  = Return [ ("id", VNum (int 1)); ("title", VStr "Updated");
             ("salary", VNum (int 200)); ("equity", VStr "0.2");
             ("companyHandle", VStr "c1") ]
  /\ fst (Job.update (VNum (int 0)) [("title", VStr "Updated")] Fixture.store)
     = Throw (NotFoundError "No job with id: 0")
  /\ Job.update (VNum (int 1)) [] Fixture.store
     = (Throw (BadRequestError "No data"), Fixture.store).
Proof.
  split; [|split].
  - destruct (update_outcomes Fixture.store (VNum (int 1))
                [("title", VStr "Updated"); ("salary", VNum (int 200));
                 ("equity", VStr "0.2")]) as [_ H].
    destruct (H 1 eq_refl) as (_ & Hfound & _).
    + discriminate.
    + reflexivity.
    + rewrite (Hfound Fixture.job1 [] eq_refl). reflexivity.
  - destruct (update_outcomes Fixture.store (VNum (int 0))
                [("title", VStr "Updated")]) as [_ H].
    destruct (H 0 eq_refl) as (_ & _ & Hnone).
    + discriminate.
    + reflexivity.
    + destruct (Hnone eq_refl) as [Hthrow _]. rewrite Hthrow. reflexivity.
  - destruct (update_outcomes Fixture.store (VNum (int 1)) []) as [H _].
    exact H.
Defined.

(** C4 as it is written fails for data outside title, salary and equity:
    the fixture has a job 1 and no job 0, and with the data
    [{companyHandle: "c2"}] neither call ends as the claim says; the store
    has no column of that name and its error is thrown on. *)
Lemma update_unknown_column_counterexample :
  Pg.select_by_id 1 Fixture.store <> []
  /\ fst (Job.update (VNum (int 1)) [("companyHandle", VStr "c2")] Fixture.store)
     = Throw DbError
  /\ Pg.select_by_id 0 Fixture.store = []
  /\ fst (Job.update (VNum (int 0)) [("companyHandle", VStr "c2")] Fixture.store)
     = Throw DbError.
Proof.
  split; [discriminate|]. split; [reflexivity|]. split; reflexivity.
Qed.

(** C6.  For an id the store reads as the integer [v], an existing job of
    that id and data over title, salary and equity: after
    [Job.update(id, data)] the rows of that id are patched and every other
    row, and the companies, are as before; a patched row keeps its id and
    its company handle and every field the data does not name; a null
    supplied for salary or equity is stored as null, while a field left out
    keeps its value; the data not being empty, the call returns the
    patched row as the store holds it, nulls included; and a text supplied
    for title, or an integer (of at most 21 digits) for salary, is what the
    patched row holds. *)
Theorem update_changes_only_supplied_fields
        (d : Pg.db) (id : jsval) (v : Z) (data : obj)
        (j : Pg.job_row) (js : list Pg.job_row) :
  Spec.denotes id v ->
  Spec.update_data data = true ->
  Pg.select_by_id v d = j :: js ->
  (Pg.jobs (snd (Job.update id data d))
   = map (fun r => if Pg.id r =? v then Spec.patched data r else r) (Pg.jobs d)
   /\ Pg.companies (snd (Job.update id data d)) = Pg.companies d)
  /\ (forall r,
        Pg.id (Spec.patched data r) = Pg.id r
        /\ Pg.company_handle (Spec.patched data r) = Pg.company_handle r
        /\ (own data "title" = None ->
            Pg.title (Spec.patched data r) = Pg.title r)
        /\ (own data "salary" = None ->
            Pg.salary (Spec.patched data r) = Pg.salary r)
        /\ (own data "equity" = None ->
            Pg.equity (Spec.patched data r) = Pg.equity r))
  /\ (forall r,
        (own data "salary" = Some VNull ->
         Pg.salary (Spec.patched data r) = None
         /\ prop (Pg.job_obj (Spec.patched data r)) "salary" = VNull)
        /\ (own data "equity" = Some VNull ->
            Pg.equity (Spec.patched data r) = None
            /\ prop (Pg.job_obj (Spec.patched data r)) "equity" = VNull))
  /\ (data <> [] ->
      fst (Job.update id data d) = Return (Pg.job_obj (Spec.patched data j))
      /\ In (Spec.patched data j) (Pg.jobs (snd (Job.update id data d))))
  /\ (forall r text,
        own data "title" = Some (VStr text) ->
        Pg.title (Spec.patched data r) = text)
  /\ (forall r z,
        own data "salary" = Some (VNum (int z)) ->
        (String.length (Text.decimal (Z.abs z)) <= 21)%nat ->
        Pg.salary (Spec.patched data r) = Some z).
Proof.
  intros Hid Hdata Hj.
  assert (Hjin : (Pg.id j =? v) = true /\ In j (Pg.jobs d)).
  { unfold Pg.select_by_id in Hj. now apply filter_head in Hj. }
  split; [|split; [|split; [|split; [|split]]]].
  - destruct data as [|kv data].
    + rewrite update_empty. cbn [snd]. split; [|reflexivity].
      rewrite <- (map_id (Pg.jobs d)) at 1. apply map_ext. intros r.
      rewrite patched_nothing. now destruct (Pg.id r =? v).
    + rewrite (update_valid d id v (kv :: data) Hid) by (auto; discriminate).
      split; reflexivity.
  - intros r. unfold Spec.patched. cbn [Pg.id Pg.company_handle Pg.title
                                          Pg.salary Pg.equity].
    repeat split; intros ->; reflexivity.
  - intros r. unfold Spec.patched. split; intros ->; split; reflexivity.
  - intros Hne. rewrite (update_valid d id v data Hid Hne Hdata).
    rewrite Hj. cbn [fst snd Pg.with_jobs Pg.jobs]. split; [reflexivity|].
    apply in_map_iff. exists j. destruct Hjin as [Hv Hin].
    rewrite Hv. now split.
  - intros r text E. unfold Spec.patched. cbn [Pg.title]. now rewrite E.
  - intros r z E Hlen. unfold Spec.patched. cbn [Pg.salary]. rewrite E.
    unfold Spec.stored_salary.
    destruct (denotes_text_or_number z) as [_ Hnum].
    now rewrite (Hnum Hlen).
Qed.

(** The test "works: null fields": the title of job 1 is set, its salary
    and equity are cleared, its id and company handle stay, and job 2 is
    untouched. *)
Lemma update_changes_only_supplied_fields_witness :
  fst (Job.update (VNum (int 1))
         [("title", VStr "Updated"); ("salary", VNull); ("equity", VNull)]
         Fixture.store)
  = Return [ ("id", VNum (int 1)); ("title", VStr "Updated");
             ("salary", VNull); ("equity", VNull);
             ("companyHandle", VStr "c1") ]
  /\ Pg.jobs
       (snd (Job.update (VNum (int 1))
               [("title", VStr "Updated"); ("salary", VNull); ("equity", VNull)]
               Fixture.store))
     = [ {| Pg.id := 1; Pg.title := "Updated"; Pg.salary := None;
            Pg.equity := None; Pg.company_handle := "c1" |};
         Fixture.job2 ].
Proof.
  destruct (update_changes_only_supplied_fields Fixture.store (VNum (int 1)) 1
              [("title", VStr "Updated"); ("salary", VNull); ("equity", VNull)]
              Fixture.job1 [] eq_refl eq_refl eq_refl)
    as ((Hjobs & _) & _ & _ & Hret & _).
  destruct Hret as [Hret _]; [discriminate|].
  split; [exact Hret | exact Hjobs].
Defined.

(** C6 as it is written fails for data the store does not take: job 1
    is there and the data is over title, but the null supplied for the
    title is not persisted and no object is returned; the store's error
    is thrown and the row is as it was.  The same holds for a salary that
    is no integer. *)
Lemma update_changes_only_supplied_fields_counterexample :
  Pg.select_by_id 1 Fixture.store = [Fixture.job1]
  /\ fst (Job.update (VNum (int 1)) [("title", VNull)] Fixture.store)
     = Throw DbError
  /\ Pg.jobs (snd (Job.update (VNum (int 1)) [("title", VNull)] Fixture.store))
     = [Fixture.job1; Fixture.job2]
  /\ fst (Job.update (VNum (int 1)) [("salary", VStr "high")] Fixture.store)
     = Throw DbError.
Proof. repeat split. Qed.

Lemma run_keeps_issued (st : Pg.statement) (ps : list (option string))
      (d : Pg.db) :
  Pg.issued (snd (Pg.run st ps d)) = Pg.issued d.
Proof.
  unfold Pg.run, Pg.run_insert, Pg.run_update, Pg.exec_update, Pg.run_where,
    Pg.consult.
  repeat match goal with
         | |- context [match ?x with _ => _ end] => destruct x
         | |- context [let (_, _) := ?x in _] => destruct x
         end; reflexivity.
Qed.

(** Whatever the keys of non-empty data are, [update] issues its one
    statement over them: no key is turned down before the store sees it. *)
Lemma update_issues (d : Pg.db) (id : jsval) (data : obj) :
  data <> [] ->
  Pg.issued (snd (Job.update id data d))
  = (Pg.issued d
     ++ [(Spec.update_statement data, Spec.update_args id data)])%list.
Proof.
  intros Hne. rewrite (update_eq d id data Hne).
  pose proof (run_keeps_issued (Spec.update_statement data)
                (map Pg.prepareValue (Spec.update_args id data))
                (Pg.record_query (Spec.update_statement data)
                   (Spec.update_args id data) d)) as H.
  destruct (Pg.run _ _ _) as [[rows| | |] d']; cbn [snd] in *;
    try destruct rows; cbn [snd]; exact H.
Qed.

(** A key that is not the name of an inherited member is written as it is,
    between double quotes, as the column of its fragment. *)
Lemma update_names_columns_verbatim (data : obj) :
  (forall k, In k (Object_keys data) -> inherited k = None) ->
  Spec.set_clause_of data = Spec.set_clause (fun k => k) data.
Proof.
  intros H. unfold Spec.set_clause_of, Spec.set_clause. f_equal.
  generalize 1. induction data as [|[k x] data IH]; intros i; simpl.
  - reflexivity.
  - unfold or_key at 1. cbn [own]. rewrite (H k) by (now left).
    f_equal. apply IH. intros k' Hk'. apply H. now right.
Qed.

(** C10 at the failing input.  The key [constructor] is not written as it
    is: the lookup in the empty alias mapping finds the member every object
    inherits under that name, and its text becomes the column. *)
Theorem update_inherited_name_not_verbatim :
  Sql.sqlForPartialUpdate [("constructor", VStr "x")] []
  = Return
      {| Sql.setCols :=
           Sql.quote ++ "function Object() { [native code] }" ++ Sql.quote
           ++ "=$1";
         Sql.values := [VStr "x"] |}
  /\ Spec.set_clause (fun k => k) [("constructor", VStr "x")]
     = Sql.quote ++ "constructor" ++ Sql.quote ++ "=$1"
  /\ Pg.issued
       (snd (Job.update (VNum (int 1)) [("constructor", VStr "x")]
               Fixture.store))
     = [ (Pg.UpdateJob
            (Sql.quote ++ "function Object() { [native code] }" ++ Sql.quote
             ++ "=$1")
            "$2",
          [VStr "x"; VNum (int 1)]) ].
Proof. repeat split. Qed.


(* ----------------------------------------------------------------- *)
(** ** Job.findFiltered *)

Lemma map_throw_app {A B : Type} (f : A -> outcome B) (l1 l2 : list A) :
  map_throw f (l1 ++ l2)
  = match map_throw f l1 with
    | Return a =>
        match map_throw f l2 with
        | Return b => Return (a ++ b)%list
        | Throw e => Throw e
        | Unknown => Unknown
        end
    | Throw e => Throw e
    | Unknown => Unknown
    end.
Proof.
  induction l1 as [|x l1 IH]; simpl.
  - destruct (map_throw f l2); reflexivity.
  - destruct (f x); try reflexivity. rewrite IH.
    destruct (map_throw f l1); try reflexivity.
    destruct (map_throw f l2); reflexivity.
Qed.

Lemma where_of_known (filterBy : obj) (k : string) :
  Job.where_of filterBy k <> Unknown.
Proof.
  unfold Job.where_of, Job.case_title.
  repeat match goal with
         | |- context [if ?b then _ else _] => destruct b
         | |- context [match ?x with _ => _ end] => destruct x
         end; discriminate.
Qed.

Lemma map_throw_known (filterBy : obj) (keys : list string) :
  map_throw (Job.where_of filterBy) keys <> Unknown.
Proof.
  induction keys as [|k keys IH]; simpl; [discriminate|].
  pose proof (where_of_known filterBy k) as Hk.
  destruct (Job.where_of filterBy k); try congruence.
  destruct (map_throw (Job.where_of filterBy) keys); congruence.
Qed.

(** A throw of [keys.map] is the throw of the callback at one of the
    keys. *)
Lemma map_throw_source {A B : Type} (f : A -> outcome B) (l : list A)
      (e : error) :
  map_throw f l = Throw e -> exists x, In x l /\ f x = Throw e.
Proof.
  induction l as [|x l IH]; simpl; [discriminate|].
  destruct (f x) eqn:Ex.
  - destruct (map_throw f l); try discriminate.
    intros H. destruct (IH H) as (y & Hy & Ey). exists y. split; auto.
  - intros H. exists x. split; [now left|congruence].
  - discriminate.
Qed.


Lemma findFiltered_eq (d : Pg.db) (filterBy : obj) :
  filterBy <> [] ->
  Job.findFiltered filterBy d
  = match map_throw (Job.where_of filterBy) (Object_keys filterBy) with
    | Return whereQuery =>
        match Pg.run_where (Text.join " AND " whereQuery)
                (Spec.asked (Text.join " AND " whereQuery) d) with
        | (Pg.Rows rows, d') => (Return rows, d')
        | (Pg.NoRows, d') =>
            (Throw (BadRequestError Job.filtering_error), d')
        | (Pg.Fault, d') => (Throw DbError, d')
        | (Pg.Beyond, d') => (Unknown, d')
        end
    | Throw e => (Throw e, d)
    | Unknown => (Unknown, d)
    end.
Proof.
  intros Hne. unfold Job.findFiltered.
  destruct filterBy as [|kv filterBy]; [contradiction|].
  cbn [Object_keys map List.length Nat.eqb].
  unfold bind, lift.
  destruct (map_throw _ _); try reflexivity.
  unfold query_result, Spec.asked. cbn [map Pg.run].
  now destruct (Pg.run_where _ _) as [[rows| | |] d'].
Qed.

(** A clause of conjuncts over the jobs is answered from the jobs, and
    nothing is written. *)
Lemma run_where_read (clause : string) (cs : list Pg.cond) (d : Pg.db) :
  Pg.read_where clause = Some cs ->
  forallb Pg.cond_known cs = true -> forallb Pg.cond_ok cs = true ->
  Pg.run_where clause d
  = (Pg.Rows (map Pg.job_obj
                (Pg.order_by_title d (filter (Pg.all_hold cs) (Pg.jobs d)))),
     d).
Proof.
  intros Hread Hknown Hok. unfold Pg.run_where.
  now rewrite Hread, Hknown, Hok.
Qed.

(** A clause that is not left to the store is answered or refused, and
    nothing is written. *)
Lemma run_where_own (clause : string) (d : Pg.db) :
  Spec.unread clause = false ->
  snd (Pg.run_where clause d) = d
  /\ fst (Pg.run_where clause d) <> Pg.NoRows
  /\ fst (Pg.run_where clause d) <> Pg.Beyond.
Proof.
  unfold Spec.unread, Pg.run_where.
  destruct (Pg.read_where clause) as [cs|]; [|discriminate].
  destruct (forallb Pg.cond_known cs); cbn [negb andb];
    [|intros _; repeat split; discriminate].
  destruct (forallb Pg.cond_ok cs); [|discriminate].
  intros _. repeat split; discriminate.
Qed.







Lemma keys_not_empty (filterBy : obj) (before after : list string) (k : string) :
  Object_keys filterBy = (before ++ k :: after)%list -> filterBy <> [].
Proof. intros H ->. now destruct before. Qed.




Lemma hasEquity_true_conjunct (filterBy : obj) :
  prop filterBy "hasEquity" = VBool true ->
  Job.where_of filterBy "hasEquity" = Return "equity > 0".
Proof. unfold Job.where_of. cbn [String.eqb Ascii.eqb Bool.eqb]. now intros ->. Qed.

(** A value of hasEquity other than [true] runs into the case of title. *)
Lemma hasEquity_falls_through (filterBy : obj) :
  prop filterBy "hasEquity" <> VBool true ->
  Job.where_of filterBy "hasEquity" = Job.case_title filterBy "hasEquity".
Proof.
  unfold Job.where_of. cbn [String.eqb Ascii.eqb Bool.eqb]. intros H.
  destruct (prop filterBy "hasEquity") as [| |[|]| |]; try reflexivity.
  now contradiction H.
Qed.

Lemma holds_equity (r : Pg.job_row) :
  Pg.all_hold [Pg.EquityPos] r = Spec.equity_positive r.
Proof.
  unfold Pg.all_hold, Spec.equity_positive. cbn [forallb Pg.holds].
  now rewrite andb_true_r.
Qed.

Lemma findFiltered_hasEquity_true (d : Pg.db) :
  Job.findFiltered [("hasEquity", VBool true)] d
  = (Return (map Pg.job_obj
               (Pg.order_by_title
                  (Pg.record_query (Pg.SelectJobsWhere "equity > 0") [] d)
                  (filter Spec.equity_positive (Pg.jobs d)))),
     Pg.record_query (Pg.SelectJobsWhere "equity > 0") [] d).
Proof.
  rewrite findFiltered_eq by discriminate.
  change (map_throw (Job.where_of [("hasEquity", VBool true)])
            (Object_keys [("hasEquity", VBool true)]))
    with (@Return (list string) ["equity > 0"]).
  cbn [Text.join].
  rewrite (run_where_read "equity > 0" [Pg.EquityPos] _ eq_refl eq_refl
             eq_refl).
  unfold Spec.asked. do 4 f_equal.
  apply filter_ext. intros r. apply holds_equity.
Qed.

(** C1: what holds, and the failing inputs.  With the value [true] alone
    the WHERE clause is [equity > 0] and the result is exactly the jobs
    with a positive equity, in the order in which the store hands them
    over for ORDER BY title.  With the value [false] next
    to a minSalary the key does not drop out: the switch runs into the case
    of title and the call ends in a TypeError, while the same filter
    without hasEquity returns job 2.  The truthy text "true" and the falsy
    empty text write a LIKE conjunct on the title. *)
Theorem findFiltered_hasEquity :
  (forall d,
     Job.findFiltered [("hasEquity", VBool true)] d
     = (Return (map Pg.job_obj
                  (Pg.order_by_title
                     (Pg.record_query (Pg.SelectJobsWhere "equity > 0") [] d)
                     (filter Spec.equity_positive (Pg.jobs d)))),
        Pg.record_query (Pg.SelectJobsWhere "equity > 0") [] d))
  /\ fst (Job.findFiltered
            [("minSalary", VNum (int 200)); ("hasEquity", VBool false)]
            Fixture.store)
     = Throw TypeError
  /\ fst (Job.findFiltered [("minSalary", VNum (int 200))] Fixture.store)
     = Return [Pg.job_obj Fixture.job2]
  /\ Job.findFiltered [("hasEquity", VStr "true")] Fixture.store
     = (Return [],
        Pg.record_query (Pg.SelectJobsWhere "LOWER(title) LIKE '%true%'") []
          Fixture.store)
  /\ Pg.issued
       (snd (Job.findFiltered
               [("minSalary", VNum (int 200)); ("hasEquity", VStr "")]
               Fixture.store))
     = [ (Pg.SelectJobsWhere "salary >= 200 AND LOWER(title) LIKE '%%'", []) ].
Proof.
  split; [exact findFiltered_hasEquity_true|]. repeat split.
Qed.


(* ================================================================= *)
(** ** What the calls leave in the store *)

Lemma same_tables_refl (d : Pg.db) : Spec.same_tables d d.
Proof. now repeat split. Qed.

Lemma same_tables_issued (d : Pg.db) (st : Pg.statement) (args : list jsval) :
  Spec.same_tables (Pg.record_query st args d) d.
Proof. now repeat split. Qed.

Lemma same_tables_trans (a b c : Pg.db) :
  Spec.same_tables a b -> Spec.same_tables b c -> Spec.same_tables a c.
Proof.
  intros (H1 & H2 & H3) (H4 & H5 & H6).
  repeat split; etransitivity; eassumption.
Qed.

Lemma all_some_nil {A : Type} (l : list (option A)) :
  Pg.all_some l = Some [] -> l = [].
Proof.
  destruct l as [|[x|] rest]; [reflexivity| |discriminate].
  cbn [Pg.all_some]. destruct (Pg.all_some rest); discriminate.
Qed.

(** An UPDATE that comes back without a row has changed none. *)
Lemma exec_update_miss (cols : list Pg.column) (changes : list Pg.change)
      (key : option Z) (d d' : Pg.db) :
  Pg.exec_update cols changes key d = (Pg.Rows [], d') ->
  Spec.same_tables d' d.
Proof.
  unfold Pg.exec_update.
  destruct (Pg.all_some (map _ (Pg.jobs d))) as [table|] eqn:Htable;
    [|intros H; inversion H].
  destruct (Pg.all_some (map _ (filter _ _))) as [updated|] eqn:Hupd;
    [|intros H; inversion H].
  destruct (_ && _); intros H; inversion H as [[Hrows Hd']].
  destruct updated; [|discriminate Hrows].
  apply all_some_nil in Hupd. apply map_eq_nil in Hupd.
  rewrite (all_some_map_some _ (fun r => r)) in Htable.
  - rewrite map_id in Htable. injection Htable as <-. now repeat split.
  - intros r Hr. destruct (Pg.hit key r) eqn:Hhit; [|reflexivity].
    assert (Hin : In r (filter (Pg.hit key) (Pg.jobs d)))
      by (apply filter_In; now split).
    rewrite Hupd in Hin. destruct Hin.
Qed.

(** An UPDATE the store plans itself answers with rows or refuses, and
    changes nothing unless it answers with a row. *)
Lemma exec_update_ends (cols : list Pg.column) (changes : list Pg.change)
      (key : option Z) (d : Pg.db) :
  match Pg.exec_update cols changes key d with
  | (Pg.Rows (_ :: _), _) => True
  | (Pg.Rows [], d') | (Pg.Fault, d') => Spec.same_tables d' d
  | (Pg.NoRows, _) | (Pg.Beyond, _) => False
  end.
Proof.
  destruct (Pg.exec_update cols changes key d) as [r d'] eqn:H.
  destruct r as [[|row rows]| | |]; [|exact I| | |].
  - eapply exec_update_miss, H.
  - unfold Pg.exec_update in H.
    destruct (Pg.all_some _); [|inversion H].
    destruct (Pg.all_some _); [|inversion H].
    destruct (_ && _); inversion H.
  - unfold Pg.exec_update in H.
    destruct (Pg.all_some _); [|inversion H; apply same_tables_refl].
    destruct (Pg.all_some _); [|inversion H; apply same_tables_refl].
    destruct (_ && _); inversion H. apply same_tables_refl.
  - unfold Pg.exec_update in H.
    destruct (Pg.all_some _); [|inversion H].
    destruct (Pg.all_some _); [|inversion H].
    destruct (_ && _); inversion H.
Qed.

(* ================================================================= *)
(** ** Job.create *)

(** The three ways the INSERT of [create] can go: a row is stored; the
    parameters are refused before the statement runs; the statement runs,
    draws the next id and is refused. *)
Lemma create_cases (d : Pg.db) (data : obj) :
  let asked := Pg.record_query Pg.InsertJob (Laws.create_args data) d in
  (exists r,
      Laws.created data (Pg.next_id d) r
      /\ Pg.has_company d (Pg.company_handle r) = true
      /\ Laws.fresh d = true
      /\ Job.create data d
         = (Return (Some (Pg.job_obj r)), Laws.inserted asked r))
  \/ Job.create data d = (Throw DbError, asked)
  \/ Job.create data d = (Throw DbError, Laws.drawn asked).
Proof.
  cbv zeta. unfold Job.create, bind, query, query_result. cbn [Pg.run map].
  unfold Pg.run_insert, Laws.create_args. cbn [map].
  destruct (Pg.read_integer (Pg.prepareValue (prop data "salary")))
    as [s|] eqn:Hs; [|right; now left].
  destruct (Pg.read_numeric (Pg.prepareValue (prop data "equity")))
    as [e|] eqn:He; [|right; now left].
  destruct (Pg.prepareValue (prop data "title")) as [t|] eqn:Ht;
    [|right; now right].
  destruct (Pg.prepareValue (prop data "companyHandle")) as [c|] eqn:Hc;
    [|right; now right].
  destruct (Pg.has_company _ c) eqn:Hcompany; [|right; now right].
  destruct (forallb _ _) eqn:Hfresh; [|right; now right].
  left. exists {| Pg.id := Pg.next_id d; Pg.title := t; Pg.salary := s;
                  Pg.equity := e; Pg.company_handle := c |}.
  now repeat split.
Qed.

Lemma create_eq (d : Pg.db) (data : obj) (r : Pg.job_row) :
  Laws.created data (Pg.next_id d) r ->
  Pg.has_company d (Pg.company_handle r) = true ->
  Laws.fresh d = true ->
  Job.create data d
  = (Return (Some (Pg.job_obj r)),
     Laws.inserted (Pg.record_query Pg.InsertJob (Laws.create_args data) d) r).
Proof.
  intros (Ht & Hs & He & Hc & Hid) Hcompany Hfresh.
  unfold Job.create, bind, query, query_result. cbn [Pg.run map].
  unfold Pg.run_insert. rewrite Ht, Hs, He, Hc.
  replace (Pg.has_company (Pg.record_query _ _ d) _) with true
    by (symmetry; exact Hcompany).
  replace (forallb _ (Pg.jobs (Pg.record_query _ _ d))) with true
    by (symmetry; exact Hfresh).
  cbn [Pg.next_id Pg.record_query andb]. destruct r as [i t s e c].
  cbn [Pg.id] in Hid. subst i. reflexivity.
Qed.

(** A row the store would take, sent for a company that is not there,
    is refused after the id is drawn. *)
Lemma create_refused (d : Pg.db) (data : obj) (r : Pg.job_row) :
  Laws.created data (Pg.next_id d) r ->
  Pg.has_company d (Pg.company_handle r) = false ->
  Job.create data d
  = (Throw DbError,
     Laws.drawn (Pg.record_query Pg.InsertJob (Laws.create_args data) d)).
Proof.
  intros (Ht & Hs & He & Hc & Hid) Hcompany.
  unfold Job.create, bind, query, query_result. cbn [Pg.run map].
  unfold Pg.run_insert. rewrite Ht, Hs, He, Hc.
  replace (Pg.has_company (Pg.record_query _ _ d) _) with false
    by (symmetry; exact Hcompany).
  reflexivity.
Qed.

(** X3.  [create] stores what it is given and validates nothing itself.
    In a store where no job has the next id of the sequence yet, when
    the store takes the four fields (a title and a company handle that
    are there, a salary read as an integer or null, an equity read as a
    decimal or null) and has the company, the call returns the new row,
    the row is added after the others under that id and the sequence
    moves on.  Whatever the data, the call throws nothing but the
    store's error, and never returns without a row.  A row sent for a
    company that is not there is refused after its id is drawn: the
    sequence has moved on although no row was added. *)
Theorem create_stores_or_fails (d : Pg.db) (data : obj) :
  (forall r,
      Laws.created data (Pg.next_id d) r ->
      Pg.has_company d (Pg.company_handle r) = true ->
      Laws.fresh d = true ->
      Job.create data d
      = (Return (Some (Pg.job_obj r)),
         Laws.inserted
           (Pg.record_query Pg.InsertJob (Laws.create_args data) d) r))
  /\ (forall r,
        Laws.created data (Pg.next_id d) r ->
        Pg.has_company d (Pg.company_handle r) = false ->
        Job.create data d
        = (Throw DbError,
           Laws.drawn
             (Pg.record_query Pg.InsertJob (Laws.create_args data) d)))
  /\ (forall e, fst (Job.create data d) = Throw e -> e = DbError)
  /\ fst (Job.create data d) <> Return None
  /\ fst (Job.create data d) <> Unknown.
Proof.
  split; [|split; [|split; [|split]]].
  - intros r. apply create_eq.
  - intros r. apply create_refused.
  - intros e.
    destruct (create_cases d data) as [(r & _ & _ & _ & ->)|[-> | ->]];
      cbn [fst]; [discriminate|now intros [= <-] ..].
  - destruct (create_cases d data) as [(r & _ & _ & _ & ->)|[-> | ->]];
      discriminate.
  - destruct (create_cases d data) as [(r & _ & _ & _ & ->)|[-> | ->]];
      discriminate.
Qed.

Lemma create_stores_or_fails_witness :
  Job.create [("title", VStr "new"); ("salary", VNum (int 200));
              ("equity", VStr "0.2"); ("companyHandle", VStr "c1")]
             Fixture.store
  = (Return (Some [("id", VNum (int 3)); ("title", VStr "new");
                   ("salary", VNum (int 200)); ("equity", VStr "0.2");
                   ("companyHandle", VStr "c1")]),
     Laws.inserted
       (Pg.record_query Pg.InsertJob
          [VStr "new"; VNum (int 200); VStr "0.2"; VStr "c1"] Fixture.store)
       {| Pg.id := 3; Pg.title := "new"; Pg.salary := Some 200;
          Pg.equity := Some {| Pg.unscaled := 2; Pg.scale := 1 |};
          Pg.company_handle := "c1" |})
  /\ Pg.next_id
       (snd (Job.create [("title", VStr "new"); ("companyHandle", VStr "no")]
               Fixture.store))
     = 4.
Proof.
  split.
  - apply (proj1 (create_stores_or_fails Fixture.store
                    [("title", VStr "new"); ("salary", VNum (int 200));
                     ("equity", VStr "0.2"); ("companyHandle", VStr "c1")])
             {| Pg.id := 3; Pg.title := "new"; Pg.salary := Some 200;
                Pg.equity := Some {| Pg.unscaled := 2; Pg.scale := 1 |};
                Pg.company_handle := "c1" |}).
    + repeat split.
    + reflexivity.
    + reflexivity.
  - rewrite (proj1 (proj2 (create_stores_or_fails Fixture.store
                             [("title", VStr "new");
                              ("companyHandle", VStr "no")]))
               {| Pg.id := 3; Pg.title := "new"; Pg.salary := None;
                  Pg.equity := None; Pg.company_handle := "no" |}).
    + reflexivity.
    + repeat split.
    + reflexivity.
Defined.

Lemma fresh_none (d : Pg.db) :
  Laws.fresh d = true ->
  filter (fun r => Pg.id r =? Pg.next_id d) (Pg.jobs d) = []
  /\ filter (fun r => negb (Pg.id r =? Pg.next_id d)) (Pg.jobs d) = Pg.jobs d.
Proof.
  unfold Laws.fresh. induction (Pg.jobs d) as [|x l IH]; [now split|].
  cbn [forallb filter]. intros H. apply andb_prop in H as [Hx Hl].
  destruct (IH Hl) as [IH1 IH2]. rewrite Hx, IH1, IH2.
  now destruct (Pg.id x =? Pg.next_id d).
Qed.

Lemma select_company_has (d : Pg.db) (h : string) (c : Pg.company_row)
      (cs : list Pg.company_row) :
  Pg.select_company h d = c :: cs -> Pg.has_company d h = true.
Proof.
  intros H. apply filter_head in H as [Hc Hin].
  unfold Pg.has_company. apply existsb_exists. now exists c.
Qed.

(** X4.  What [create] stores, [get] gives back.  In a store where no job
    has the next id of the sequence yet, after [create(data)] has stored
    the row [r] for a company [c] of the store, [get] with the new id
    returns that row with the company under the key company. *)
Theorem create_then_get (d : Pg.db) (data : obj) (r : Pg.job_row)
        (c : Pg.company_row) (cs : list Pg.company_row) (id : jsval) :
  Laws.created data (Pg.next_id d) r ->
  Pg.select_company (Pg.company_handle r) d = c :: cs ->
  Laws.fresh d = true ->
  Spec.denotes id (Pg.next_id d) ->
  fst (Job.create data d) = Return (Some (Pg.job_obj r))
  /\ fst (Job.get id (snd (Job.create data d)))
     = Return (Spec.job_with_company r c).
Proof.
  intros Hcreated Hc Hfresh Hid.
  rewrite (create_eq d data r Hcreated (select_company_has _ _ _ _ Hc) Hfresh).
  split; [reflexivity|]. cbn [snd]. rewrite (get_eq _ id _ Hid).
  unfold Pg.select_by_id, Laws.inserted, Pg.with_content.
  cbn [Pg.jobs Pg.record_query fst snd].
  rewrite filter_app, (proj1 (fresh_none d Hfresh)). cbn [filter Datatypes.app].
  destruct Hcreated as (_ & _ & _ & _ & Hr). rewrite Hr, Z.eqb_refl.
  cbn [Datatypes.app fst]. unfold Pg.select_company in *.
  cbn [Pg.companies Pg.record_query]. rewrite Hc.
  reflexivity.
Qed.

Lemma create_then_get_witness :
  let data := [("title", VStr "new"); ("salary", VNull);
               ("companyHandle", VStr "c2")] in
  fst (Job.get (VNum (int 3)) (snd (Job.create data Fixture.store)))
  = Return [ ("id", Prim (VNum (int 3))); ("title", Prim (VStr "new"));
             ("salary", Prim VNull); ("equity", Prim VNull);
             ("company", Object (Pg.company_obj Fixture.c2)) ].
Proof.
  apply (create_then_get Fixture.store
           [("title", VStr "new"); ("salary", VNull);
            ("companyHandle", VStr "c2")]
           {| Pg.id := 3; Pg.title := "new"; Pg.salary := None;
              Pg.equity := None; Pg.company_handle := "c2" |}
           Fixture.c2 [] (VNum (int 3))).
  - repeat split.
  - reflexivity.
  - reflexivity.
  - reflexivity.
Defined.

(** X5.  [remove] undoes [create].  In a store where no job has the next
    id of the sequence yet, removing the job just created returns, and
    leaves the jobs and the companies as they were before the creation;
    the id is spent, the sequence stays moved on. *)
Theorem create_then_remove (d : Pg.db) (data : obj) (r : Pg.job_row)
        (id : jsval) :
  Laws.created data (Pg.next_id d) r ->
  Pg.has_company d (Pg.company_handle r) = true ->
  Laws.fresh d = true ->
  Spec.denotes id (Pg.next_id d) ->
  let after := snd (Job.remove id (snd (Job.create data d))) in
  fst (Job.remove id (snd (Job.create data d))) = Return tt
  /\ Pg.jobs after = Pg.jobs d
  /\ Pg.companies after = Pg.companies d
  /\ Pg.next_id after = Pg.next_id d + 1.
Proof.
  intros Hcreated Hc Hfresh Hid. cbv zeta.
  rewrite (create_eq d data r Hcreated Hc Hfresh). cbn [snd].
  rewrite (remove_eq _ id _ Hid).
  unfold Pg.select_by_id, Laws.inserted, Pg.with_content.
  cbn [Pg.jobs Pg.record_query fst snd].
  rewrite !filter_app, (proj1 (fresh_none d Hfresh)),
    (proj2 (fresh_none d Hfresh)).
  cbn [filter Datatypes.app].
  destruct Hcreated as (_ & _ & _ & _ & Hr). rewrite Hr, Z.eqb_refl.
  cbn [negb]. rewrite app_nil_r. now repeat split.
Qed.

Lemma create_then_remove_witness :
  let data := [("title", VStr "new"); ("companyHandle", VStr "c2")] in
  Pg.jobs (snd (Job.remove (VStr "3") (snd (Job.create data Fixture.store))))
  = Pg.jobs Fixture.store.
Proof.
  apply (create_then_remove Fixture.store
           [("title", VStr "new"); ("companyHandle", VStr "c2")]
           {| Pg.id := 3; Pg.title := "new"; Pg.salary := None;
              Pg.equity := None; Pg.company_handle := "c2" |}
           (VStr "3")).
  - repeat split.
  - reflexivity.
  - reflexivity.
  - reflexivity.
Defined.


(* ================================================================= *)
(** ** One call after another *)

Lemma filter_other_id (v v' : Z) (l : list Pg.job_row) :
  v' <> v ->
  filter (fun r => Pg.id r =? v') (filter (fun r => negb (Pg.id r =? v)) l)
  = filter (fun r => Pg.id r =? v') l.
Proof.
  intros Hv. induction l as [|x l IH]; [reflexivity|]. cbn [filter].
  destruct (Pg.id x =? v) eqn:Hx; cbn [negb filter]; rewrite IH;
    [|reflexivity].
  apply Z.eqb_eq in Hx. destruct (Z.eqb_spec (Pg.id x) v'); [lia|reflexivity].
Qed.

(** What [get] returns depends on the jobs of the id and on the
    companies only. *)
Lemma get_depends (a b : Pg.db) (id : jsval) (v : Z) :
  Spec.denotes id v ->
  Pg.select_by_id v a = Pg.select_by_id v b ->
  Pg.companies a = Pg.companies b ->
  fst (Job.get id a) = fst (Job.get id b).
Proof.
  intros Hid Hjobs Hcompanies. rewrite !(get_eq _ id v Hid), Hjobs.
  destruct (Pg.select_by_id v b) as [|j js]; [reflexivity|]. cbn [fst].
  unfold Pg.select_company. now rewrite Hcompanies.
Qed.

(** X6.  A removed job is gone, and only that job.  For an id the
    store reads as an integer: after [remove(id)], whether it found the
    job or not, [get] and a second [remove] of the same id throw
    not-found, as does an [update] of it with data that is not empty,
    over title, salary and equity, with values the store takes; [get]
    of any other id the store reads as an integer returns what it
    returned before. *)
Theorem remove_then_gone (d : Pg.db) (id : jsval) (v : Z) :
  Spec.denotes id v ->
  let after := snd (Job.remove id d) in
  fst (Job.get id after)
  = Throw (NotFoundError ("No job with id: " ++ ToString id))
  /\ fst (Job.remove id after)
     = Throw (NotFoundError ("No job with id: " ++ ToString id))
  /\ (forall data,
        data <> [] -> Spec.update_data data = true ->
        fst (Job.update id data after)
        = Throw (NotFoundError ("No job with id: " ++ ToString id)))
  /\ (forall id' v',
        Spec.denotes id' v' -> v' <> v ->
        fst (Job.get id' after) = fst (Job.get id' d)).
Proof.
  intros Hid after.
  assert (Hgone : Pg.select_by_id v after = []).
  { unfold after. rewrite (remove_eq d id v Hid). cbn [snd].
    unfold Pg.select_by_id. cbn [Pg.jobs Pg.with_jobs].
    apply filter_twice_none. }
  split; [|split; [|split]].
  - rewrite (get_eq _ id v Hid), Hgone. reflexivity.
  - rewrite (remove_eq _ id v Hid), Hgone. reflexivity.
  - intros data Hdata Hvalid.
    rewrite (update_valid _ id v data Hid Hdata Hvalid), Hgone. reflexivity.
  - intros id' v' Hid' Hv. apply (get_depends _ _ id' v' Hid').
    + unfold after. rewrite (remove_eq d id v Hid). cbn [snd].
      unfold Pg.select_by_id. cbn [Pg.jobs Pg.with_jobs].
      now apply filter_other_id.
    + unfold after. rewrite (remove_eq d id v Hid). reflexivity.
Qed.

Lemma remove_then_gone_witness :
  fst (Job.get (VNum (int 1)) (snd (Job.remove (VNum (int 1)) Fixture.store)))
  = Throw (NotFoundError "No job with id: 1")
  /\ fst (Job.get (VNum (int 2))
            (snd (Job.remove (VNum (int 1)) Fixture.store)))
     = Return (Spec.job_with_company Fixture.job2 Fixture.c2).
Proof.
  pose proof (remove_then_gone Fixture.store (VNum (int 1)) 1 eq_refl)
    as (Hget & _ & _ & Hother).
  split; [exact Hget|].
  rewrite (Hother (VNum (int 2)) 2 eq_refl); [reflexivity | discriminate].
Defined.

Lemma patched_id (data : obj) (r : Pg.job_row) :
  Pg.id (Spec.patched data r) = Pg.id r.
Proof. reflexivity. Qed.

Lemma patched_twice (data : obj) (r : Pg.job_row) :
  Spec.patched data (Spec.patched data r) = Spec.patched data r.
Proof.
  unfold Spec.patched. cbn [Pg.id Pg.title Pg.salary Pg.equity Pg.company_handle].
  f_equal.
  - destruct (own data "title") as [x|]; [|reflexivity].
    unfold Spec.stored_title. now destruct (Pg.prepareValue x).
  - now destruct (own data "salary").
  - now destruct (own data "equity").
Qed.

Lemma select_patched (data : obj) (v : Z) (l : list Pg.job_row) :
  filter (fun r => Pg.id r =? v)
         (map (fun r => if Pg.id r =? v then Spec.patched data r else r) l)
  = map (Spec.patched data) (filter (fun r => Pg.id r =? v) l).
Proof.
  induction l as [|x l IH]; [reflexivity|]. cbn [map filter].
  destruct (Pg.id x =? v) eqn:Hx.
  - rewrite patched_id, Hx. cbn [map]. now rewrite IH.
  - now rewrite Hx, IH.
Qed.

Lemma select_other_patched (data : obj) (v v' : Z) (l : list Pg.job_row) :
  v' <> v ->
  filter (fun r => Pg.id r =? v')
         (map (fun r => if Pg.id r =? v then Spec.patched data r else r) l)
  = filter (fun r => Pg.id r =? v') l.
Proof.
  intros Hv. induction l as [|x l IH]; [reflexivity|]. cbn [map filter].
  rewrite IH. destruct (Z.eqb_spec (Pg.id x) v) as [Hx|Hx]; [|reflexivity].
  rewrite patched_id. destruct (Z.eqb_spec (Pg.id x) v'); [lia|reflexivity].
Qed.

Lemma patch_patched (data : obj) (v : Z) (l : list Pg.job_row) :
  map (fun r => if Pg.id r =? v then Spec.patched data r else r)
      (map (fun r => if Pg.id r =? v then Spec.patched data r else r) l)
  = map (fun r => if Pg.id r =? v then Spec.patched data r else r) l.
Proof.
  rewrite map_map. apply map_ext. intros r.
  destruct (Pg.id r =? v) eqn:Hr.
  - now rewrite patched_id, Hr, patched_twice.
  - now rewrite Hr.
Qed.

(** X7.  Updating twice is updating once.  For an id the store reads as
    an integer and data over title, salary and equity that the store
    takes, a second [update] with the same data ends as the first did,
    with the same row or the same not-found, and leaves the tables as the
    first left them. *)
Theorem update_twice (d : Pg.db) (id : jsval) (v : Z) (data : obj) :
  Spec.denotes id v -> data <> [] -> Spec.update_data data = true ->
  fst (Job.update id data (snd (Job.update id data d)))
  = fst (Job.update id data d)
  /\ Spec.same_tables (snd (Job.update id data (snd (Job.update id data d))))
                      (snd (Job.update id data d)).
Proof.
  intros Hid Hdata Hvalid.
  rewrite !(update_valid _ id v data Hid Hdata Hvalid). cbn [fst snd].
  unfold Pg.select_by_id. cbn [Pg.jobs Pg.with_jobs Pg.record_query].
  rewrite select_patched, patch_patched. split; [|now repeat split].
  destruct (filter _ (Pg.jobs d)) as [|j js]; [reflexivity|].
  cbn [map]. now rewrite patched_twice.
Qed.

Lemma update_twice_witness :
  let data := [("salary", VNum (int 500)); ("equity", VNull)] in
  fst (Job.update (VNum (int 1)) data
         (snd (Job.update (VNum (int 1)) data Fixture.store)))
  = Return [ ("id", VNum (int 1)); ("title", VStr "job1");
             ("salary", VNum (int 500)); ("equity", VNull);
             ("companyHandle", VStr "c1") ].
Proof.
  cbv zeta.
  rewrite (proj1 (update_twice Fixture.store (VNum (int 1)) 1
                    [("salary", VNum (int 500)); ("equity", VNull)]
                    eq_refl ltac:(discriminate) eq_refl)).
  reflexivity.
Defined.

(** X8.  What [update] changes, [get] shows, and nothing else moves.
    For an id the store reads as an integer and data over title, salary
    and equity that the store takes: after the update of a job whose
    company is in the store, [get] of the id returns the job with the
    supplied fields changed and its company as before; [get] of any other
    id returns what it returned before the update. *)
Theorem update_then_get (d : Pg.db) (id : jsval) (v : Z) (data : obj) :
  Spec.denotes id v -> data <> [] -> Spec.update_data data = true ->
  (forall j js c cs,
      Pg.select_by_id v d = j :: js ->
      Pg.select_company (Pg.company_handle j) d = c :: cs ->
      fst (Job.get id (snd (Job.update id data d)))
      = Return (Spec.job_with_company (Spec.patched data j) c))
  /\ (forall id' v',
        Spec.denotes id' v' -> v' <> v ->
        fst (Job.get id' (snd (Job.update id data d))) = fst (Job.get id' d)).
Proof.
  intros Hid Hdata Hvalid.
  rewrite (update_valid _ id v data Hid Hdata Hvalid). cbn [snd]. split.
  - intros j js c cs Hj Hc. rewrite (get_eq _ id v Hid).
    unfold Pg.select_by_id in *. cbn [Pg.jobs Pg.with_jobs Pg.record_query].
    rewrite select_patched, Hj. cbn [map fst].
    unfold Pg.select_company in *.
    cbn [Pg.companies Pg.with_jobs Pg.record_query Spec.patched
         Pg.company_handle].
    rewrite Hc. reflexivity.
  - intros id' v' Hid' Hv. apply (get_depends _ _ id' v' Hid').
    + unfold Pg.select_by_id. cbn [Pg.jobs Pg.with_jobs Pg.record_query].
      now apply select_other_patched.
    + reflexivity.
Qed.

Lemma update_then_get_witness :
  fst (Job.get (VNum (int 1))
         (snd (Job.update (VNum (int 1)) [("title", VStr "New")]
                 Fixture.store)))
  = Return [ ("id", Prim (VNum (int 1))); ("title", Prim (VStr "New"));
             ("salary", Prim (VNum (int 100))); ("equity", Prim (VStr "0.1"));
             ("company", Object (Pg.company_obj Fixture.c1)) ].
Proof.
  apply (proj1 (update_then_get Fixture.store (VNum (int 1)) 1
                  [("title", VStr "New")] eq_refl ltac:(discriminate) eq_refl)
           Fixture.job1 [] Fixture.c1 []); reflexivity.
Defined.


(* ================================================================= *)
(** ** The SET clause, written and read *)

(** A quoted name without a quote in it is read up to its closing
    quote. *)
Lemma until_closing (q : ascii) (s rest : string) :
  Pg.mentions q s = false ->
  match rest with String c _ => Ascii.eqb c q = false | "" => True end ->
  Pg.until q (s ++ String q rest) = Some (s, rest).
Proof.
  intros Hs Hrest. induction s as [|c s IH].
  - cbn [append Pg.until]. rewrite Ascii.eqb_refl.
    destruct rest as [|c' r']; [reflexivity|]. now rewrite Hrest.
  - cbn [Pg.mentions] in Hs. apply orb_false_iff in Hs as [Hc Hs'].
    cbn [append Pg.until]. rewrite Hc, (IH Hs'). reflexivity.
Qed.

(** A placeholder is read as its number. *)
Lemma read_placeholder_decimal (i : Z) (rest : string) :
  0 < i -> Text.stops rest = true ->
  Pg.read_placeholder (String "$" (Text.decimal i ++ rest))
  = Some (Z.to_nat i, rest).
Proof.
  intros Hi Hrest. destruct (decimal_digits i) as (Hd & Hv & He); [lia|].
  cbn [Pg.read_placeholder]. rewrite (take_digits_stop _ _ Hd Hrest).
  rewrite Hv. destruct (Text.decimal i); [discriminate He|reflexivity].
Qed.

Lemma numbered_columns (i : nat) (cols : list string) :
  map fst (Laws.numbered i cols) = cols
  /\ map snd (Laws.numbered i cols) = seq i (List.length cols).
Proof.
  revert i. induction cols as [|c cols IH]; intros i; [now split|].
  cbn [Laws.numbered map List.length seq fst snd].
  destruct (IH (S i)) as [-> ->]. now split.
Qed.

Lemma read_set_fragments (col : string -> string) (d : obj) :
  forall (i : Z) (fuel : nat),
    d <> [] -> 0 < i ->
    (forall k, In k (Object_keys d) -> Laws.no_dquote (col k) = true) ->
    (List.length d <= fuel)%nat ->
    Pg.read_set fuel (Text.join ", " (Spec.fragments col i d))
    = Some (Laws.numbered (Z.to_nat i) (map col (Object_keys d))).
Proof.
  induction d as [|[k x] d IH]; intros i fuel Hd Hi Hcols Hfuel;
    [contradiction|].
  destruct fuel as [|fuel]; [cbn [List.length] in Hfuel; lia|].
  assert (Hk : Pg.mentions Pg.dquote (col k) = false).
  { specialize (Hcols k (or_introl eq_refl)). unfold Laws.no_dquote in Hcols.
    now apply negb_true_iff in Hcols. }
  cbn [Spec.fragments Object_keys map fst Laws.numbered].
  destruct d as [|kv d'].
  - cbn [Spec.fragments Text.join]. unfold Sql.quote.
    cbn [append Pg.read_set]. rewrite Ascii.eqb_refl.
    rewrite (until_closing _ _ _ Hk) by reflexivity.
    rewrite <- (append_empty (Text.decimal i)).
    rewrite (read_placeholder_decimal i "" Hi eq_refl). reflexivity.
  - set (tail := Text.join ", " (Spec.fragments col (i + 1) (kv :: d'))).
    replace (Text.join ", " _)
      with (String Pg.dquote
              (col k ++ String Pg.dquote
                 (String "=" (String "$" (Text.decimal i ++ ", " ++ tail))))).
    + cbn [Pg.read_set]. rewrite Ascii.eqb_refl.
      rewrite (until_closing _ _ _ Hk) by reflexivity.
      rewrite (read_placeholder_decimal i _ Hi) by reflexivity.
      cbn [append Text.strip_prefix Ascii.eqb Bool.eqb].
      unfold tail. rewrite IH.
      * replace (Z.to_nat (i + 1)) with (S (Z.to_nat i)) by lia. reflexivity.
      * discriminate.
      * lia.
      * intros k' Hk'. apply Hcols. now right.
      * cbn [List.length] in *. lia.
    + unfold tail. destruct kv as [k' x'].
      cbn [Spec.fragments Text.join]. unfold Sql.quote.
      cbn [append]. rewrite !append_assoc. cbn [append].
      now destruct (Spec.fragments col (i + 1 + 1) d').
Qed.

Lemma fragments_length (col : string -> string) (d : obj) (i : Z) :
  (List.length d
   <= String.length (Text.join ", " (Spec.fragments col i d)))%nat.
Proof.
  revert i. induction d as [|[k x] d IH]; intros i;
    [cbn [List.length]; lia|].
  cbn [Spec.fragments List.length]. specialize (IH (i + 1)).
  destruct d as [|kv d'].
  - cbn [Spec.fragments Text.join]. unfold Sql.quote.
    cbn [append String.length List.length]. lia.
  - set (tail := Spec.fragments col (i + 1) (kv :: d')) in *.
    assert (Hjoin : forall x, Text.join ", " (x :: tail)
                              = x ++ ", " ++ Text.join ", " tail).
    { intros y. unfold tail. destruct kv. reflexivity. }
    rewrite Hjoin, length_append. cbn [append String.length].
    cbn [List.length] in *. lia.
Qed.

(** X9.  The store reads the SET clause as the mapper wrote it.  For
    non-empty data whose column names hold no double quote,
    [sqlForPartialUpdate] returns, and the store reads its setCols as one
    assignment per key of the data, in the order of the keys, the i-th to
    the column of the i-th key and from the placeholder [$i]; the values
    are the values of the data in that order. *)
Theorem set_clause_read_back (data jsToSql : obj) :
  data <> [] ->
  (forall k, In k (Object_keys data) ->
             Laws.no_dquote (or_key jsToSql k) = true) ->
  exists sql,
    Sql.sqlForPartialUpdate data jsToSql = Return sql
    /\ Pg.read_set (S (String.length (Sql.setCols sql))) (Sql.setCols sql)
       = Some (Laws.numbered 1 (map (or_key jsToSql) (Object_keys data)))
    /\ Sql.values sql = Object_values data
    /\ map snd (Laws.numbered 1 (map (or_key jsToSql) (Object_keys data)))
       = seq 1 (List.length (Sql.values sql)).
Proof.
  intros Hdata Hcols.
  eexists. split; [now apply (sqlForPartialUpdate_eq data jsToSql (or_key jsToSql))|].
  cbn [Sql.setCols Sql.values]. split; [|split; [reflexivity|]].
  - unfold Spec.set_clause.
    apply (read_set_fragments (or_key jsToSql) data 1); auto; [lia|].
    pose proof (fragments_length (or_key jsToSql) data 1). lia.
  - rewrite (proj2 (numbered_columns _ _)).
    unfold Object_values, Object_keys. now rewrite !length_map.
Qed.

Lemma set_clause_read_back_witness :
  exists sql,
    Sql.sqlForPartialUpdate
      [("firstName", VStr "Aliya"); ("age", VNum (int 32))]
      [("firstName", VStr "first_name")]
    = Return sql
    /\ Pg.read_set (S (String.length (Sql.setCols sql))) (Sql.setCols sql)
       = Some [("first_name", 1%nat); ("age", 2%nat)].
Proof.
  destruct (set_clause_read_back
              [("firstName", VStr "Aliya"); ("age", VNum (int 32))]
              [("firstName", VStr "first_name")])
    as (sql & Hsql & Hread & _).
  - discriminate.
  - intros k [<-|[<-|[]]]; reflexivity.
  - exists sql. split; [exact Hsql | exact Hread].
Defined.

Lemma all_some_none {A B : Type} (f : A -> option B) (l : list A) (x : A) :
  In x l -> f x = None -> Pg.all_some (map f l) = None.
Proof.
  intros Hin Hx. induction l as [|y l IH]; [destruct Hin|].
  cbn [map Pg.all_some]. destruct Hin as [->|Hin].
  - now rewrite Hx.
  - destruct (f y); [|reflexivity]. now rewrite (IH Hin).
Qed.

Lemma plan_unknown_column (data : obj) (k : string)
      (params : list (option string)) :
  (forall k', In k' (Object_keys data) ->
              Laws.no_dquote (Laws.column_text k') = true) ->
  In k (Object_keys data) ->
  Pg.column_of (Laws.column_text k) = None ->
  Pg.plan_update (Spec.set_clause_of data)
    ("$" ++ Text.decimal (Z.of_nat (List.length data) + 1)) params
  = Pg.Refused.
Proof.
  intros Hcols Hk Hnone.
  assert (Hdata : data <> []) by (intros ->; destruct Hk).
  unfold Pg.plan_update, Spec.set_clause_of, Spec.set_clause.
  rewrite (read_set_fragments (or_key []) data 1); auto; [|lia|].
  - cbn [append]. rewrite <- (append_empty (Text.decimal _)).
    rewrite read_placeholder_decimal by (reflexivity || lia).
    rewrite <- (map_map fst Pg.column_of), (proj1 (numbered_columns _ _)).
    rewrite map_map.
    now rewrite (all_some_none _ _ k Hk Hnone).
  - pose proof (fragments_length (or_key []) data 1). lia.
Qed.

(** X10.  A key that is no column of the jobs table makes the update
    fail, whatever else is asked.  When the keys of the data hold no
    double quote and one of them names none of id, title, salary, equity
    and company_handle, [update] throws the store's error after its one
    UPDATE, for every id, every value and every store: no row is looked
    up or changed.  The field the other calls name companyHandle is such
    a key. *)
Theorem update_unknown_column (d : Pg.db) (id : jsval) (data : obj)
        (k : string) :
  (forall k', In k' (Object_keys data) ->
              Laws.no_dquote (Laws.column_text k') = true) ->
  In k (Object_keys data) ->
  Pg.column_of (Laws.column_text k) = None ->
  Job.update id data d
  = (Throw DbError,
     Pg.record_query (Spec.update_statement data) (Spec.update_args id data) d).
Proof.
  intros Hcols Hk Hnone.
  assert (Hdata : data <> []) by (intros ->; destruct Hk).
  rewrite (update_eq d id data Hdata).
  unfold Spec.update_statement at 1. cbn [Pg.run]. unfold Pg.run_update.
  now rewrite (plan_unknown_column data k _ Hcols Hk Hnone).
Qed.

Lemma update_unknown_column_witness :
  fst (Job.update (VNum (int 1))
         [("title", VStr "New"); ("companyHandle", VStr "c2")] Fixture.store)
  = Throw DbError.
Proof.
  rewrite (update_unknown_column Fixture.store (VNum (int 1))
             [("title", VStr "New"); ("companyHandle", VStr "c2")]
             "companyHandle").
  - reflexivity.
  - intros k [<-|[<-|[]]]; reflexivity.
  - right. now left.
  - reflexivity.
Defined.


(* ================================================================= *)
(** ** A number in the middle of a WHERE clause *)

Lemma after_conjunct_stops (rest : string) :
  Laws.after_conjunct rest = true -> Text.stops rest = true.
Proof.
  destruct rest as [|c r]; [reflexivity|]. cbn [Laws.after_conjunct Text.stops].
  intros H. apply Ascii.eqb_eq in H. now subst c.
Qed.

Lemma after_conjunct_cases (rest : string) :
  Laws.after_conjunct rest = true ->
  rest = "" \/ exists r, rest = String " " r.
Proof.
  destruct rest as [|c r]; [now left|]. cbn [Laws.after_conjunct].
  intros H. apply Ascii.eqb_eq in H. subst c. right. now exists r.
Qed.

Lemma take_digits_frame (s rest ds r : string) :
  Text.take_digits s = (ds, r) -> Text.stops rest = true ->
  Text.take_digits (s ++ rest) = (ds, r ++ rest).
Proof.
  intros Hs Hrest. revert ds r Hs. induction s as [|c s IH]; intros ds r Hs.
  - cbn [Text.take_digits] in Hs. injection Hs as <- <-. cbn [append].
    destruct rest as [|c' r']; [reflexivity|].
    cbn [Text.stops] in Hrest. cbn [Text.take_digits].
    apply negb_true_iff in Hrest. now rewrite Hrest.
  - cbn [append Text.take_digits] in *. destruct (Text.is_digit c).
    + destruct (Text.take_digits s) as [ds' r'].
      injection Hs as <- <-. now rewrite (IH ds' r' eq_refl).
    + injection Hs as <- <-. reflexivity.
Qed.

Ltac each_char c :=
  destruct c as [[|] [|] [|] [|] [|] [|] [|] [|]].

Lemma scan_exponent_frame (s rest : string) (x : Z) :
  Text.scan_exponent s = (x, "") -> Laws.after_conjunct rest = true ->
  Text.scan_exponent (s ++ rest) = (x, rest).
Proof.
  intros Hs Hrest. pose proof (after_conjunct_stops rest Hrest) as Hstops.
  destruct s as [|c r].
  - cbn [Text.scan_exponent] in Hs. injection Hs as <-. cbn [append].
    destruct (after_conjunct_cases rest Hrest) as [->|[r ->]]; reflexivity.
  - cbn [append]. unfold Text.scan_exponent in *.
    destruct (Ascii.eqb c "e" || Ascii.eqb c "E"); [|discriminate Hs].
    destruct r as [|a r0].
    + cbn [Text.take_digits Text.is_empty] in Hs. discriminate Hs.
    + cbn [append].
      assert (Hgo : forall r',
                 (let (ds, rest0) := Text.take_digits r' in
                  if Text.is_empty ds then (0, String c (String a r0))
                  else (1 * Text.value ds, rest0)) = (x, "") ->
                 (let (ds, rest0) := Text.take_digits (r' ++ rest) in
                  if Text.is_empty ds
                  then (0, String c (String a (r0 ++ rest)))
                  else (1 * Text.value ds, rest0)) = (x, rest)).
      { intros r' H. destruct (Text.take_digits r') as [ds rest0] eqn:Hd.
        rewrite (take_digits_frame _ _ _ _ Hd Hstops).
        destruct (Text.is_empty ds); [discriminate H|].
        injection H as <- ->. reflexivity. }
      assert (Hneg : forall r',
                 (let (ds, rest0) := Text.take_digits r' in
                  if Text.is_empty ds then (0, String c (String a r0))
                  else (-1 * Text.value ds, rest0)) = (x, "") ->
                 (let (ds, rest0) := Text.take_digits (r' ++ rest) in
                  if Text.is_empty ds
                  then (0, String c (String a (r0 ++ rest)))
                  else (-1 * Text.value ds, rest0)) = (x, rest)).
      { intros r' H. destruct (Text.take_digits r') as [ds rest0] eqn:Hd.
        rewrite (take_digits_frame _ _ _ _ Hd Hstops).
        destruct (Text.is_empty ds); [discriminate H|].
        injection H as <- ->. reflexivity. }
      each_char a;
        first [ exact (Hgo r0 Hs) | exact (Hneg r0 Hs)
              | match goal with
                | |- context [String ?a (r0 ++ rest)] =>
                    exact (Hgo (String a r0) Hs)
                end ].
Qed.

Lemma scan_decimal_frame (s rest : string) (m e : Z) :
  Text.scan_decimal s = Some (m, e, "") -> Laws.after_conjunct rest = true ->
  Text.scan_decimal (s ++ rest) = Some (m, e, rest).
Proof.
  intros Hs Hrest. pose proof (after_conjunct_stops rest Hrest) as Hstops.
  unfold Text.scan_decimal in *.
  destruct (Text.take_digits s) as [ip r1] eqn:Hip.
  rewrite (take_digits_frame _ _ _ _ Hip Hstops).
  assert (Hfp : forall fp r2,
             (if Text.is_empty ip && Text.is_empty fp then None
              else let (ex, r3) := Text.scan_exponent r2 in
                   Some (Text.value (ip ++ fp),
                         ex - Z.of_nat (String.length fp), r3))
             = Some (m, e, "") ->
             (if Text.is_empty ip && Text.is_empty fp then None
              else let (ex, r3) := Text.scan_exponent (r2 ++ rest) in
                   Some (Text.value (ip ++ fp),
                         ex - Z.of_nat (String.length fp), r3))
             = Some (m, e, rest)).
  { intros fp r2 H. destruct (Text.is_empty ip && Text.is_empty fp);
      [discriminate H|].
    destruct (Text.scan_exponent r2) as [ex r3] eqn:Hex.
    injection H as <- <- ->.
    now rewrite (scan_exponent_frame _ _ _ Hex Hrest). }
  destruct r1 as [|a r].
  - cbn [append]. specialize (Hfp "" "" Hs). cbn [append] in Hfp.
    destruct (after_conjunct_cases rest Hrest) as [->|[r ->]]; exact Hfp.
  - cbn [append].
    assert (Hpoint :
              (let (fp, r2) := Text.take_digits r in
               if Text.is_empty ip && Text.is_empty fp then None
               else let (ex, r3) := Text.scan_exponent r2 in
                    Some (Text.value (ip ++ fp),
                          ex - Z.of_nat (String.length fp), r3))
              = Some (m, e, "") ->
              (let (fp, r2) := Text.take_digits (r ++ rest) in
               if Text.is_empty ip && Text.is_empty fp then None
               else let (ex, r3) := Text.scan_exponent r2 in
                    Some (Text.value (ip ++ fp),
                          ex - Z.of_nat (String.length fp), r3))
              = Some (m, e, rest)).
    { intros H. destruct (Text.take_digits r) as [fp r2] eqn:Hd.
      rewrite (take_digits_frame _ _ _ _ Hd Hstops). exact (Hfp fp r2 H). }
    each_char a;
      first [ exact (Hpoint Hs)
            | match goal with
              | |- context [String ?a (r ++ rest)] =>
                  exact (Hfp "" (String a r) Hs)
              end ].
Qed.

Lemma minus_sign_frame (s rest : string) :
  Text.minus_sign s = (1, s) -> s <> "" ->
  Text.minus_sign (s ++ rest) = (1, s ++ rest).
Proof.
  destruct s as [|a r]; [contradiction|]. intros H _. cbn [append].
  each_char a; first [reflexivity | discriminate H].
Qed.

(** The conjunct of a finite minSalary, wherever it stands in the
    clause. *)
Lemma read_salary_conjunct (m e : Z) :
  exists m' e',
    Spec.same_number m' e' m e
    /\ forall rest,
        Laws.after_conjunct rest = true ->
        Pg.read_cond (("salary >= " ++ NumberToString (Fin m e)) ++ rest)
        = Some (Pg.SalaryGe m' e', rest).
Proof.
  assert (Hstrip : forall t rest,
             Text.strip_prefix "salary >= " (("salary >= " ++ t) ++ rest)
             = Some (t ++ rest)) by reflexivity.
  assert (Hpos : forall p,
             exists m' e',
               Spec.same_number m' e' (Z.pos p) e
               /\ forall rest,
                   Laws.after_conjunct rest = true ->
                   Text.minus_sign (finite_text (Z.pos p) e ++ rest)
                   = (1, finite_text (Z.pos p) e ++ rest)
                   /\ Text.scan_decimal (finite_text (Z.pos p) e ++ rest)
                      = Some (m', e', rest)).
  { intros p.
    destruct (finite_text_scans (Z.pos p) e) as (m' & e' & Hs & Hn & Hsign);
      [lia|].
    exists m', e'. split; [exact Hn|]. intros rest Hrest. split.
    - apply minus_sign_frame; [exact Hsign|]. intros Hnil.
      rewrite Hnil in Hs. discriminate Hs.
    - now apply scan_decimal_frame. }
  destruct m as [|p|p]; cbn [NumberToString Z.eqb Z.ltb Z.compare Z.opp].
  - exists 0, 0. split; [unfold Spec.same_number; lia|]. intros rest Hrest.
    unfold Pg.read_cond. rewrite Hstrip. cbv iota beta.
    cbn [append Text.minus_sign]. change (String "0" rest) with ("0" ++ rest).
    now rewrite (scan_decimal_frame "0" rest 0 0 eq_refl Hrest).
  - destruct (Hpos p) as (m' & e' & Hn & Hread). exists m', e'.
    split; [exact Hn|]. intros rest Hrest.
    destruct (Hread rest Hrest) as [Hsign Hscan].
    unfold Pg.read_cond. rewrite Hstrip. cbv iota beta.
    rewrite Hsign, Hscan. now rewrite Z.mul_1_l.
  - destruct (Hpos p) as (m' & e' & Hn & Hread). exists (- m'), e'.
    split; [now apply (same_number_opp m' e' (Z.pos p) e)|].
    intros rest Hrest. destruct (Hread rest Hrest) as [_ Hscan].
    unfold Pg.read_cond. rewrite Hstrip. cbv iota beta.
    cbn [append Text.minus_sign]. rewrite Hscan.
    now replace (-1 * m') with (- m') by lia.
Qed.

(** Conjuncts that are read wherever they stand are read one after the
    other out of the clause that joins them. *)
Lemma read_conds_join (ws : list string) (cs : list Pg.cond) :
  Forall2 (fun w c =>
             forall rest,
               Laws.after_conjunct rest = true ->
               Pg.read_cond (w ++ rest) = Some (c, rest)) ws cs ->
  ws <> [] ->
  forall fuel,
    (List.length ws <= fuel)%nat ->
    Pg.read_conds fuel (Text.join " AND " ws) = Some cs.
Proof.
  induction 1 as [|w c ws cs Hw Hrest IH]; intros Hne fuel Hfuel;
    [contradiction|].
  destruct fuel as [|fuel]; [cbn [List.length] in Hfuel; lia|].
  destruct ws as [|w' ws'].
  - inversion Hrest; subst. cbn [Text.join Pg.read_conds].
    rewrite <- (append_empty w), (Hw "" eq_refl). reflexivity.
  - change (Text.join " AND " (w :: w' :: ws'))
      with (w ++ " AND " ++ Text.join " AND " (w' :: ws')).
    cbn [Pg.read_conds].
    rewrite (Hw (" AND " ++ Text.join " AND " (w' :: ws')) eq_refl).
    cbn [append Text.strip_prefix Ascii.eqb Bool.eqb].
    rewrite IH; [reflexivity|discriminate|cbn [List.length] in *; lia].
Qed.

Lemma join_length (sep : string) (ws : list string) :
  Forall (fun w => w <> "") ws ->
  (List.length ws <= String.length (Text.join sep ws))%nat.
Proof.
  induction 1 as [|w ws Hw Hws IH]; [cbn [List.length]; lia|].
  destruct ws as [|w' ws'].
  - cbn [Text.join List.length]. destruct w; [contradiction|].
    cbn [String.length]. lia.
  - change (Text.join sep (w :: w' :: ws'))
      with (w ++ sep ++ Text.join sep (w' :: ws')).
    rewrite !length_append. destruct w; [contradiction|].
    cbn [String.length List.length] in *. lia.
Qed.


(* ================================================================= *)
(** ** LIKE on a plain text *)

Lemma like_any (p t : string) :
  Pg.like (String "%" p) t
  = Pg.like p t
    || match t with
       | String _ t' => Pg.like (String "%" p) t'
       | "" => false
       end.
Proof. destruct t; reflexivity. Qed.

Lemma like_percent (t : string) : Pg.like "%" t = true.
Proof.
  induction t as [|c t IH]; [reflexivity|]. rewrite like_any.
  now rewrite IH, orb_true_r.
Qed.

Lemma plain_char_literal (c : ascii) :
  Laws.plain_char c = true ->
  Ascii.eqb c "'" = false /\ Ascii.eqb c "%" = false
  /\ Ascii.eqb c "_" = false /\ Ascii.eqb c "\" = false.
Proof.
  unfold Laws.plain_char. intros H. apply negb_true_iff in H.
  repeat (apply orb_false_iff in H as [H ?]). auto.
Qed.

(** A plain text followed by [%] matches the texts it begins. *)
Lemma like_prefix (s t : string) :
  Laws.plain s = true ->
  Pg.like (s ++ "%") t
  = match Text.strip_prefix s t with Some _ => true | None => false end.
Proof.
  revert t. induction s as [|c s IH]; intros t Hs.
  - apply like_percent.
  - cbn [Laws.plain] in Hs. apply andb_prop in Hs as [Hc Hs].
    destruct (plain_char_literal c Hc) as (_ & H1 & H2 & H3).
    cbn [append Pg.like Text.strip_prefix]. rewrite H1, H2, H3.
    destruct t as [|x t]; [reflexivity|]. rewrite (IH t Hs).
    now destruct (Ascii.eqb c x).
Qed.

(** A plain text between two [%] matches the texts it occurs in. *)
Lemma like_contains (s t : string) :
  Laws.plain s = true ->
  Pg.like (String "%" (s ++ "%")) t = Laws.contains s t.
Proof.
  intros Hs. induction t as [|c t IH].
  - rewrite like_any, (like_prefix s "" Hs). cbn [Laws.contains].
    now destruct (Text.strip_prefix s "").
  - rewrite like_any, (like_prefix s _ Hs), IH. cbn [Laws.contains].
    now destruct (Text.strip_prefix s (String c t)).
Qed.

Lemma plain_lower_char (c : ascii) :
  Laws.plain_char (Text.lower_char c) = Laws.plain_char c.
Proof. each_char c; reflexivity. Qed.

Lemma plain_toLowerCase (s : string) :
  Laws.plain (Text.toLowerCase s) = Laws.plain s.
Proof.
  induction s as [|c s IH]; [reflexivity|].
  cbn [Text.toLowerCase Laws.plain]. now rewrite plain_lower_char, IH.
Qed.

Lemma plain_pattern (s : string) :
  Laws.plain s = true ->
  Pg.mentions "'" (s ++ "%") = false /\ Pg.pattern_ok (s ++ "%") = true.
Proof.
  induction s as [|c s IH]; [now split|]. cbn [Laws.plain]. intros H.
  apply andb_prop in H as [Hc Hs]. destruct (IH Hs) as [IH1 IH2].
  destruct (plain_char_literal c Hc) as (H0 & _ & _ & H3).
  cbn [append Pg.mentions Pg.pattern_ok]. now rewrite H0, H3, IH1, IH2.
Qed.

(** The conjunct of a plain title, wherever it stands in the clause. *)
Lemma read_title_conjunct (text rest : string) :
  Laws.plain text = true -> Laws.after_conjunct rest = true ->
  Pg.read_cond
    (("LOWER(title) LIKE '%" ++ Text.toLowerCase text ++ "%'") ++ rest)
  = Some (Pg.TitleLike (String "%" (Text.toLowerCase text ++ "%")), rest).
Proof.
  intros Hplain Hrest. rewrite <- plain_toLowerCase in Hplain.
  set (low := Text.toLowerCase text) in *.
  replace (("LOWER(title) LIKE '%" ++ low ++ "%'") ++ rest)
    with ("LOWER(title) LIKE '"
          ++ (String "%" (low ++ "%")) ++ String "'" rest)
    by (cbn [append]; now rewrite !append_assoc).
  unfold Pg.read_cond.
  cbn [append Text.strip_prefix Ascii.eqb Bool.eqb].
  pose proof (until_closing "'" (String "%" (low ++ "%")) rest) as Huntil.
  cbn [append Pg.mentions Ascii.eqb Bool.eqb orb] in Huntil.
  rewrite Huntil; [reflexivity|apply (plain_pattern low Hplain)|].
  destruct (after_conjunct_cases rest Hrest) as [->|[r ->]]; [exact I|].
  reflexivity.
Qed.


(** The quote and the escape are what they are in lower case too. *)
Lemma quote_lower_char (c : ascii) :
  Ascii.eqb (Text.lower_char c) "'" = Ascii.eqb c "'"
  /\ Ascii.eqb (Text.lower_char c) "\" = Ascii.eqb c "\".
Proof. each_char c; split; reflexivity. Qed.

Lemma quotable_toLowerCase (s : string) :
  Laws.quotable (Text.toLowerCase s) = Laws.quotable s.
Proof.
  unfold Laws.quotable.
  assert (H : Pg.mentions "'" (Text.toLowerCase s) = Pg.mentions "'" s
              /\ Pg.mentions "\" (Text.toLowerCase s) = Pg.mentions "\" s).
  { induction s as [|c s [IH1 IH2]]; [now split|].
    cbn [Text.toLowerCase Pg.mentions].
    destruct (quote_lower_char c) as [-> ->]. now rewrite IH1, IH2. }
  destruct H as [-> ->]. reflexivity.
Qed.

Lemma quotable_pattern (s : string) :
  Laws.quotable s = true ->
  Pg.mentions "'" (s ++ "%") = false /\ Pg.pattern_ok (s ++ "%") = true.
Proof.
  unfold Laws.quotable. intros H. apply andb_prop in H as [Hq He].
  apply negb_true_iff in Hq. apply negb_true_iff in He.
  induction s as [|c s IH]; [now split|].
  cbn [Pg.mentions] in Hq, He.
  apply orb_false_iff in Hq as [Hq Hqs]. apply orb_false_iff in He as [He Hes].
  destruct (IH Hqs Hes) as [IH1 IH2].
  cbn [append Pg.mentions Pg.pattern_ok]. now rewrite Hq, He, IH1, IH2.
Qed.

(** The conjunct of a text that stays inside its quotes, wherever it
    stands in the clause. *)
Lemma read_title_quoted (text rest : string) :
  Laws.quotable text = true -> Laws.after_conjunct rest = true ->
  Pg.read_cond
    (("LOWER(title) LIKE '%" ++ Text.toLowerCase text ++ "%'") ++ rest)
  = Some (Pg.TitleLike (String "%" (Text.toLowerCase text ++ "%")), rest).
Proof.
  intros Hq Hrest. rewrite <- quotable_toLowerCase in Hq.
  set (low := Text.toLowerCase text) in *.
  replace (("LOWER(title) LIKE '%" ++ low ++ "%'") ++ rest)
    with ("LOWER(title) LIKE '"
          ++ (String "%" (low ++ "%")) ++ String "'" rest)
    by (cbn [append]; now rewrite !append_assoc).
  unfold Pg.read_cond.
  cbn [append Text.strip_prefix Ascii.eqb Bool.eqb].
  pose proof (until_closing "'" (String "%" (low ++ "%")) rest) as Huntil.
  cbn [append Pg.mentions Ascii.eqb Bool.eqb orb] in Huntil.
  rewrite Huntil; [reflexivity|apply (quotable_pattern low Hq)|].
  destruct (after_conjunct_cases rest Hrest) as [->|[r ->]]; [exact I|].
  reflexivity.
Qed.

Lemma plain_quotable (s : string) : Laws.plain s = true -> Laws.quotable s = true.
Proof.
  unfold Laws.quotable. induction s as [|c s IH]; [reflexivity|].
  cbn [Laws.plain Pg.mentions]. intros H. apply andb_prop in H as [Hc Hs].
  destruct (plain_char_literal c Hc) as (H0 & _ & _ & H3).
  rewrite H0, H3. cbn [orb]. now apply IH.
Qed.

Lemma quoted_case_title (filterBy : obj) (k w : string) :
  Job.case_title filterBy k = Return w ->
  Laws.stays_quoted (prop filterBy k) = true ->
  exists c,
    (forall rest,
        Laws.after_conjunct rest = true ->
        Pg.read_cond (w ++ rest) = Some (c, rest))
    /\ Pg.cond_ok c = true.
Proof.
  unfold Job.case_title.
  destruct (prop filterBy k) as [| | | |text]; try discriminate.
  intros Hw Hq. injection Hw as <-. cbn [Laws.stays_quoted] in Hq.
  exists (Pg.TitleLike (String "%" (Text.toLowerCase text ++ "%"))).
  split; [intros rest; now apply read_title_quoted|].
  rewrite <- quotable_toLowerCase in Hq.
  cbn [Pg.cond_ok]. change (String "%" ?s) with ("%" ++ s).
  cbn [append Pg.pattern_ok Ascii.eqb Bool.eqb].
  apply (quotable_pattern _ Hq).
Qed.

(** What the callback writes for a key whose text stays inside its
    quotes is a conjunct the store reads, wherever it stands. *)
Lemma quoted_conjunct (filterBy : obj) (k w : string) :
  Job.where_of filterBy k = Return w ->
  String.eqb k "minSalary" || Laws.stays_quoted (prop filterBy k) = true ->
  exists c,
    (forall rest,
        Laws.after_conjunct rest = true ->
        Pg.read_cond (w ++ rest) = Some (c, rest))
    /\ Pg.cond_ok c = true.
Proof.
  unfold Job.where_of.
  destruct (String.eqb_spec k "minSalary") as [->|_].
  - destruct (Number (prop filterBy "minSalary")) as [|[|]|m e] eqn:Hnum;
      cbn [isNaN]; [discriminate| | |]; intros Hw _; injection Hw as <-.
    + exists Pg.SalaryGeInfinity. split; [|reflexivity].
      intros rest _. reflexivity.
    + exists Pg.SalaryGeInfinity. split; [|reflexivity].
      intros rest _. reflexivity.
    + destruct (read_salary_conjunct m e) as (m' & e' & _ & Hread).
      exists (Pg.SalaryGe m' e'). now split.
  - cbn [orb]. destruct (String.eqb_spec k "hasEquity") as [->|_].
    + pose proof (quoted_case_title filterBy "hasEquity" w) as Htitle.
      destruct (prop filterBy "hasEquity") as [| |[|]| |] eqn:Hv;
        try exact Htitle.
      intros Hw _. injection Hw as <-. exists Pg.EquityPos.
      split; [|reflexivity]. intros rest _. reflexivity.
    + destruct (String.eqb_spec k "title") as [->|_];
        [apply quoted_case_title|discriminate].
Qed.

Lemma quoted_conjuncts (filterBy : obj) (keys : list string)
      (ws : list string) :
  map_throw (Job.where_of filterBy) keys = Return ws ->
  forallb (fun k => String.eqb k "minSalary"
                    || Laws.stays_quoted (prop filterBy k)) keys = true ->
  exists cs,
    Forall2 (fun w c =>
               forall rest,
                 Laws.after_conjunct rest = true ->
                 Pg.read_cond (w ++ rest) = Some (c, rest)) ws cs
    /\ List.length ws = List.length keys
    /\ forallb Pg.cond_ok cs = true.
Proof.
  revert ws. induction keys as [|k keys IH]; intros ws Hws Hq.
  - injection Hws as <-. exists []. repeat split. constructor.
  - cbn [map_throw] in Hws. cbn [forallb] in Hq.
    apply andb_prop in Hq as [Hk Hq].
    destruct (Job.where_of filterBy k) as [w| |] eqn:Hw; try discriminate.
    destruct (map_throw (Job.where_of filterBy) keys) as [ws'| |] eqn:Hws';
      try discriminate.
    injection Hws as <-.
    destruct (quoted_conjunct filterBy k w Hw Hk) as (c & Hread & Hok).
    destruct (IH ws' eq_refl Hq) as (cs & Hreads & Hlen & Hoks).
    exists (c :: cs). split; [now constructor|].
    split; [cbn [List.length]; now rewrite Hlen|].
    cbn [forallb]. now rewrite Hok, Hoks.
Qed.

Lemma read_conjuncts (ws : list string) (cs : list Pg.cond) :
  Forall2 (fun w c =>
             forall rest,
               Laws.after_conjunct rest = true ->
               Pg.read_cond (w ++ rest) = Some (c, rest)) ws cs ->
  ws <> [] ->
  Pg.read_where (Text.join " AND " ws) = Some cs.
Proof.
  intros Hreads Hne.
  assert (Hfull : Forall (fun w => w <> "") ws).
  { clear - Hreads. induction Hreads as [|w c ws cs Hw _ IH]; constructor;
      [|exact IH].
    intros ->. specialize (Hw "" eq_refl). discriminate Hw. }
  unfold Pg.read_where. apply (read_conds_join ws cs Hreads Hne).
  pose proof (join_length " AND " ws Hfull). lia.
Qed.

(** A filter whose texts stay inside their quotes gives a clause the
    store reads itself. *)
Lemma quoted_clause_read (filterBy : obj) (ws : list string) :
  filterBy <> [] -> Laws.all_quoted filterBy = true ->
  map_throw (Job.where_of filterBy) (Object_keys filterBy) = Return ws ->
  Spec.unread (Text.join " AND " ws) = false.
Proof.
  intros Hne Hq Hws.
  destruct (quoted_conjuncts filterBy _ ws Hws Hq) as (cs & Hreads & Hlen & Hoks).
  assert (Hws_ne : ws <> []).
  { intros ->. destruct filterBy; [contradiction|discriminate Hlen]. }
  unfold Spec.unread. rewrite (read_conjuncts ws cs Hreads Hws_ne), Hoks.
  apply andb_false_r.
Qed.


(* ================================================================= *)
(** ** Rows of different titles *)

(** Rows of different titles stand as the collation and the characters
    of the titles have it, in whatever state and with whatever else they
    hold. *)
Lemma before_titles (d d' : Pg.db) (a b a' b' : Pg.job_row) :
  Pg.collation d' = Pg.collation d ->
  Pg.title a' = Pg.title a -> Pg.title b' = Pg.title b ->
  Pg.title a <> Pg.title b ->
  Pg.before d' a' b' = Pg.before d a b.
Proof.
  intros Hc Ha Hb Ht. unfold Pg.before. rewrite Hc, Ha, Hb.
  destruct (String.compare (Pg.collation d (Pg.title a)) _); try reflexivity.
  destruct (String.compare (Pg.title a) (Pg.title b)) eqn:E; try reflexivity.
  apply String.compare_eq_iff in E. contradiction.
Qed.

Lemma titles_differ_cons (x : Pg.job_row) (l : list Pg.job_row) :
  Laws.titles_differ (x :: l) = true ->
  (forall y, In y l -> Pg.title x <> Pg.title y)
  /\ Laws.titles_differ l = true.
Proof.
  unfold Laws.titles_differ. cbn [map]. intros H.
  apply distinct_cons in H as [Hx Hl]. split; [|exact Hl].
  intros y Hy Heq.
  assert (Hex : existsb (String.eqb (Pg.title x)) (map Pg.title l) = true).
  { apply existsb_exists. exists (Pg.title y). split.
    - now apply in_map.
    - now apply String.eqb_eq. }
  congruence.
Qed.

Lemma map_insert (g : Pg.job_row -> Pg.job_row) (d d' : Pg.db)
      (x : Pg.job_row) (l : list Pg.job_row) :
  Pg.collation d' = Pg.collation d ->
  (forall r, Pg.title (g r) = Pg.title r) ->
  (forall y, In y l -> Pg.title x <> Pg.title y) ->
  map g (Pg.insert_by_title d x l) = Pg.insert_by_title d' (g x) (map g l).
Proof.
  intros Hc Hg. induction l as [|y l IH]; intros Hx; [reflexivity|].
  cbn [Pg.insert_by_title map].
  rewrite (before_titles d d' x y (g x) (g y) Hc (Hg x) (Hg y))
    by (apply Hx; now left).
  destruct (Pg.before d x y); [reflexivity|].
  cbn [map]. rewrite IH; [reflexivity|].
  intros z Hz. apply Hx. now right.
Qed.

(** Changing rows of different titles without touching a title and
    ordering them by title can be done in either order, in whatever
    state the store is. *)
Lemma map_order (g : Pg.job_row -> Pg.job_row) (d d' : Pg.db)
      (l : list Pg.job_row) :
  Pg.collation d' = Pg.collation d ->
  (forall r, Pg.title (g r) = Pg.title r) ->
  Laws.titles_differ l = true ->
  map g (Pg.order_by_title d l) = Pg.order_by_title d' (map g l).
Proof.
  intros Hc Hg. induction l as [|x l IH]; intros Hl; [reflexivity|].
  apply titles_differ_cons in Hl as [Hx Hl].
  cbn [Pg.order_by_title map]. rewrite <- (IH Hl).
  apply (map_insert g d d' x _ Hc Hg).
  intros y Hy. apply Hx.
  apply (Permutation_in _ (order_by_title_perm d l) Hy).
Qed.

(** The order of rows of different titles is the same in every state of
    one collation. *)
Lemma order_of_titles (d d' : Pg.db) (l : list Pg.job_row) :
  Pg.collation d' = Pg.collation d ->
  Laws.titles_differ l = true ->
  Pg.order_by_title d l = Pg.order_by_title d' l.
Proof.
  intros Hc Hl.
  pose proof (map_order (fun r => r) d d' l Hc (fun r => eq_refl) Hl) as H.
  now rewrite !map_id in H.
Qed.

(* ================================================================= *)
(** ** Filters side by side *)

Lemma holds_salary_conjunct (m' e' m e : Z) (r : Pg.job_row) :
  Spec.same_number m' e' m e ->
  Pg.holds (Pg.SalaryGe m' e') r = Spec.salary_at_least m e r.
Proof.
  intros Hn. unfold Pg.holds, Spec.salary_at_least.
  destruct (Pg.salary r) as [s|]; [|reflexivity].
  apply (same_number_le m' e' m e s Hn).
Qed.

(** What the callback of [findFiltered] writes for a key of a well-formed
    filter, how the store reads it and what it asks of a job. *)
Lemma conjunct_of_key (filterBy : obj) (k : string) :
  Laws.filter_value k (prop filterBy k) = true ->
  exists w c,
    Job.where_of filterBy k = Return w
    /\ (forall rest,
          Laws.after_conjunct rest = true ->
          Pg.read_cond (w ++ rest) = Some (c, rest))
    /\ Pg.cond_known c = true
    /\ Pg.cond_ok c = true
    /\ forall r, Pg.holds c r = Laws.asks filterBy k r.
Proof.
  unfold Laws.filter_value, Laws.asks, Job.where_of.
  destruct (String.eqb_spec k "minSalary") as [->|_].
  - destruct (Number (prop filterBy "minSalary")) as [| |m e] eqn:Hnum;
      try discriminate.
    intros _. destruct (read_salary_conjunct m e) as (m' & e' & Hn & Hread).
    exists ("salary >= " ++ NumberToString (Fin m e)), (Pg.SalaryGe m' e').
    repeat split; [exact Hread|].
    intros r. now apply holds_salary_conjunct.
  - destruct (String.eqb_spec k "hasEquity") as [->|_].
    + destruct (prop filterBy "hasEquity") as [| |[|]| |]; try discriminate.
      intros _. exists "equity > 0", Pg.EquityPos. repeat split.
    + destruct (String.eqb_spec k "title") as [->|_]; [|discriminate].
      unfold Job.case_title.
      destruct (prop filterBy "title") as [| | | |text]; try discriminate.
      intros Hplain.
      exists ("LOWER(title) LIKE '%" ++ Text.toLowerCase text ++ "%'"),
        (Pg.TitleLike (String "%" (Text.toLowerCase text ++ "%"))).
      split; [reflexivity|]. rewrite <- plain_toLowerCase in Hplain.
      split; [|split; [reflexivity|split]].
      * intros rest. apply read_title_conjunct.
        now rewrite <- plain_toLowerCase.
      * apply (plain_pattern _ Hplain).
      * intros r. apply (like_contains _ _ Hplain).
Qed.

Lemma conjuncts_of_keys (filterBy : obj) (keys : list string) :
  forallb (fun k => Laws.filter_value k (prop filterBy k)) keys = true ->
  exists ws cs,
    map_throw (Job.where_of filterBy) keys = Return ws
    /\ Forall2 (fun w c =>
                  forall rest,
                    Laws.after_conjunct rest = true ->
                    Pg.read_cond (w ++ rest) = Some (c, rest)) ws cs
    /\ List.length ws = List.length keys
    /\ forallb Pg.cond_known cs = true
    /\ forallb Pg.cond_ok cs = true
    /\ forall r,
        Pg.all_hold cs r = forallb (fun k => Laws.asks filterBy k r) keys.
Proof.
  induction keys as [|k keys IH]; intros Hkeys.
  - exists [], []. repeat split. constructor.
  - cbn [forallb] in Hkeys. apply andb_prop in Hkeys as [Hk Hkeys].
    destruct (conjunct_of_key filterBy k Hk)
      as (w & c & Hw & Hread & Hknown & Hok & Hc).
    destruct (IH Hkeys) as (ws & cs & Hws & Hreads & Hlen & Hknowns & Hoks & Hcs).
    exists (w :: ws), (c :: cs). cbn [map_throw]. rewrite Hw, Hws.
    split; [reflexivity|]. split; [now constructor|].
    split; [cbn [List.length]; now rewrite Hlen|].
    split; [cbn [forallb]; now rewrite Hknown, Hknowns|].
    split; [cbn [forallb]; now rewrite Hok, Hoks|].
    intros r. unfold Pg.all_hold in *. cbn [forallb]. now rewrite Hc, Hcs.
Qed.

(** The call on a well-formed filter, in full. *)
Lemma findFiltered_meets (d : Pg.db) (filterBy : obj) :
  Laws.filter_data filterBy = true ->
  exists whereClause,
    Job.findFiltered filterBy d
    = (Return (map Pg.job_obj
                 (Pg.order_by_title (Spec.asked whereClause d)
                    (filter (Laws.meets filterBy) (Pg.jobs d)))),
       Spec.asked whereClause d).
Proof.
  unfold Laws.filter_data. intros H. apply andb_prop in H as [Hne Hkeys].
  assert (Hdata : filterBy <> []) by (intros ->; discriminate Hne).
  destruct (conjuncts_of_keys filterBy _ Hkeys)
    as (ws & cs & Hws & Hreads & Hlen & Hknowns & Hoks & Hcs).
  rewrite (findFiltered_eq d filterBy Hdata), Hws.
  exists (Text.join " AND " ws).
  assert (Hws_ne : ws <> []).
  { intros ->. destruct filterBy; [contradiction|discriminate Hlen]. }
  rewrite (run_where_read _ cs _ (read_conjuncts ws cs Hreads Hws_ne)
             Hknowns Hoks).
  do 4 f_equal. apply filter_ext. exact Hcs.
Qed.

(** X12.  Filters side by side are a conjunction.  For a non-empty filter
    over minSalary, hasEquity and title, in any order, with a minSalary
    that coerces to a finite number (the double nearest to what is
    written), hasEquity true and a title text without quote, wildcard or
    backslash, [findFiltered] issues one SELECT and returns exactly the
    jobs that meet every key (salary at least the number, equity above
    zero, title containing the text whatever the case of either), each
    once, in ascending order of title as the collation of the store has
    it; jobs that the ORDER BY leaves equal come as the store hands them
    over. *)
Theorem findFiltered_conjunction (d : Pg.db) (filterBy : obj) :
  Laws.filter_data filterBy = true ->
  exists whereClause rows,
    Job.findFiltered filterBy d
    = (Return (map Pg.job_obj rows), Spec.asked whereClause d)
    /\ rows = Pg.order_by_title (Spec.asked whereClause d)
                (filter (Laws.meets filterBy) (Pg.jobs d))
    /\ Permutation rows (filter (Laws.meets filterBy) (Pg.jobs d))
    /\ StronglySorted (Spec.title_le d) rows.
Proof.
  intros H. destruct (findFiltered_meets d filterBy H) as (clause & ->).
  exists clause, (Pg.order_by_title (Spec.asked clause d)
                    (filter (Laws.meets filterBy) (Pg.jobs d))).
  split; [reflexivity|]. split; [reflexivity|].
  split; [apply order_by_title_perm|].
  apply (order_by_title_ascending (Spec.asked clause d)).
Qed.

Lemma findFiltered_conjunction_witness :
  fst (Job.findFiltered
         [("title", VStr "JOB"); ("minSalary", VStr "50");
          ("hasEquity", VBool true)]
         Fixture.store)
  = Return [Pg.job_obj Fixture.job1].
Proof.
  destruct (findFiltered_conjunction Fixture.store
              [("title", VStr "JOB"); ("minSalary", VStr "50");
               ("hasEquity", VBool true)] eq_refl)
    as (clause & rows & -> & -> & _).
  reflexivity.
Defined.

Lemma contains_empty (t : string) : Laws.contains "" t = true.
Proof. now destruct t. Qed.

Lemma filter_all {A : Type} (f : A -> bool) (l : list A) :
  (forall x, f x = true) -> filter f l = l.
Proof.
  intros Hf. induction l as [|x l IH]; [reflexivity|].
  cbn [filter]. now rewrite Hf, IH.
Qed.

Lemma run_where_title (d : Pg.db) (text : string) :
  Laws.plain text = true ->
  Pg.run_where (Laws.title_clause text) d
  = (Pg.Rows (map Pg.job_obj
                (Pg.order_by_title d
                   (filter (Laws.title_contains text) (Pg.jobs d)))),
     d).
Proof.
  intros Hplain.
  pose proof (read_title_conjunct text "" Hplain eq_refl) as Hread.
  rewrite append_empty in Hread. rewrite <- plain_toLowerCase in Hplain.
  rewrite (run_where_read (Laws.title_clause text)
             [Pg.TitleLike (String "%" (Text.toLowerCase text ++ "%"))] d).
  - do 4 f_equal. apply filter_ext. intros r.
    unfold Pg.all_hold. cbn [forallb Pg.holds]. rewrite andb_true_r.
    apply (like_contains _ _ Hplain).
  - unfold Pg.read_where, Laws.title_clause. cbn [Pg.read_conds].
    now rewrite Hread.
  - reflexivity.
  - cbn [forallb Pg.cond_ok]. change (String "%" ?s) with ("%" ++ s).
    cbn [append Pg.pattern_ok Ascii.eqb Bool.eqb].
    now rewrite (proj2 (plain_pattern _ Hplain)).
Qed.

Lemma findFiltered_text (d : Pg.db) (k text : string) :
  k = "title" \/ k = "hasEquity" ->
  Job.findFiltered [(k, VStr text)] d
  = match Pg.run_where (Laws.title_clause text)
            (Spec.asked (Laws.title_clause text) d) with
    | (Pg.Rows rows, d') => (Return rows, d')
    | (Pg.NoRows, d') => (Throw (BadRequestError Job.filtering_error), d')
    | (Pg.Fault, d') => (Throw DbError, d')
    | (Pg.Beyond, d') => (Unknown, d')
    end.
Proof.
  intros Hk. rewrite findFiltered_eq by discriminate.
  assert (Hw : map_throw (Job.where_of [(k, VStr text)])
                         (Object_keys [(k, VStr text)])
               = Return [Laws.title_clause text])
    by (destruct Hk as [->| ->]; reflexivity).
  now rewrite Hw.
Qed.

(** X11.  The title filter is a search for the text inside the title
    that ignores case, and a text under hasEquity is searched for in the
    same way.  For a text without quote, wildcard or backslash, under
    the key title or under the key hasEquity, [findFiltered] issues the
    one SELECT with the text in lower case and returns the jobs whose
    title in lower case contains the text in lower case, in the order
    the store gives them for that SELECT: ascending by title in its
    collation.  Two texts that differ in case only give the same call
    altogether.  The empty text gives the jobs [findAll] gives, in the
    same order when no two jobs share a title. *)
Theorem findFiltered_title_text (d : Pg.db) (k text : string) :
  k = "title" \/ k = "hasEquity" ->
  Laws.plain text = true ->
  (exists rows,
      Job.findFiltered [(k, VStr text)] d
      = (Return (map Pg.job_obj rows), Spec.asked (Laws.title_clause text) d)
      /\ rows = Pg.order_by_title (Spec.asked (Laws.title_clause text) d)
                  (filter (Laws.title_contains text) (Pg.jobs d))
      /\ Permutation rows (filter (Laws.title_contains text) (Pg.jobs d))
      /\ StronglySorted (Spec.title_le d) rows)
  /\ (forall text',
        Text.toLowerCase text' = Text.toLowerCase text ->
        Job.findFiltered [(k, VStr text')] d
        = Job.findFiltered [(k, VStr text)] d)
  /\ (exists rows all,
        fst (Job.findFiltered [(k, VStr "")] d) = Return (map Pg.job_obj rows)
        /\ fst (Job.findAll d) = Return (map Pg.job_obj all)
        /\ Permutation rows all
        /\ (Laws.titles_differ (Pg.jobs d) = true -> rows = all)).
Proof.
  intros Hk Hplain. split; [|split].
  - exists (Pg.order_by_title (Spec.asked (Laws.title_clause text) d)
              (filter (Laws.title_contains text) (Pg.jobs d))).
    split; [|split; [reflexivity|split]].
    + rewrite (findFiltered_text d k text Hk).
      now rewrite (run_where_title _ text Hplain).
    + apply order_by_title_perm.
    + apply (order_by_title_ascending (Spec.asked (Laws.title_clause text) d)).
  - intros text' Hsame. rewrite !(findFiltered_text d k _ Hk).
    unfold Laws.title_clause. now rewrite Hsame.
  - exists (Pg.order_by_title (Spec.asked (Laws.title_clause "") d) (Pg.jobs d)),
      (Pg.order_by_title (Pg.record_query Pg.SelectJobs [] d) (Pg.jobs d)).
    split; [|split; [|split]].
    + rewrite (findFiltered_text d k "" Hk).
      rewrite (run_where_title _ "" eq_refl). cbn [fst]. do 3 f_equal.
      apply filter_all. intros r. unfold Laws.title_contains.
      cbn [Text.toLowerCase]. apply contains_empty.
    + now rewrite findAll_eq.
    + apply perm_trans with (Pg.jobs d); [apply order_by_title_perm|].
      apply Permutation_sym, order_by_title_perm.
    + intros Hl. now apply order_of_titles.
Qed.

Lemma findFiltered_title_text_witness :
  fst (Job.findFiltered [("title", VStr "B2")] Fixture.store)
  = Return [Pg.job_obj Fixture.job2]
  /\ fst (Job.findFiltered [("hasEquity", VStr "true")] Fixture.store)
     = Return [].
Proof.
  split.
  - destruct (proj1 (findFiltered_title_text Fixture.store "title" "B2"
                       (or_introl eq_refl) eq_refl))
      as (rows & -> & -> & _).
    reflexivity.
  - destruct (proj1 (findFiltered_title_text Fixture.store "hasEquity" "true"
                       (or_intror eq_refl) eq_refl))
      as (rows & -> & -> & _).
    reflexivity.
Defined.


(* ================================================================= *)
(** ** How a filtered search can end *)

Lemma where_of_throws (filterBy : obj) (k : string) (e : error) :
  Job.where_of filterBy k = Throw e ->
  e = TypeError
  \/ e = BadRequestError "minSalary must be a number."
  \/ e = BadRequestError ("Invalid filter key: " ++ k).
Proof.
  unfold Job.where_of, Job.case_title.
  destruct (String.eqb k "minSalary").
  - destruct (isNaN _); [|discriminate]. intros [= <-]. auto.
  - destruct (String.eqb k "hasEquity").
    + destruct (prop filterBy k) as [| |[|]| |]; try discriminate;
        intros [= <-]; auto.
    + destruct (String.eqb k "title").
      * destruct (prop filterBy k); try discriminate; intros [= <-]; auto.
      * intros [= <-]. auto.
Qed.

(** The three ways of [findFiltered]: the empty filter; a key that
    throws; a clause that goes to the store. *)
Lemma findFiltered_ends (d : Pg.db) (filterBy : obj) :
  (filterBy = []
   /\ Job.findFiltered filterBy d
      = (Throw (BadRequestError "No data to filter by"), d))
  \/ (exists k e,
         In k (Object_keys filterBy)
         /\ Job.where_of filterBy k = Throw e
         /\ Job.findFiltered filterBy d = (Throw e, d))
  \/ (exists ws,
         filterBy <> []
         /\ map_throw (Job.where_of filterBy) (Object_keys filterBy)
            = Return ws
         /\ Job.findFiltered filterBy d
            = match Pg.run_where (Text.join " AND " ws)
                      (Spec.asked (Text.join " AND " ws) d) with
              | (Pg.Rows rows, d') => (Return rows, d')
              | (Pg.NoRows, d') =>
                  (Throw (BadRequestError Job.filtering_error), d')
              | (Pg.Fault, d') => (Throw DbError, d')
              | (Pg.Beyond, d') => (Unknown, d')
              end).
Proof.
  destruct filterBy as [|kv rest]; [left; now split|]. right.
  rewrite findFiltered_eq by discriminate.
  destruct (map_throw _ _) as [ws|e|] eqn:Hmap.
  - right. exists ws. repeat split. discriminate.
  - left. destruct (map_throw_source _ _ _ Hmap) as (k & Hin & Hk).
    now exists k, e.
  - now apply map_throw_known in Hmap.
Qed.

(** The SELECT of a filtered search is the one statement the call adds
    to those issued, whatever the store makes of it. *)
Lemma run_where_issued (clause : string) (d : Pg.db) :
  Pg.issued (snd (Pg.run_where clause (Spec.asked clause d)))
  = (Pg.issued d ++ [(Pg.SelectJobsWhere clause, [])])%list.
Proof.
  apply (run_keeps_issued (Pg.SelectJobsWhere clause) []
           (Spec.asked clause d)).
Qed.

(** A filter whose texts stay inside their quotes is answered or refused
    by the store, and nothing is written. *)
Lemma findFiltered_quoted (d : Pg.db) (filterBy : obj) :
  Laws.all_quoted filterBy = true ->
  Spec.same_tables (snd (Job.findFiltered filterBy d)) d
  /\ fst (Job.findFiltered filterBy d)
     <> Throw (BadRequestError Job.filtering_error)
  /\ fst (Job.findFiltered filterBy d) <> Unknown.
Proof.
  intros Hq.
  destruct (findFiltered_ends d filterBy)
    as [[_ ->]|[(k & e & _ & Hk & ->)|(ws & Hne & Hws & ->)]].
  - split; [apply same_tables_refl|split; discriminate].
  - split; [apply same_tables_refl|]. cbn [fst].
    apply where_of_throws in Hk.
    split; destruct Hk as [->|[->| ->]]; discriminate.
  - destruct (run_where_own (Text.join " AND " ws)
                (Spec.asked (Text.join " AND " ws) d)
                (quoted_clause_read filterBy ws Hne Hq Hws))
      as (Hsnd & Hrows & Hbeyond).
    destruct (Pg.run_where _ _) as [[rows| | |] d']; cbn [fst snd] in *;
      subst d'; try contradiction;
      (split; [apply same_tables_issued|split; discriminate]).
Qed.




(** X16.  [findFiltered] checks before it asks.  Whatever the filter, the
    call issues at most one statement, the SELECT with the clause it
    built, and none when it throws anything but the store's error or
    the bad request about filters that are not populated: a rejected
    filter never reaches the store.  It never throws not-found.  The bad
    request about filters that are not populated, which the code raises
    when the reply has no rows member, is thrown only after the SELECT
    was issued with a clause the store does not read as a conjunction
    of the conjuncts of the three keys; a filter whose texts hold
    neither quote nor backslash never ends so. *)
Theorem findFiltered_checks_first (d : Pg.db) (filterBy : obj) :
  (forall e,
      fst (Job.findFiltered filterBy d) = Throw e ->
      e <> DbError -> e <> BadRequestError Job.filtering_error ->
      snd (Job.findFiltered filterBy d) = d)
  /\ (snd (Job.findFiltered filterBy d) = d
      \/ exists whereClause,
          Pg.issued (snd (Job.findFiltered filterBy d))
          = (Pg.issued d ++ [(Pg.SelectJobsWhere whereClause, [])])%list)
  /\ (forall m, fst (Job.findFiltered filterBy d) <> Throw (NotFoundError m))
  /\ (fst (Job.findFiltered filterBy d)
      = Throw (BadRequestError Job.filtering_error) ->
      Laws.all_quoted filterBy = false
      /\ exists ws,
          map_throw (Job.where_of filterBy) (Object_keys filterBy) = Return ws
          /\ Spec.unread (Text.join " AND " ws) = true
          /\ Pg.issued (snd (Job.findFiltered filterBy d))
             = (Pg.issued d
                ++ [(Pg.SelectJobsWhere (Text.join " AND " ws), [])])%list).
Proof.
  destruct (findFiltered_ends d filterBy)
    as [[_ Hcall]|[(k & e0 & _ & Hk & Hcall)|(ws & Hne & Hws & Hcall)]].
  - rewrite Hcall. cbn [fst snd]. repeat split; try discriminate; auto.
  - rewrite Hcall. cbn [fst snd]. apply where_of_throws in Hk.
    repeat split; auto; destruct Hk as [->|[->| ->]]; discriminate.
  - pose proof (run_where_issued (Text.join " AND " ws) d) as Hissued.
    assert (Hsnd : Pg.issued (snd (Job.findFiltered filterBy d))
                   = (Pg.issued d
                      ++ [(Pg.SelectJobsWhere (Text.join " AND " ws), [])])%list).
    { rewrite Hcall.
      destruct (Pg.run_where _ _) as [[rows| | |] d']; exact Hissued. }
    split; [|split; [|split]].
    + intros e He Hdb Hfe. rewrite Hcall in He.
      destruct (Pg.run_where _ _) as [[rows| | |] d']; cbn [fst] in He;
        try discriminate He; injection He as <-; contradiction.
    + right. now exists (Text.join " AND " ws).
    + intros m. rewrite Hcall.
      destruct (Pg.run_where _ _) as [[rows| | |] d']; discriminate.
    + intros Hm.
      destruct (Laws.all_quoted filterBy) eqn:Hq.
      { now destruct (findFiltered_quoted d filterBy Hq) as (_ & Hnot & _). }
      split; [reflexivity|]. exists ws. split; [exact Hws|].
      split; [|exact Hsnd].
      destruct (Spec.unread (Text.join " AND " ws)) eqn:Hunread;
        [reflexivity|].
      destruct (run_where_own _ (Spec.asked (Text.join " AND " ws) d) Hunread)
        as (_ & Hrows & _).
      rewrite Hcall in Hm.
      destruct (Pg.run_where _ _) as [[rows| | |] d']; cbn [fst] in *;
        try discriminate Hm. now contradiction Hrows.
Qed.

Lemma findFiltered_checks_first_witness :
  snd (Job.findFiltered [("title", VNum (int 5))] Fixture.store)
  = Fixture.store
  /\ Laws.all_quoted [("title", VStr "'; DELETE FROM jobs; --")] = false.
Proof.
  split.
  - apply (proj1 (findFiltered_checks_first Fixture.store
                    [("title", VNum (int 5))]) TypeError);
      [reflexivity|discriminate|discriminate].
  - apply (proj2 (proj2 (proj2 (findFiltered_checks_first Fixture.injectable
                    [("title", VStr "'; DELETE FROM jobs; --")])))).
    reflexivity.
Defined.


(* ================================================================= *)
(** ** What the calls leave in the tables *)

(** The SELECT statements of fixed text leave the store as it is,
    whatever their parameters. *)
Lemma query_select (st : Pg.statement) (args : list jsval) (d : Pg.db) :
  Laws.selects st = true ->
  snd (query st args d) = Pg.record_query st args d.
Proof.
  intros Hst. unfold query, query_result.
  destruct st; try discriminate Hst; cbn [Pg.run].
  - destruct (map Pg.prepareValue args); reflexivity.
  - destruct (map Pg.prepareValue args) as [|p [|? ?]]; try reflexivity.
    destruct (Pg.read_integer p) as [[v|]|]; reflexivity.
  - destruct (map Pg.prepareValue args) as [|[h|] [|? ?]]; reflexivity.
Qed.

Lemma bind_select {A : Type} (st : Pg.statement) (args : list jsval)
      (k : list obj -> M A) (d : Pg.db) :
  Laws.selects st = true ->
  (forall rows d', Spec.same_tables d' d -> Spec.same_tables (snd (k rows d')) d) ->
  Spec.same_tables (snd (bind (query st args) k d)) d.
Proof.
  intros Hst Hk. unfold bind.
  pose proof (query_select st args d Hst) as Hq.
  destruct (query st args d) as [[rows|e|] d']; cbn [snd] in Hq; subst d';
    cbn [snd]; try apply same_tables_issued.
  apply Hk, same_tables_issued.
Qed.

(** X1.  The reading calls whose statements are fixed write nothing, and
    [findFiltered] writes nothing as long as no text leaves its quotes.
    After [findAll] and after [get] with any id, however the call ends,
    the jobs, the companies and the id sequence are those of before.
    After [findFiltered] they are those of before when no text under
    title or hasEquity holds a quote or a backslash, whatever else the
    filter holds; such a call does not end in the bad request about
    filters that are not populated either.  (A text with a quote goes
    into the statement as it is: what the store then does is not settled
    by the sources, and the tables may change.) *)
Theorem reads_never_write (d : Pg.db) (filterBy : obj) (id : jsval) :
  Spec.same_tables (snd (Job.findAll d)) d
  /\ Spec.same_tables (snd (Job.get id d)) d
  /\ (Laws.all_quoted filterBy = true ->
      Spec.same_tables (snd (Job.findFiltered filterBy d)) d
      /\ fst (Job.findFiltered filterBy d)
         <> Throw (BadRequestError Job.filtering_error)).
Proof.
  split; [|split].
  - apply same_tables_issued.
  - unfold Job.get. apply bind_select; [reflexivity|].
    intros [|job rows] d' Hd'; [exact Hd'|].
    eapply same_tables_trans; [|exact Hd'].
    apply bind_select; [reflexivity|]. intros rows' d'' Hd''. exact Hd''.
  - intros Hq. destruct (findFiltered_quoted d filterBy Hq) as (H1 & H2 & _).
    now split.
Qed.

Lemma reads_never_write_witness :
  Spec.same_tables
    (snd (Job.findFiltered [("title", VStr "job; DROP TABLE jobs"); ("minSalary", VStr "1e400")]
            Fixture.injectable))
    Fixture.injectable.
Proof.
  apply (proj2 (proj2 (reads_never_write Fixture.injectable
                         [("title", VStr "job; DROP TABLE jobs"); ("minSalary", VStr "1e400")]
                         VNull))).
  reflexivity.
Defined.

Lemma filter_nothing {A : Type} (f : A -> bool) (l : list A) :
  (forall x, In x l -> f x = false) -> filter f l = [].
Proof.
  induction l as [|x l IH]; intros H; [reflexivity|].
  cbn [filter]. rewrite (H x) by now left.
  apply IH. intros y Hy. apply H. now right.
Qed.

(** Placeholders that each stand in one place are of one type each. *)
Lemma shared_apart (uses : list (nat * Pg.kind)) :
  NoDup (map fst uses) -> Pg.shared uses = Some true.
Proof.
  induction uses as [|[n k] rest IH]; [reflexivity|].
  cbn [map fst]. intros H. inversion H as [|? ? Hn Hrest]; subst.
  cbn [Pg.shared]. rewrite (IH Hrest).
  assert (Hsame : filter (fun u => Nat.eqb (fst u) n) rest = []).
  { apply filter_nothing. intros u Hu.
    destruct (Nat.eqb_spec (fst u) n) as [E|]; [|reflexivity].
    exfalso. apply Hn. rewrite <- E. now apply in_map. }
  rewrite Hsame. cbn [forallb negb]. now destruct k.
Qed.

Lemma combine_apart {A B : Type} (a : list A) (b : list B) (t : list A) :
  NoDup (a ++ t) -> NoDup (map fst (combine a b) ++ t).
Proof.
  revert b. induction a as [|x a IH]; intros b H; [exact H|].
  destruct b as [|y b]; cbn [combine map fst app].
  - cbn [app] in H. inversion H; subst.
    apply (IH []) in H3. now destruct a.
  - cbn [app] in H. inversion H as [|? ? Hx Hrest]; subst.
    constructor; [|now apply IH].
    intros Hin. apply Hx. apply in_app_or in Hin.
    apply in_or_app. destruct Hin as [Hin|Hin]; [left|now right].
    apply in_map_iff in Hin. destruct Hin as ([x' y'] & <- & Hin).
    now apply in_combine_l in Hin.
Qed.

(** The SET clause [update] writes for keys without a double quote is
    one the store reads: it plans the UPDATE or refuses it. *)
Lemma plan_readable (data : obj) (params : list (option string)) :
  data <> [] ->
  (forall k, In k (Object_keys data) ->
             Laws.no_dquote (Laws.column_text k) = true) ->
  Pg.plan_update (Spec.set_clause_of data)
    ("$" ++ Text.decimal (Z.of_nat (List.length data) + 1)) params
  <> Pg.Unreadable.
Proof.
  intros Hdata Hcols.
  unfold Pg.plan_update, Spec.set_clause_of, Spec.set_clause.
  rewrite (read_set_fragments (or_key []) data 1); auto; [|lia|].
  - cbn [append]. rewrite <- (append_empty (Text.decimal _)).
    rewrite read_placeholder_decimal by (reflexivity || lia).
    destruct (Pg.all_some _) as [cols|]; [|discriminate].
    destruct (negb (Pg.distinct _ _)); [discriminate|].
    destruct (negb (Pg.params_fit _ _)); [discriminate|].
    rewrite shared_apart.
    + destruct (Pg.all_some _); [|discriminate].
      destruct (Pg.read_integer _); discriminate.
    + rewrite map_app. cbn [map fst]. apply combine_apart.
      rewrite (proj2 (numbered_columns _ _)).
      replace (Z.to_nat (Z.of_nat (List.length data) + 1))
        with (Z.to_nat 1 + List.length (map (or_key []) (Object_keys data)))%nat.
      * rewrite <- seq_S. apply seq_NoDup.
      * unfold Object_keys. rewrite !length_map. lia.
  - pose proof (fragments_length (or_key []) data 1). lia.
Qed.

(** X2.  A writing call that does not return has written no row.  When
    [create] throws, the jobs and the companies are those of before, and
    the id sequence is where it was or one further: the store draws the
    id before it refuses the row.  When [update] with keys that hold no
    double quote throws, whether the accessor's own error or the
    store's, and when [remove] throws, the jobs, the companies and the
    id sequence are those of before.  (A key with a double quote leaves
    its quotes in the SET clause: what the store then does is not
    settled by the sources.) *)
Theorem failed_write_keeps_rows (d : Pg.db) (id : jsval) (data : obj) :
  (Laws.returned (fst (Job.create data d)) = false ->
     Laws.same_rows (snd (Job.create data d)) d
     /\ (Pg.next_id (snd (Job.create data d)) = Pg.next_id d
         \/ Pg.next_id (snd (Job.create data d)) = Pg.next_id d + 1))
  /\ ((forall k, In k (Object_keys data) ->
                 Laws.no_dquote (Laws.column_text k) = true) ->
      Laws.returned (fst (Job.update id data d)) = false ->
      Spec.same_tables (snd (Job.update id data d)) d)
  /\ (Laws.returned (fst (Job.remove id d)) = false ->
      Spec.same_tables (snd (Job.remove id d)) d).
Proof.
  split; [|split].
  - destruct (create_cases d data) as [(r & _ & _ & _ & ->)|[-> | ->]];
      cbn [fst snd Laws.returned]; [discriminate| |]; intros _.
    + split; [now split|now left].
    + split; [now split|now right].
  - intros Hcols.
    destruct data as [|kv rest]; [intros _; apply same_tables_refl|].
    rewrite update_eq by discriminate.
    set (d0 := Pg.record_query _ _ d).
    unfold Spec.update_statement. cbn [Pg.run]. unfold Pg.run_update.
    pose proof (plan_readable (kv :: rest)
                  (map Pg.prepareValue (Spec.update_args id (kv :: rest)))
                  ltac:(discriminate) Hcols) as Hplan.
    destruct (Pg.plan_update _ _ _) as [cols changes key| |];
      [| intros _; apply same_tables_issued | contradiction].
    pose proof (exec_update_ends cols changes key d0) as Hends.
    destruct (Pg.exec_update cols changes key d0) as [[[|row rows]| | |] d'];
      cbn [fst snd Laws.returned]; try discriminate; try contradiction;
      intros _;
      (eapply same_tables_trans; [exact Hends | apply same_tables_issued]).
  - unfold Job.remove, bind, query, query_result. cbn [Pg.run map].
    set (d0 := Pg.record_query _ _ d).
    destruct (Pg.read_integer (Pg.prepareValue id)) as [[v|]|];
      try (intros _; apply same_tables_issued).
    destruct (Pg.select_by_id v d0) as [|j js] eqn:Hsel;
      cbn [map fst snd Laws.returned rows_of]; [intros _|discriminate].
    unfold Pg.select_by_id in Hsel.
    split; [|now split]. cbn [snd Pg.jobs Pg.with_jobs].
    apply (filter_none_keeps_all _ _ Hsel).
Qed.

Lemma failed_write_keeps_rows_witness :
  (Laws.same_rows
     (snd (Job.create [("title", VStr "t"); ("companyHandle", VStr "nope")]
             Fixture.store))
     Fixture.store
   /\ Pg.next_id
        (snd (Job.create [("title", VStr "t"); ("companyHandle", VStr "nope")]
                Fixture.store))
      = 4)
  /\ Spec.same_tables
       (snd (Job.update (VNum (int 0)) [("title", VStr "t")] Fixture.store))
       Fixture.store
  /\ Spec.same_tables (snd (Job.remove (VStr "x") Fixture.store)) Fixture.store.
Proof.
  split; [|split].
  - split; [|reflexivity].
    apply (proj1 (failed_write_keeps_rows Fixture.store VNull
                    [("title", VStr "t"); ("companyHandle", VStr "nope")])).
    reflexivity.
  - apply (proj1 (proj2 (failed_write_keeps_rows Fixture.store
                           (VNum (int 0)) [("title", VStr "t")]))).
    + intros k [<-|[]]. reflexivity.
    + reflexivity.
  - apply (proj2 (proj2 (failed_write_keeps_rows Fixture.store
                           (VStr "x") []))).
    reflexivity.
Defined.


(* ================================================================= *)
(** ** The list of all jobs and the other calls *)

Lemma insert_at_head (d : Pg.db) (x : Pg.job_row) (l : list Pg.job_row) :
  Forall (Spec.precedes d x) l -> Pg.insert_by_title d x l = x :: l.
Proof.
  intros H. destruct l as [|y l]; [reflexivity|]. cbn [Pg.insert_by_title].
  inversion H as [|? ? Hy _]; subst. unfold Spec.precedes in Hy.
  now rewrite Hy.
Qed.

Lemma forall_filter {A : Type} (P : A -> Prop) (f : A -> bool) (l : list A) :
  Forall P l -> Forall P (filter f l).
Proof.
  intros H. apply Forall_forall. intros x Hx. apply filter_In in Hx as [Hx _].
  revert x Hx. now apply Forall_forall.
Qed.

Lemma filter_insert (d : Pg.db) (f : Pg.job_row -> bool) (x : Pg.job_row)
      (l : list Pg.job_row) :
  StronglySorted (Spec.precedes d) l ->
  filter f (Pg.insert_by_title d x l)
  = if f x then Pg.insert_by_title d x (filter f l) else filter f l.
Proof.
  induction 1 as [|y l Hl IH Hy].
  - cbn [Pg.insert_by_title filter]. now destruct (f x).
  - cbn [Pg.insert_by_title].
    destruct (Pg.before d x y) eqn:Hxy.
    + cbn [filter]. destruct (f x) eqn:Hx; [|reflexivity].
      fold (filter f (y :: l)) in *. cbn [filter]. symmetry.
      change (if f y then y :: filter f l else filter f l)
        with (filter f (y :: l)).
      apply insert_at_head. apply forall_filter. constructor; [exact Hxy|].
      apply Forall_forall. intros z Hz.
      apply (before_trans d x y z Hxy).
      revert z Hz. now apply Forall_forall.
    + cbn [filter]. rewrite IH.
      destruct (f x), (f y); cbn [Pg.insert_by_title]; now rewrite ?Hxy.
Qed.

(** In one state of the store, leaving rows out and ordering by title
    can be done in either order. *)
Lemma filter_order (d : Pg.db) (f : Pg.job_row -> bool)
      (l : list Pg.job_row) :
  filter f (Pg.order_by_title d l) = Pg.order_by_title d (filter f l).
Proof.
  induction l as [|x l IH]; [reflexivity|]. cbn [Pg.order_by_title filter].
  rewrite filter_insert by apply order_by_title_sorted. rewrite IH.
  now destruct (f x).
Qed.

Lemma filter_permutation {A : Type} (f : A -> bool) (l l' : list A) :
  Permutation l l' -> Permutation (filter f l) (filter f l').
Proof.
  induction 1 as [|x l l' _ IH|x y l|l l' l'' _ IH1 _ IH2]; cbn [filter].
  - apply perm_nil.
  - destruct (f x); [now apply perm_skip|exact IH].
  - destruct (f x), (f y); try apply Permutation_refl. apply perm_swap.
  - now apply perm_trans with (filter f l').
Qed.

Lemma titles_differ_filter (f : Pg.job_row -> bool) (l : list Pg.job_row) :
  Laws.titles_differ l = true -> Laws.titles_differ (filter f l) = true.
Proof.
  induction l as [|x l IH]; [reflexivity|]. intros H.
  pose proof (titles_differ_cons x l H) as [Hx Hl].
  cbn [filter]. destruct (f x); [|now apply IH].
  specialize (IH Hl). unfold Laws.titles_differ in *. cbn [map Pg.distinct].
  rewrite IH, andb_true_r. apply negb_true_iff.
  destruct (existsb _ _) eqn:Hex; [|reflexivity]. exfalso.
  apply existsb_exists in Hex as (t & Hin & Heq).
  apply String.eqb_eq in Heq. apply in_map_iff in Hin as (y & <- & Hy).
  apply filter_In in Hy as [Hy _]. now apply (Hx y Hy).
Qed.

(** Rows of different titles with some left out: the order is that of
    all of them, in whatever state the store lists them. *)
Lemma filter_order_of_titles (d d' : Pg.db) (f : Pg.job_row -> bool)
      (l : list Pg.job_row) :
  Pg.collation d' = Pg.collation d ->
  Laws.titles_differ l = true ->
  Pg.order_by_title d' (filter f l) = filter f (Pg.order_by_title d l).
Proof.
  intros Hc Hl. rewrite filter_order.
  apply order_of_titles; [now symmetry|now apply titles_differ_filter].
Qed.

(** X13.  A filtered list is the full list with rows left out.  For a
    well-formed filter (a minSalary that coerces to a finite number,
    hasEquity true, a title text without quote, wildcard or backslash),
    what [findFiltered] returns holds the jobs of what [findAll] returns
    on the same store that meet the filter, each once; and when no two
    jobs share a title, the jobs that stay are in the order [findAll]
    has them in.  (Among jobs of one title the store promises no order,
    and the two statements may list them differently.) *)
Theorem findFiltered_within_findAll (d : Pg.db) (filterBy : obj) :
  Laws.filter_data filterBy = true ->
  let all := Pg.order_by_title (Pg.record_query Pg.SelectJobs [] d)
               (Pg.jobs d) in
  fst (Job.findAll d) = Return (map Pg.job_obj all)
  /\ (exists rows,
         fst (Job.findFiltered filterBy d) = Return (map Pg.job_obj rows)
         /\ Permutation rows (filter (Laws.meets filterBy) all))
  /\ (Laws.titles_differ (Pg.jobs d) = true ->
      fst (Job.findFiltered filterBy d)
      = Return (map Pg.job_obj (filter (Laws.meets filterBy) all))).
Proof.
  intros H. cbv zeta. destruct (findFiltered_meets d filterBy H) as (clause & ->).
  split; [reflexivity|]. cbn [fst]. split.
  - eexists. split; [reflexivity|].
    apply perm_trans with (filter (Laws.meets filterBy) (Pg.jobs d));
      [apply order_by_title_perm|].
    apply filter_permutation, Permutation_sym, order_by_title_perm.
  - intros Hl. do 2 f_equal. now apply filter_order_of_titles.
Qed.

Lemma findFiltered_within_findAll_witness :
  fst (Job.findFiltered [("minSalary", VNum (int 200))] Fixture.store)
  = Return [Pg.job_obj Fixture.job2].
Proof.
  apply (proj2 (proj2 (findFiltered_within_findAll Fixture.store
                         [("minSalary", VNum (int 200))] eq_refl))).
  reflexivity.
Defined.

(** X14.  [findAll] shows a removal and a creation, and nothing else
    moves.  In a store where no two jobs share a title (among jobs of
    one title the store promises no order), and for an id the store
    reads as an integer: after [remove(id)] the list is the list of
    before without the jobs of that id, the others in their order.
    After a [create] in such a store where no job has the next id yet,
    the list holds the new job, and without it is the list of before. *)
Theorem findAll_after_remove_or_create (d : Pg.db) :
  Laws.titles_differ (Pg.jobs d) = true ->
  let rows := Pg.order_by_title (Pg.record_query Pg.SelectJobs [] d)
                (Pg.jobs d) in
    fst (Job.findAll d) = Return (map Pg.job_obj rows)
    /\ (forall id v,
          Spec.denotes id v ->
          fst (Job.findAll (snd (Job.remove id d)))
          = Return (map Pg.job_obj
                      (filter (fun r => negb (Pg.id r =? v)) rows)))
    /\ (forall data r,
          Laws.created data (Pg.next_id d) r ->
          Pg.has_company d (Pg.company_handle r) = true ->
          Laws.fresh d = true ->
          exists rows',
            fst (Job.findAll (snd (Job.create data d)))
            = Return (map Pg.job_obj rows')
            /\ In r rows'
            /\ filter (fun x => negb (Pg.id x =? Pg.next_id d)) rows' = rows).
Proof.
  intros Hl. cbv zeta. split; [reflexivity|]. split.
  - intros id v Hid. rewrite (remove_eq d id v Hid), findAll_eq.
    cbn [fst snd Pg.jobs Pg.with_jobs Pg.record_query]. do 2 f_equal.
    now apply filter_order_of_titles.
  - intros data r Hcreated Hcompany Hfresh.
    rewrite (create_eq d data r Hcreated Hcompany Hfresh), findAll_eq.
    cbn [fst snd].
    eexists. split; [reflexivity|]. split.
    + apply (Permutation_in _ (Permutation_sym (order_by_title_perm _ _))).
      unfold Laws.inserted, Pg.with_content. cbn [Pg.jobs Pg.record_query fst].
      apply in_or_app. right. now left.
    + rewrite filter_order.
      unfold Laws.inserted at 2, Pg.with_content.
      cbn [Pg.jobs Pg.record_query fst].
      rewrite filter_app, (proj2 (fresh_none d Hfresh)).
      cbn [filter]. destruct Hcreated as (_ & _ & _ & _ & ->).
      rewrite Z.eqb_refl. cbn [negb]. rewrite app_nil_r.
      now apply order_of_titles.
Qed.

Lemma findAll_after_remove_or_create_witness :
  fst (Job.findAll (snd (Job.remove (VNum (int 1)) Fixture.store)))
  = Return [Pg.job_obj Fixture.job2].
Proof.
  apply (proj1 (proj2 (findAll_after_remove_or_create Fixture.store eq_refl))
           (VNum (int 1)) 1 eq_refl).
Defined.

(** X15.  An update that names no title moves no job in the list, as
    long as the titles tell the jobs apart.  In a store where no two
    jobs share a title (among jobs of one title the store promises no
    order, and an update may move a row), for an id the store reads as
    an integer and non-empty data over salary and equity that the store
    takes, [findAll] after the update returns the jobs in the order of
    before, those of the id with the supplied fields changed and every
    other job as it was. *)
Theorem findAll_after_update (d : Pg.db) (id : jsval) (v : Z) (data : obj) :
  Laws.titles_differ (Pg.jobs d) = true ->
  Spec.denotes id v -> data <> [] -> Spec.update_data data = true ->
  own data "title" = None ->
  let rows := Pg.order_by_title (Pg.record_query Pg.SelectJobs [] d)
                (Pg.jobs d) in
  fst (Job.findAll d) = Return (map Pg.job_obj rows)
  /\ fst (Job.findAll (snd (Job.update id data d)))
     = Return (map Pg.job_obj
                 (map (fun r => if Pg.id r =? v then Spec.patched data r else r)
                      rows)).
Proof.
  intros Hl Hid Hdata Hvalid Htitle. cbv zeta. split; [reflexivity|].
  rewrite (update_valid d id v data Hid Hdata Hvalid), findAll_eq.
  cbn [fst snd Pg.jobs Pg.with_jobs]. do 2 f_equal. symmetry.
  apply map_order; [reflexivity| |exact Hl].
  intros r. destruct (Pg.id r =? v); [|reflexivity].
  unfold Spec.patched. cbn [Pg.title]. now rewrite Htitle.
Qed.

Lemma findAll_after_update_witness :
  fst (Job.findAll
         (snd (Job.update (VNum (int 2)) [("salary", VNum (int 50))]
                 Fixture.store)))
  = Return
      [ Pg.job_obj Fixture.job1;
        [ ("id", VNum (int 2)); ("title", VStr "job2");
          ("salary", VNum (int 50)); ("equity", VStr "0");
          ("companyHandle", VStr "c2") ] ].
Proof.
  apply (proj2 (findAll_after_update Fixture.store (VNum (int 2)) 2
                  [("salary", VNum (int 50))] eq_refl eq_refl
                  ltac:(discriminate) eq_refl eq_refl)).
Defined.

(* ================================================================= *)
(** ** An id as a number and as a text *)

Lemma ToString_integer (z : Z) :
  (String.length (Text.decimal (Z.abs z)) <= 21)%nat ->
  ToString (VNum (int z)) = Text.decimal z.
Proof. intros H. unfold int. cbn [ToString]. now apply NumberToString_integer. Qed.

(** X17.  An id may come as a number or as its decimal text.  For an
    integer of at most 21 digits, [get], [remove] and [update] end in
    the same way with the number and with the text (the same value, or
    the same error with the same message) and leave the same tables. *)
Theorem id_as_text (d : Pg.db) (z : Z) (data : obj) :
  (String.length (Text.decimal (Z.abs z)) <= 21)%nat ->
  let n := VNum (int z) in
  let s := VStr (Text.decimal z) in
  fst (Job.get n d) = fst (Job.get s d)
  /\ fst (Job.remove n d) = fst (Job.remove s d)
  /\ Spec.same_tables (snd (Job.remove n d)) (snd (Job.remove s d))
  /\ (data <> [] -> Spec.update_data data = true ->
      fst (Job.update n data d) = fst (Job.update s data d)
      /\ Spec.same_tables (snd (Job.update n data d))
                          (snd (Job.update s data d))).
Proof.
  intros Hlen. cbv zeta.
  destruct (denotes_text_or_number z) as [Hs Hn]. specialize (Hn Hlen).
  pose proof (ToString_integer z Hlen) as Htext.
  split; [|split; [|split]].
  - rewrite (get_eq d _ z Hn), (get_eq d _ z Hs), Htext.
    now destruct (Pg.select_by_id z d).
  - rewrite (remove_eq d _ z Hn), (remove_eq d _ z Hs), Htext. reflexivity.
  - rewrite (remove_eq d _ z Hn), (remove_eq d _ z Hs). now repeat split.
  - intros Hdata Hvalid.
    rewrite (update_valid d _ z data Hn Hdata Hvalid),
      (update_valid d _ z data Hs Hdata Hvalid), Htext.
    split; [reflexivity|now repeat split].
Qed.

Lemma id_as_text_witness :
  fst (Job.get (VNum (int 2)) Fixture.store)
  = fst (Job.get (VStr "2") Fixture.store).
Proof.
  apply (id_as_text Fixture.store 2 []). cbn. repeat constructor.
Defined.


(* ================================================================= *)
(** ** A store in order stays in order *)

Lemma sound_same_tables (a b : Pg.db) :
  Spec.same_tables a b -> Laws.sound a = Laws.sound b.
Proof.
  intros (Hj & Hc & Hn). unfold Laws.sound, Pg.has_company.
  now rewrite Hj, Hc, Hn.
Qed.

Lemma sound_parts (d : Pg.db) :
  Laws.sound d = true ->
  Pg.distinct Z.eqb (map Pg.id (Pg.jobs d)) = true
  /\ forallb (fun r => Pg.id r <? Pg.next_id d) (Pg.jobs d) = true
  /\ forallb (fun r => Pg.has_company d (Pg.company_handle r)) (Pg.jobs d)
     = true.
Proof.
  unfold Laws.sound. intros H. apply andb_prop in H as [H H3].
  apply andb_prop in H as [H1 H2]. auto.
Qed.

Lemma no_id_filter (f : Pg.job_row -> bool) (v : Z) (l : list Pg.job_row) :
  existsb (Z.eqb v) (map Pg.id l) = false ->
  existsb (Z.eqb v) (map Pg.id (filter f l)) = false.
Proof.
  induction l as [|x l IH]; [reflexivity|]. cbn [map existsb filter].
  intros H. apply orb_false_iff in H as [Hx Hl].
  destruct (f x); [cbn [map existsb]; rewrite Hx|]; now apply IH.
Qed.

Lemma distinct_filter (f : Pg.job_row -> bool) (l : list Pg.job_row) :
  Pg.distinct Z.eqb (map Pg.id l) = true ->
  Pg.distinct Z.eqb (map Pg.id (filter f l)) = true.
Proof.
  induction l as [|x l IH]; [reflexivity|]. cbn [map filter].
  intros H. apply distinct_cons in H as [Hx Hl].
  destruct (f x); [|now apply IH]. cbn [map Pg.distinct].
  now rewrite (no_id_filter f _ l Hx), (IH Hl).
Qed.

Lemma forallb_filter {A : Type} (p f : A -> bool) (l : list A) :
  forallb p l = true -> forallb p (filter f l) = true.
Proof.
  intros H. apply forallb_forall. intros x Hx.
  apply filter_In in Hx as [Hx _]. revert x Hx. now apply forallb_forall.
Qed.

Lemma distinct_new (l : list Pg.job_row) (r : Pg.job_row) :
  Pg.distinct Z.eqb (map Pg.id l) = true ->
  forallb (fun x => Pg.id x <? Pg.id r) l = true ->
  Pg.distinct Z.eqb (map Pg.id (l ++ [r])) = true.
Proof.
  induction l as [|x l IH]; [reflexivity|]. cbn [map Datatypes.app forallb].
  intros H Hlt. apply distinct_cons in H as [Hx Hl].
  apply andb_prop in Hlt as [Hxr Hlt]. cbn [Pg.distinct].
  rewrite (IH Hl Hlt), andb_true_r. apply negb_true_iff.
  rewrite map_app, existsb_app, Hx. cbn [map existsb].
  apply Z.ltb_lt in Hxr. destruct (Z.eqb_spec (Pg.id x) (Pg.id r)); [lia|].
  reflexivity.
Qed.

Lemma forallb_weaken {A : Type} (p q : A -> bool) (l : list A) :
  (forall x, p x = true -> q x = true) ->
  forallb p l = true -> forallb q l = true.
Proof.
  intros Hpq H. apply forallb_forall. intros x Hx. apply Hpq.
  revert x Hx. now apply forallb_forall.
Qed.

Lemma sound_inserted (d : Pg.db) (r : Pg.job_row) :
  Laws.sound d = true -> Pg.id r = Pg.next_id d ->
  Pg.has_company d (Pg.company_handle r) = true ->
  Laws.sound (Laws.inserted d r) = true.
Proof.
  intros Hd Hid Hcompany. destruct (sound_parts d Hd) as (H1 & H2 & H3).
  unfold Laws.sound, Laws.inserted, Pg.with_content.
  cbn [Pg.jobs Pg.next_id fst snd].
  rewrite !forallb_app. cbn [forallb].
  unfold Pg.has_company in *. cbn [Pg.companies]. rewrite H3, Hcompany.
  rewrite distinct_new; [|exact H1|now rewrite Hid].
  assert (Hnext : forallb (fun x => Pg.id x <? Pg.next_id d + 1) (Pg.jobs d)
                  = true).
  { apply (forallb_weaken (fun x => Pg.id x <? Pg.next_id d)); [|exact H2].
    intros x Hx. apply Z.ltb_lt in Hx. apply Z.ltb_lt. lia. }
  rewrite Hnext, Hid. cbn [andb]. rewrite !andb_true_r. apply Z.ltb_lt. lia.
Qed.

Lemma sound_drawn (d : Pg.db) :
  Laws.sound d = true -> Laws.sound (Laws.drawn d) = true.
Proof.
  intros Hd. destruct (sound_parts d Hd) as (H1 & H2 & H3).
  unfold Laws.sound, Laws.drawn, Pg.with_content, Pg.has_company in *.
  cbn [Pg.jobs Pg.next_id Pg.companies fst snd]. rewrite H1, H3.
  rewrite (forallb_weaken (fun x => Pg.id x <? Pg.next_id d)
             (fun x => Pg.id x <? Pg.next_id d + 1) _); [reflexivity| |exact H2].
  intros x Hx. apply Z.ltb_lt in Hx. apply Z.ltb_lt. lia.
Qed.

Lemma forallb_mapped {A B : Type} (p : B -> bool) (g : A -> B) (l : list A) :
  forallb p (map g l) = forallb (fun x => p (g x)) l.
Proof.
  induction l as [|x l IH]; [reflexivity|]. cbn [map forallb].
  now rewrite IH.
Qed.

Lemma forallb_same {A : Type} (p q : A -> bool) (l : list A) :
  (forall x, p x = q x) -> forallb p l = forallb q l.
Proof.
  intros Hpq. induction l as [|x l IH]; [reflexivity|]. cbn [forallb].
  now rewrite Hpq, IH.
Qed.

Lemma sound_patched (d : Pg.db) (data : obj) (v : Z) :
  Laws.sound d = true ->
  Laws.sound
    (Pg.with_jobs d
       (map (fun r => if Pg.id r =? v then Spec.patched data r else r)
            (Pg.jobs d)))
  = true.
Proof.
  intros Hd. destruct (sound_parts d Hd) as (H1 & H2 & H3).
  unfold Laws.sound, Pg.has_company in *.
  cbn [Pg.jobs Pg.with_jobs Pg.next_id Pg.companies].
  rewrite map_map, !forallb_mapped.
  rewrite (map_ext _ Pg.id), H1
    by (intros r; now destruct (Pg.id r =? v)).
  rewrite (forallb_same _ (fun r => Pg.id r <? Pg.next_id d)), H2
    by (intros r; now destruct (Pg.id r =? v)).
  rewrite (forallb_same _
             (fun r => existsb (fun c => String.eqb (Pg.handle c)
                                           (Pg.company_handle r))
                         (Pg.companies d)))
    by (intros r; now destruct (Pg.id r =? v)).
  now rewrite H3.
Qed.

Lemma no_id_none (v : Z) (l : list Pg.job_row) :
  existsb (Z.eqb v) (map Pg.id l) = false ->
  filter (fun r => Pg.id r =? v) l = [].
Proof.
  induction l as [|x l IH]; [reflexivity|]. cbn [map existsb filter].
  intros H. apply orb_false_iff in H as [Hx Hl].
  rewrite Z.eqb_sym, Hx. now apply IH.
Qed.

Lemma distinct_one (v : Z) (l : list Pg.job_row) (j : Pg.job_row)
      (js : list Pg.job_row) :
  Pg.distinct Z.eqb (map Pg.id l) = true ->
  filter (fun r => Pg.id r =? v) l = j :: js -> js = [].
Proof.
  induction l as [|x l IH]; [discriminate|]. cbn [map filter].
  intros H. apply distinct_cons in H as [Hx Hl].
  destruct (Z.eqb_spec (Pg.id x) v) as [Hv|_]; [|now apply IH].
  intros [= _ <-]. subst v. now apply no_id_none.
Qed.

Lemma has_company_select (d : Pg.db) (h : string) :
  Pg.has_company d h = true ->
  exists c cs, Pg.select_company h d = c :: cs /\ Pg.handle c = h.
Proof.
  unfold Pg.has_company, Pg.select_company. intros H.
  apply existsb_exists in H as (c & Hin & Hc).
  destruct (filter _ (Pg.companies d)) as [|c' cs] eqn:Hf.
  - assert (Hc' : In c (filter (fun c => String.eqb (Pg.handle c) h)
                               (Pg.companies d)))
      by (apply filter_In; now split).
    rewrite Hf in Hc'. destruct Hc'.
  - exists c', cs. split; [reflexivity|].
    apply filter_head in Hf as [Hh _]. now apply String.eqb_eq.
Qed.

(** X18.  A store in order stays in order.  Where no two jobs share an
    id, every id has been given out by the sequence and every job's
    company is in the store, the same holds after [create] with any
    data, after [remove] with any id and after [update] with data over
    title, salary and equity that the store takes, however the call
    ends.  In such a store [get] of an id that is there finds one job
    and its company: the key company is never left undefined. *)
Theorem writes_keep_store_sound (d : Pg.db) (id : jsval) (data : obj) :
  Laws.sound d = true ->
  Laws.sound (snd (Job.create data d)) = true
  /\ Laws.sound (snd (Job.remove id d)) = true
  /\ (forall v,
        Spec.denotes id v -> data <> [] -> Spec.update_data data = true ->
        Laws.sound (snd (Job.update id data d)) = true)
  /\ (forall v j js,
        Spec.denotes id v -> Pg.select_by_id v d = j :: js ->
        js = []
        /\ exists c,
            fst (Job.get id d) = Return (Spec.job_with_company j c)
            /\ Pg.handle c = Pg.company_handle j).
Proof.
  intros Hd. split; [|split; [|split]].
  - assert (Hasked : Laws.sound
                       (Pg.record_query Pg.InsertJob (Laws.create_args data) d)
                     = true)
      by now rewrite (sound_same_tables _ d (same_tables_issued _ _ _)).
    destruct (create_cases d data) as [(r & Hr & Hc & _ & ->)|[-> | ->]];
      cbn [snd].
    + apply sound_inserted; [exact Hasked|apply Hr|exact Hc].
    + exact Hasked.
    + now apply sound_drawn.
  - unfold Job.remove, bind, query, query_result. cbn [Pg.run map].
    set (d0 := Pg.record_query _ _ d).
    assert (Hd0 : Laws.sound d0 = true)
      by (unfold d0;
          now rewrite (sound_same_tables _ d
                         (same_tables_issued d Pg.DeleteJob [id]))).
    destruct (Pg.read_integer (Pg.prepareValue id)) as [[v|]|];
      try exact Hd0.
    assert (Hafter : Laws.sound
                       (Pg.with_jobs d0
                          (filter (fun r => negb (Pg.id r =? v)) (Pg.jobs d0)))
                     = true).
    { destruct (sound_parts d0 Hd0) as (H1 & H2 & H3).
      unfold Laws.sound, Pg.has_company in *.
      cbn [Pg.jobs Pg.with_jobs Pg.next_id Pg.companies].
      now rewrite (distinct_filter _ _ H1), (forallb_filter _ _ _ H2),
        (forallb_filter _ _ _ H3). }
    now destruct (map _ (Pg.select_by_id v d0)).
  - intros v Hid Hdata Hvalid.
    rewrite (update_valid d id v data Hid Hdata Hvalid). cbn [snd].
    apply (sound_patched (Pg.record_query _ _ d)).
    now rewrite (sound_same_tables _ d (same_tables_issued _ _ _)).
  - intros v j js Hid Hj. destruct (sound_parts d Hd) as (H1 & _ & H3).
    split; [exact (distinct_one v _ j js H1 Hj)|].
    pose proof (filter_head _ _ _ _ Hj) as [_ Hin].
    pose proof (proj1 (forallb_forall _ _) H3 j Hin) as Hcompany.
    destruct (has_company_select d _ Hcompany) as (c & cs & Hc & Hh).
    exists c. split; [|exact Hh].
    rewrite (get_eq d id v Hid), Hj, Hc. reflexivity.
Qed.

Lemma writes_keep_store_sound_witness :
  Laws.sound
    (snd (Job.update (VNum (int 1)) [("title", VStr "New")] Fixture.store))
  = true.
Proof.
  apply (proj1 (proj2 (proj2 (writes_keep_store_sound Fixture.store
                                (VNum (int 1)) [("title", VStr "New")]
                                eq_refl)))
           1 eq_refl ltac:(discriminate) eq_refl).
Defined.


(* ================================================================= *)
(** ** An update outside title, salary and equity *)

Lemma plan_company_handle (id x : jsval) (v : Z) (h : string) :
  Spec.denotes id v -> Pg.prepareValue x = Some h ->
  Pg.plan_update (Spec.set_clause_of [("company_handle", x)]) "$2"
    (map Pg.prepareValue (Spec.update_args id [("company_handle", x)]))
  = Pg.Planned [Pg.Ccompany_handle] [Pg.SetCompanyHandle (Some h)] (Some v).
Proof.
  intros Hid Hx. unfold Spec.denotes in Hid.
  lazy -[Pg.read_integer Pg.prepareValue]. now rewrite Hid, Hx.
Qed.

Lemma exec_move (d : Pg.db) (v : Z) (h : string) :
  Pg.exec_update [Pg.Ccompany_handle] [Pg.SetCompanyHandle (Some h)]
    (Some v) d
  = if forallb (fun _ => Pg.has_company d h) (Pg.select_by_id v d)
    then (Pg.Rows (map Pg.job_obj (map (Laws.moved h) (Pg.select_by_id v d))),
          Pg.with_jobs d
            (map (fun r => if Pg.id r =? v then Laws.moved h r else r)
                 (Pg.jobs d)))
    else (Pg.Fault, d).
Proof.
  unfold Pg.exec_update, Pg.select_by_id. cbn [Pg.hit].
  rewrite (all_some_map_some _
             (fun r => if Pg.id r =? v then Laws.moved h r else r))
    by (intros r _; now destruct (Pg.id r =? v)).
  rewrite (all_some_map_some _ (Laws.moved h)) by reflexivity.
  cbn [existsb Pg.column_eqb negb orb andb].
  now rewrite forallb_mapped.
Qed.

(** X19.  [update] takes any column, not only title, salary and equity.
    With the key company_handle and a company of the store, for an id
    the store reads as an integer, the job of that id is moved to that
    company and the row returned carries the new companyHandle; the
    other fields and the other jobs are kept.  With a handle no company
    has, the update of a job that is there throws the store's error and
    changes nothing. *)
Theorem update_moves_job (d : Pg.db) (id x : jsval) (v : Z) (h : string) :
  Spec.denotes id v -> Pg.prepareValue x = Some h ->
  (Pg.has_company d h = true ->
     Job.update id [("company_handle", x)] d
     = (match Pg.select_by_id v d with
        | [] => Throw (NotFoundError ("No job with id: " ++ ToString id))
        | j :: _ => Return (Pg.job_obj (Laws.moved h j))
        end,
        Pg.with_jobs
          (Pg.record_query (Spec.update_statement [("company_handle", x)])
                           (Spec.update_args id [("company_handle", x)]) d)
          (map (fun r => if Pg.id r =? v then Laws.moved h r else r)
               (Pg.jobs d))))
  /\ (Pg.has_company d h = false -> Pg.select_by_id v d <> [] ->
      fst (Job.update id [("company_handle", x)] d) = Throw DbError
      /\ Spec.same_tables (snd (Job.update id [("company_handle", x)] d)) d).
Proof.
  intros Hid Hx.
  assert (Hrun : forall d0,
             Pg.run (Spec.update_statement [("company_handle", x)])
               (map Pg.prepareValue
                    (Spec.update_args id [("company_handle", x)])) d0
             = Pg.exec_update [Pg.Ccompany_handle]
                 [Pg.SetCompanyHandle (Some h)] (Some v) d0).
  { intros d0. unfold Spec.update_statement. cbn [Pg.run]. unfold Pg.run_update.
    change ("$" ++ Text.decimal (Z.of_nat (List.length [("company_handle", x)]) + 1))
      with "$2".
    now rewrite (plan_company_handle id x v h Hid Hx). }
  split.
  - intros Hcompany. rewrite update_eq by discriminate.
    rewrite Hrun, exec_move.
    replace (forallb _ _) with true.
    + now destruct (Pg.select_by_id v _).
    + symmetry. apply forallb_forall. intros r _. exact Hcompany.
  - intros Hcompany Hj. rewrite update_eq by discriminate.
    rewrite Hrun, exec_move.
    replace (forallb _ _) with false.
    + split; [reflexivity|apply same_tables_issued].
    + symmetry. destruct (Pg.select_by_id v d) as [|j js] eqn:Hsel;
        [contradiction|].
      unfold Pg.select_by_id in *. cbn [Pg.jobs Pg.record_query].
      rewrite Hsel. cbn [forallb]. unfold Pg.has_company in *.
      cbn [Pg.companies Pg.record_query]. now rewrite Hcompany.
Qed.

Lemma update_moves_job_witness :
  fst (Job.update (VNum (int 1)) [("company_handle", VStr "c2")]
         Fixture.store)
  = Return [ ("id", VNum (int 1)); ("title", VStr "job1");
             ("salary", VNum (int 100)); ("equity", VStr "0.1");
             ("companyHandle", VStr "c2") ].
Proof.
  rewrite (proj1 (update_moves_job Fixture.store (VNum (int 1)) (VStr "c2")
                    1 "c2" eq_refl eq_refl) eq_refl).
  reflexivity.
Defined.


(* ================================================================= *)
(** ** Values the calls were not written for *)

(** X20.  A title that is no text, and a hasEquity that is neither true
    nor a text, end the search in a TypeError.  When the keys before it
    are handled without a failure, such a value under title, and any
    value but true and a text under hasEquity (false, null, a number),
    makes [findFiltered] throw the TypeError of calling toLowerCase on
    it; no statement is issued. *)
Theorem findFiltered_no_text (d : Pg.db) (filterBy : obj) (k : string)
        (before after ws : list string) :
  k = "title" \/ k = "hasEquity" ->
  Object_keys filterBy = (before ++ k :: after)%list ->
  map_throw (Job.where_of filterBy) before = Return ws ->
  Laws.unsearchable k (prop filterBy k) = true ->
  Job.findFiltered filterBy d = (Throw TypeError, d).
Proof.
  intros Hk Hkeys Hbefore Hvalue.
  rewrite (findFiltered_eq d filterBy (keys_not_empty _ _ _ _ Hkeys)).
  rewrite Hkeys, map_throw_app, Hbefore. cbn [map_throw].
  assert (Hw : Job.where_of filterBy k = Throw TypeError).
  { unfold Job.where_of, Job.case_title.
    destruct Hk as [-> | ->]; cbn [String.eqb Ascii.eqb Bool.eqb].
    - destruct (prop filterBy "title"); try reflexivity.
      discriminate Hvalue.
    - destruct (prop filterBy "hasEquity") as [| |[|]| |];
        try reflexivity; discriminate Hvalue. }
  now rewrite Hw.
Qed.

Lemma findFiltered_no_text_witness :
  Job.findFiltered [("minSalary", VNum (int 200)); ("hasEquity", VBool false)]
                   Fixture.store
  = (Throw TypeError, Fixture.store).
Proof.
  apply (findFiltered_no_text Fixture.store
           [("minSalary", VNum (int 200)); ("hasEquity", VBool false)]
           "hasEquity" ["minSalary"] [] ["salary >= 200"]).
  - now right.
  - reflexivity.
  - reflexivity.
  - reflexivity.
Defined.

(** X21.  An id the store cannot read as an integer is the store's
    error, not a missing job.  For such an id (a text like abc, a
    fraction, a boolean) [get] and [remove] throw the store's error
    after their one statement and write nothing; for an id that is null
    or undefined they throw not-found.  Whatever the id, the two calls
    throw nothing but the store's error and the not-found that carries
    the id, and never end in the unknown. *)
Theorem id_not_an_integer (d : Pg.db) (id : jsval) :
  (Pg.read_integer (Pg.prepareValue id) = None ->
     Job.get id d = (Throw DbError, Pg.record_query Pg.SelectJobById [id] d)
     /\ Job.remove id d
        = (Throw DbError, Pg.record_query Pg.DeleteJob [id] d))
  /\ (Pg.prepareValue id = None ->
      Job.get id d
      = (Throw (NotFoundError ("No job with id: " ++ ToString id)),
         Pg.record_query Pg.SelectJobById [id] d)
      /\ Job.remove id d
         = (Throw (NotFoundError ("No job with id: " ++ ToString id)),
            Pg.record_query Pg.DeleteJob [id] d))
  /\ (forall e,
        fst (Job.get id d) = Throw e \/ fst (Job.remove id d) = Throw e ->
        e = DbError
        \/ e = NotFoundError ("No job with id: " ++ ToString id))
  /\ fst (Job.get id d) <> Unknown
  /\ fst (Job.remove id d) <> Unknown.
Proof.
  split; [|split];
    try (intros H; unfold Job.get, Job.remove, bind, query, query_result;
         cbn [Pg.run map]; rewrite H; now split).
  assert (Hends :
            (exists v, Spec.denotes id v)
            \/ (fst (Job.get id d) = Throw DbError
                /\ fst (Job.remove id d) = Throw DbError)
            \/ (fst (Job.get id d)
                = Throw (NotFoundError ("No job with id: " ++ ToString id))
                /\ fst (Job.remove id d)
                   = Throw (NotFoundError
                              ("No job with id: " ++ ToString id)))).
  { unfold Spec.denotes, Job.get, Job.remove, bind, query, query_result. cbn [Pg.run map].
    destruct (Pg.read_integer (Pg.prepareValue id)) as [[v|]|];
      [left; now exists v|right; right; now split|right; left; now split]. }
  destruct Hends as [[v Hid]|[[Hg Hr]|[Hg Hr]]].
  - rewrite (get_eq d id v Hid), (remove_eq d id v Hid).
    destruct (Pg.select_by_id v d); cbn [fst];
      repeat split; try discriminate; intros e [He|He];
      try discriminate He; injection He as <-; auto.
  - rewrite Hg, Hr. repeat split; try discriminate.
    intros e [He|He]; injection He as <-; auto.
  - rewrite Hg, Hr. repeat split; try discriminate.
    intros e [He|He]; injection He as <-; auto.
Qed.

Lemma id_not_an_integer_witness :
  fst (Job.get (VStr "abc") Fixture.store) = Throw DbError
  /\ fst (Job.remove VUndefined Fixture.store)
     = Throw (NotFoundError "No job with id: undefined").
Proof.
  split.
  - now rewrite (proj1 (proj1 (id_not_an_integer Fixture.store (VStr "abc"))
                          eq_refl)).
  - now rewrite (proj2 (proj1 (proj2 (id_not_an_integer Fixture.store
                                        VUndefined))
                          eq_refl)).
Defined.
